(** * steepleparse: the Steeplechase log parser, embedded and verified

    A shallow embedding of [steepleparse.py] (Python 2): the regular
    expressions of [REGEXPS] as recognisers on strings, the [line_reader]
    generator as an explicit state machine, the parsing stages as
    computations in a state-and-exception monad, and the properties of the
    parser proved about these definitions. *)

From Stdlib Require Import ZArith List String Ascii Bool Lia.
From stdpp Require Import base list.

Local Open Scope string_scope.
Local Open Scope Z_scope.
Local Open Scope list_scope.

(** ** Characters and strings *)

Module Text.

(** The double-quote character, which the patterns of the log contain. *)
Definition dq : string := String (ascii_of_nat 34) EmptyString.

(** [str.isspace] in the C locale, which is also [\s] of [re]. *)
Definition is_space (c : ascii) : bool :=
  match nat_of_ascii c with
  | 9%nat | 10%nat | 11%nat | 12%nat | 13%nat | 32%nat => true
  | _ => false
  end.

(** The only character [.] does not match. *)
Definition is_newline (c : ascii) : bool := Ascii.eqb c (ascii_of_nat 10).

(** [\d] of [re]. *)
Definition is_digit (c : ascii) : bool :=
  let n := nat_of_ascii c in (48 <=? n)%nat && (n <=? 57)%nat.

(** [\w] of [re], without the LOCALE and UNICODE flags. *)
Definition is_word (c : ascii) : bool :=
  let n := nat_of_ascii c in
  is_digit c
  || ((65 <=? n)%nat && (n <=? 90)%nat)
  || ((97 <=? n)%nat && (n <=? 122)%nat)
  || (n =? 95)%nat.

Fixpoint all_space (s : string) : bool :=
  match s with
  | EmptyString => true
  | String c r => is_space c && all_space r
  end.

Fixpoint lstrip (s : string) : string :=
  match s with
  | EmptyString => EmptyString
  | String c r => if is_space c then lstrip r else s
  end.

Fixpoint rstrip (s : string) : string :=
  match s with
  | EmptyString => EmptyString
  | String c r => if all_space s then EmptyString else String c (rstrip r)
  end.

(** [str.strip()] *)
Definition strip (s : string) : string := rstrip (lstrip s).

(** The longest prefix of [s] made of characters satisfying [p], and
    what follows it: a greedy [p*] that nothing forces to give back. *)
Fixpoint span_chars (p : ascii -> bool) (s : string) : string * string :=
  match s with
  | EmptyString => (EmptyString, EmptyString)
  | String c r =>
      if p c then let (a, b) := span_chars p r in (String c a, b)
      else (EmptyString, s)
  end.

(** A literal at the start of [s]: what follows it, if it is there. *)
Fixpoint lit (p s : string) : option string :=
  match p with
  | EmptyString => Some s
  | String a p' =>
      match s with
      | String b s' => if Ascii.eqb a b then lit p' s' else None
      | EmptyString => None
      end
  end.

(** Greedy [.*] followed by the continuation [k]: the longest run of
    non-newline characters after which [k] succeeds is tried first. *)
Fixpoint dotstar {A : Type} (k : string -> option A) (s : string) : option A :=
  match s with
  | EmptyString => k s
  | String c r =>
      if is_newline c then k s
      else match dotstar k r with
           | Some a => Some a
           | None => k s
           end
  end.

(** A capturing greedy group of [.*] followed by [k]: the text captured and the
    result of [k]. *)
Fixpoint dotstar_group {A : Type} (k : string -> option A) (s : string)
  : option (string * A) :=
  let here := match k s with
              | Some a => Some (EmptyString, a)
              | None => None
              end in
  match s with
  | EmptyString => here
  | String c r =>
      if is_newline c then here
      else match dotstar_group k r with
           | Some (g, a) => Some (String c g, a)
           | None => here
           end
  end.

(** [int(s)] on a string of decimal digits; [None] stands for ValueError
    (the empty string, for one). *)
Fixpoint digits_value (acc : Z) (s : string) : option Z :=
  match s with
  | EmptyString => Some acc
  | String c r =>
      if is_digit c
      then digits_value (10 * acc + Z.of_nat (nat_of_ascii c - 48)) r
      else None
  end.

Definition int_of_string (s : string) : option Z :=
  match s with
  | EmptyString => None
  | _ => digits_value 0 s
  end.

End Text.

(** ** REGEXPS: each compiled pattern, applied with [match] (anchored at the
    start of the line only). *)

Module REGEXPS.
Import Text.

Definition is_some {A : Type} (o : option A) : bool :=
  match o with Some _ => true | None => false end.

(** [steeplechase INFO\s*\|\s*$] *)
Definition blank (line : string) : bool :=
  match lit "steeplechase INFO" line with
  | Some r =>
      match lstrip r with
      | String c r' => Ascii.eqb c "|" && all_space r'
      | EmptyString => false
      end
  | None => false
  end.

(** [.*Log output for G:] with the group [G = .*]; the value is group 1 *)
Definition client_start (line : string) : option string :=
  dotstar (fun s =>
    match lit "Log output for " s with
    | Some r => option_map fst (dotstar_group (lit ":") r)
    | None => None
    end) line.

(** [.*<<<<<<<] *)
Definition client_end (line : string) : bool :=
  is_some (dotstar (lit "<<<<<<<") line).

(** [steeplechase ERROR] *)
Definition sc_error (line : string) : bool :=
  is_some (lit "steeplechase ERROR" line).

(** [.*Run step: INTERVAL_COMMAND] *)
Definition session_start (line : string) : bool :=
  is_some (dotstar (lit "Run step: INTERVAL_COMMAND") line).

(** [.*STATS \(G\):] with the group [G = .*]; the value is group 1 *)
Definition stats_block (line : string) : option string :=
  dotstar (fun s =>
    match lit "STATS (" s with
    | Some r => option_map fst (dotstar_group (lit "):") r)
    | None => None
    end) line.

(** [.*{QactionQ:Qtest_unexpected_failQ], each Q a double quote *)
Definition test_failure (line : string) : bool :=
  is_some (dotstar
    (lit ("{" ++ dq ++ "action" ++ dq ++ ":" ++ dq ++ "test_unexpected_fail" ++ dq)%string)
    line).

(** [.*{QactionQ:QGQ] with the group [G = test\w*], each Q a double
    quote; the value is group 1 *)
Definition test_result (line : string) : option string :=
  dotstar (fun s =>
    match lit ("{" ++ dq ++ "action" ++ dq ++ ":" ++ dq ++ "test")%string s with
    | Some r =>
        let (w, r') := span_chars is_word r in
        match lit dq r' with
        | Some _ => Some ("test" ++ w)%string
        | None => None
        end
    | None => None
    end) line.

(** [.*Test finished] *)
Definition test_finished (line : string) : bool :=
  is_some (dotstar (lit "Test finished") line).

(** [.*Passed: G] with the group [G = \d*]; the value is group 1 *)
Definition total_passed (line : string) : option string :=
  dotstar (fun s =>
    match lit "Passed: " s with
    | Some r => Some (fst (span_chars is_digit r))
    | None => None
    end) line.

(** [.*Failed: G] with the group [G = \d*]; the value is group 1 *)
Definition total_failed (line : string) : option string :=
  dotstar (fun s =>
    match lit "Failed: " s with
    | Some r => Some (fst (span_chars is_digit r))
    | None => None
    end) line.

End REGEXPS.

Import Text.


(** ** The results document *)

(** A line as the reader delivers it: its number and its stripped text. *)
Definition numbered_line : Type := Z * string.

(** An entry of the anomaly log: a line number and a message. *)
Definition anomaly : Type := Z * string.

(** The [block] dict of [process_stats_block]. *)
Record block := mk_block {
  timestamp : string;
  failed_tests : list numbered_line
}.

(** The dict made by [create_client_results]; [None] is Python's [None]. *)
Record client_results := mk_client {
  name : option string;
  blocks : option Z;
  session_runtime : option Z;
  longest_pass : option Z;
  setup_failures : list numbered_line;
  cleanup_failures : list numbered_line;
  session_failures : list numbered_line;
  failed_blocks : list block
}.

(** What the ['anomalies'] key of a results dict refers to: the fresh empty
    list [create_results] made, which nothing else refers to and nothing
    appends to, or the list object bound to the module-level name
    [_anomalies], which every [log_anomaly] of the process appends to. *)
Inductive anomalies_ref := FreshList | ModuleAnomalies.

(** The dict made by [create_results]. *)
Record results := mk_results {
  clients : list client_results;
  results_session_runtime : option Z;
  total_passed : option Z;
  total_failed : option Z;
  anomalies : anomalies_ref
}.

Definition create_results : results :=
  {| clients := []; results_session_runtime := None; total_passed := None;
     total_failed := None; anomalies := FreshList |}.

Definition create_client_results : client_results :=
  {| name := None; blocks := None; session_runtime := None;
     longest_pass := None; setup_failures := []; cleanup_failures := [];
     session_failures := []; failed_blocks := [] |}.

(** The content of the list an ['anomalies'] key refers to, when the
    module-level list holds [module_list]. *)
Definition deref (module_list : list anomaly) (r : anomalies_ref) : list anomaly :=
  match r with
  | FreshList => []
  | ModuleAnomalies => module_list
  end.

(** Field updates of the two dicts. *)
Definition set_name v (c : client_results) : client_results :=
  mk_client v (blocks c) (session_runtime c) (longest_pass c) (setup_failures c)
            (cleanup_failures c) (session_failures c) (failed_blocks c).
Definition set_blocks v (c : client_results) : client_results :=
  mk_client (name c) v (session_runtime c) (longest_pass c) (setup_failures c)
            (cleanup_failures c) (session_failures c) (failed_blocks c).
Definition set_session_runtime v (c : client_results) : client_results :=
  mk_client (name c) (blocks c) v (longest_pass c) (setup_failures c)
            (cleanup_failures c) (session_failures c) (failed_blocks c).
Definition set_longest_pass v (c : client_results) : client_results :=
  mk_client (name c) (blocks c) (session_runtime c) v (setup_failures c)
            (cleanup_failures c) (session_failures c) (failed_blocks c).
Definition append_setup_failure (x : numbered_line) (c : client_results) : client_results :=
  mk_client (name c) (blocks c) (session_runtime c) (longest_pass c)
            (setup_failures c ++ [x])
            (cleanup_failures c) (session_failures c) (failed_blocks c).
Definition append_cleanup_failure (x : numbered_line) (c : client_results) : client_results :=
  mk_client (name c) (blocks c) (session_runtime c) (longest_pass c)
            (setup_failures c) (cleanup_failures c ++ [x])
            (session_failures c) (failed_blocks c).
Definition append_session_failure (x : numbered_line) (c : client_results) : client_results :=
  mk_client (name c) (blocks c) (session_runtime c) (longest_pass c)
            (setup_failures c) (cleanup_failures c)
            (session_failures c ++ [x]) (failed_blocks c).
Definition append_failed_block (b : block) (c : client_results) : client_results :=
  mk_client (name c) (blocks c) (session_runtime c) (longest_pass c)
            (setup_failures c) (cleanup_failures c) (session_failures c)
            (failed_blocks c ++ [b]).

Definition set_clients v (r : results) : results :=
  mk_results v (results_session_runtime r) (total_passed r) (total_failed r) (anomalies r).
Definition set_results_session_runtime v (r : results) : results :=
  mk_results (clients r) v (total_passed r) (total_failed r) (anomalies r).
Definition set_total_passed v (r : results) : results :=
  mk_results (clients r) (results_session_runtime r) v (total_failed r) (anomalies r).
Definition set_total_failed v (r : results) : results :=
  mk_results (clients r) (results_session_runtime r) (total_passed r) v (anomalies r).
Definition set_anomalies v (r : results) : results :=
  mk_results (clients r) (results_session_runtime r) (total_passed r) (total_failed r) v.

(** ** The generator object of [line_reader] *)

(** Where the generator is suspended.  [line] is the raw line of the file,
    [number] its 1-based number. *)
Inductive gen_frame :=
| GenCreated                                  (* not started *)
| GenYieldLine (number : Z) (line : string)   (* at [yield number, line.strip()] *)
| GenYieldNone (number : Z) (line : string)   (* at [yield None] *)
| GenFinished.                                (* the body was left *)

Record generator := mk_gen {
  frame : gen_frame;
  file : list string      (* the lines of the file not read yet *)
}.

(** [line_reader(filename)], the file given by its lines (as iterating over
    the file object yields them, each with its line end). *)
Definition line_reader (file_lines : list string) : generator :=
  {| frame := GenCreated; file := file_lines |}.

(** ** Time tracking of a session *)

(** The locals [first_dt], [last_dt], [pass_start_dt] and
    [longest_pass_delta] of [process_client_session], which its [finally]
    clause reads on every exit.  A datetime is a number of microseconds on
    the time line, a timedelta a difference of two. *)
Record timing := mk_timing {
  first_dt : option Z;
  last_dt : option Z;
  pass_start_dt : option Z;
  longest_pass_delta : option Z
}.

Definition timing_unset : timing := mk_timing None None None None.

(** The body of the session loop after a stats block was parsed: the
    runtime and longest-pass bookkeeping for a block at [dt]. *)
Definition track (dt : Z) (passed : bool) (t : timing) : timing :=
  let first := match first_dt t with None => Some dt | Some f => Some f end in
  if passed then
    match pass_start_dt t with
    | None => mk_timing first (Some dt) (Some dt) (longest_pass_delta t)
    | Some start =>
        let pass_delta := dt - start in
        mk_timing first (Some dt) (Some start)
          (match longest_pass_delta t with
           | None => Some pass_delta
           | Some longest => Some (Z.max pass_delta longest)
           end)
    end
  else mk_timing first (Some dt) None (longest_pass_delta t).

(** [int(delta.total_seconds())]: whole seconds, truncated towards zero. *)
Definition whole_seconds (delta : Z) : Z := Z.quot delta 1000000.

(** [min] of Python 2 on two values that are [None] or integers: [None]
    is smaller than every integer. *)
Definition py2_min (a b : option Z) : option Z :=
  match a, b with
  | Some x, Some y => Some (Z.min x y)
  | _, _ => None
  end.

(** ** State and exceptions *)

Inductive exn :=
| StopIteration (args : option Z)      (* [None]: raised with no argument *)
| Client_Early_Exit_Error (value : Z)
| AttributeError
| IndexError
| TypeError
| ValueError.

(** How a call ends: it returns, it raises, or the bound on loop iterations
    of the model was too small. *)
Inductive outcome (A : Type) :=
| Return (a : A)
| Raise (e : exn)
| OutOfFuel.
Arguments Return {A} a.
Arguments Raise {A} e.
Arguments OutOfFuel {A}.

(** What the stages of one [parse] call read and write: the reader, the
    list bound to [_anomalies], the results dict under construction and the
    time-tracking locals of the session being parsed. *)
Record state := mk_state {
  st_reader : generator;
  st_anomalies : list anomaly;
  st_results : results;
  st_timing : timing
}.

Definition M (A : Type) : Type := state -> outcome A * state.

Definition ret {A} (a : A) : M A := fun s => (Return a, s).
Definition raise {A} (e : exn) : M A := fun s => (Raise e, s).
Definition out_of_fuel {A} : M A := fun s => (OutOfFuel, s).

Definition bind {A B} (m : M A) (f : A -> M B) : M B :=
  fun s =>
    match m s with
    | (Return a, s') => f a s'
    | (Raise e, s') => (Raise e, s')
    | (OutOfFuel, s') => (OutOfFuel, s')
    end.

Declare Scope py_scope.
Delimit Scope py_scope with py.
Notation "x <- c1 ;; c2" := (bind c1 (fun x => c2))
  (at level 100, c1 at next level, right associativity) : py_scope.
Notation "'let*' pat ':=' c1 'in' c2" := (bind c1 (fun x => match x with pat => c2 end))
  (at level 100, pat pattern, c1 at next level, right associativity) : py_scope.
Notation "c1 ;; c2" := (bind c1 (fun _ => c2))
  (at level 100, right associativity) : py_scope.
Local Open Scope py_scope.

(** [try: body except ...: handler]: [handler e] is [None] for an exception
    the clause does not name. *)
Definition try_except {A} (body : M A) (handler : exn -> option (M A)) : M A :=
  fun s =>
    match body s with
    | (Raise e, s') =>
        match handler e with
        | Some h => h s'
        | None => (Raise e, s')
        end
    | other => other
    end.

(** [try: body finally: final]: [final] runs however [body] ends, and the
    way [body] ended stands unless [final] raises. *)
Definition try_finally {A} (body : M A) (final : M unit) : M A :=
  fun s =>
    match body s with
    | (OutOfFuel, s') => (OutOfFuel, s')
    | (r, s') =>
        match final s' with
        | (Return _, s'') => (r, s'')
        | (Raise e, s'') => (Raise e, s'')
        | (OutOfFuel, s'') => (OutOfFuel, s'')
        end
    end.

Definition get_reader : M generator := fun s => (Return (st_reader s), s).
Definition put_reader (g : generator) : M unit :=
  fun s => (Return tt, mk_state g (st_anomalies s) (st_results s) (st_timing s)).
Definition get_results : M results := fun s => (Return (st_results s), s).
Definition modify_results (f : results -> results) : M unit :=
  fun s => (Return tt, mk_state (st_reader s) (st_anomalies s) (f (st_results s)) (st_timing s)).
Definition get_timing : M timing := fun s => (Return (st_timing s), s).
Definition put_timing (t : timing) : M unit :=
  fun s => (Return tt, mk_state (st_reader s) (st_anomalies s) (st_results s) t).

(** A [client_results] dict is referred to by its position in
    [results['clients']], a list that is only appended to.  Reading through
    a position that is not there cannot happen in the program; the model
    raises IndexError for it. *)
Definition get_client (i : nat) : M client_results :=
  fun s =>
    match clients (st_results s) !! i with
    | Some c => (Return c, s)
    | None => (Raise IndexError, s)
    end.
Definition modify_client (i : nat) (f : client_results -> client_results) : M unit :=
  modify_results (fun r => set_clients (alter f i (clients r)) r).

(** [results['clients'].append(client_results)]: the position of the new
    dict. *)
Definition append_client (c : client_results) : M nat :=
  fun s =>
    let i := length (clients (st_results s)) in
    (Return i,
     mk_state (st_reader s) (st_anomalies s)
       (set_clients (clients (st_results s) ++ [c]) (st_results s)) (st_timing s)).

(** ** The anomaly log *)

Definition log_anomaly (number : Z) (line : string) : M unit :=
  fun s =>
    (Return tt,
     mk_state (st_reader s) (st_anomalies s ++ [(number, line)]) (st_results s)
       (st_timing s)).

Definition check_for_anomalies (number : Z) (line : string) : M unit :=
  if REGEXPS.sc_error line then log_anomaly number line else ret tt.

(** ** Driving the reader *)

(** The generator runs from the head of [for line in f] to its next
    [yield]: a new line is read, numbered and scanned, or the loop ends and
    [StopIteration(number)] is raised. *)
Definition advance (number : Z) : M (option numbered_line) :=
  g <- get_reader ;;
  match file g with
  | [] =>
      put_reader (mk_gen GenFinished []) ;;
      raise (StopIteration (Some number))
  | line :: rest =>
      let number := number + 1 in
      check_for_anomalies number line ;;
      put_reader (mk_gen (GenYieldLine number line) rest) ;;
      ret (Some (number, strip line))
  end.

(** [reader.send(sent)], where [reader.next()] sends [None] ([false] here)
    and [requeue_line] sends [True]; the value is what the generator
    yields. *)
Definition resume (sent : bool) : M (option numbered_line) :=
  g <- get_reader ;;
  match frame g with
  | GenCreated =>
      if sent then raise TypeError else advance 0
  | GenYieldLine number line =>
      if sent
      then put_reader (mk_gen (GenYieldNone number line) (file g)) ;; ret None
      else advance number
  | GenYieldNone number line =>
      if sent then ret None
      else put_reader (mk_gen (GenYieldLine number line) (file g)) ;;
           ret (Some (number, strip line))
  | GenFinished => raise (StopIteration None)
  end.

(** [number, line = reader.next()] *)
Definition reader_next : M numbered_line :=
  v <- resume false ;;
  match v with
  | Some p => ret p
  | None => raise TypeError
  end.

Definition requeue_line : M unit :=
  _ <- resume true ;; ret tt.

(** One step of [for number, line in reader]: [None] when the loop ends,
    which it does on any StopIteration. *)
Definition for_next : M (option numbered_line) :=
  try_except
    (p <- reader_next ;; ret (Some p))
    (fun e => match e with
              | StopIteration _ => Some (ret None)
              | _ => None
              end).

(** ** The parsing stages *)

Section Stages.

(** [dateutil.parser.parse], an external collaborator: the datetime a
    timestamp string denotes, in microseconds on the time line; [None]
    when it raises ValueError.  (All the datetimes of one log are taken
    to be comparable, and [total_seconds], a float, to be exact.) *)
Variable dateutil_parse : string -> option Z.

(** [for number, line in reader]: up to the client start marker, which is
    requeued. *)
Fixpoint process_steeplechase_setup (fuel : nat) : M unit :=
  match fuel with
  | O => out_of_fuel
  | S fuel =>
      v <- for_next ;;
      match v with
      | None => ret tt
      | Some (number, line) =>
          if REGEXPS.is_some (REGEXPS.client_start line)
          then requeue_line
          else process_steeplechase_setup fuel
      end
  end.

Fixpoint process_client_setup (fuel : nat) (i : nat) : M unit :=
  match fuel with
  | O => out_of_fuel
  | S fuel =>
      let* (number, line) := reader_next in
      if REGEXPS.client_end line
      then raise (Client_Early_Exit_Error number)
      else
        (if REGEXPS.test_failure line
         then modify_client i (append_setup_failure (number, line))
         else ret tt) ;;
        if REGEXPS.session_start line
        then requeue_line
        else process_client_setup fuel i
  end.

(** The first loop of [process_stats_block]: the stats list and the blank
    lines after it. *)
Fixpoint stats_list_loop (fuel : nat) (in_blank : bool) : M unit :=
  match fuel with
  | O => out_of_fuel
  | S fuel =>
      let* (number, line) := reader_next in
      if REGEXPS.blank line then stats_list_loop fuel true
      else if in_blank then requeue_line
      else stats_list_loop fuel in_blank
  end.

(** The second loop of [process_stats_block]: the test results, with
    [block['failed tests']] as it grows. *)
Fixpoint test_results_loop (fuel : nat) (failed : list numbered_line)
  : M (list numbered_line) :=
  match fuel with
  | O => out_of_fuel
  | S fuel =>
      let* (number, line) := reader_next in
      match REGEXPS.test_result line with
      | Some action =>
          if String.eqb action "test_pass"
          then test_results_loop fuel failed
          else test_results_loop fuel (failed ++ [(number, line)])
      | None => requeue_line ;; ret failed
      end
  end.

Definition process_stats_block (fuel : nat) (i : nat) (just_scan : bool)
  : M (string * bool) :=
  let* (number, line) := reader_next in
  match REGEXPS.stats_block line with
  | None => raise AttributeError
  | Some timestamp =>
      stats_list_loop fuel false ;;
      failed <- test_results_loop fuel [] ;;
      (match failed with
       | _ :: _ =>
           if just_scan then ret tt
           else modify_client i (append_failed_block (mk_block timestamp failed))
       | [] => ret tt
       end) ;;
      ret (timestamp, match failed with [] => true | _ :: _ => false end)
  end.

(** The body of [if REGEXPS['stats block'].match(line)] in the session
    loop. *)
Definition session_stats_block (fuel : nat) (i : nat) : M unit :=
  requeue_line ;;
  c <- get_client i ;;
  match blocks c with
  | None => raise TypeError
  | Some b =>
      modify_client i (set_blocks (Some (b + 1))) ;;
      let* (timestamp, passed) := process_stats_block fuel i false in
      match dateutil_parse timestamp with
      | None => raise ValueError
      | Some dt =>
          t <- get_timing ;;
          put_timing (track dt passed t)
      end
  end.

Fixpoint session_loop (fuel : nat) (i : nat) : M unit :=
  match fuel with
  | O => out_of_fuel
  | S fuel =>
      let* (number, line) := reader_next in
      if REGEXPS.client_end line
      then raise (Client_Early_Exit_Error number)
      else if REGEXPS.test_finished line
      then ret tt
      else
        (if REGEXPS.is_some (REGEXPS.stats_block line)
         then session_stats_block fuel i
         else ret tt) ;;
        (if REGEXPS.test_failure line
         then modify_client i (append_session_failure (number, line))
         else ret tt) ;;
        session_loop fuel i
  end.

(** The [finally] clause of [process_client_session]; a timedelta of
    zero is false, a datetime is always true. *)
Definition session_finally (i : nat) : M unit :=
  t <- get_timing ;;
  (match longest_pass_delta t with
   | Some delta =>
       if delta =? 0 then ret tt
       else modify_client i (set_longest_pass (Some (whole_seconds delta)))
   | None => ret tt
   end) ;;
  match last_dt t, first_dt t with
  | Some last, Some first =>
      modify_client i (set_session_runtime (Some (whole_seconds (last - first))))
  | _, _ => ret tt
  end.

Definition process_client_session (fuel : nat) (i : nat) : M unit :=
  modify_client i (set_blocks (Some 0)) ;;
  put_timing timing_unset ;;
  try_finally (session_loop fuel i) (session_finally i).

(** ['%(name)s' % {'name': v}] *)
Definition format_name (v : option string) : string :=
  match v with
  | Some n => n
  | None => "None"
  end.

(** The body of [if REGEXPS['stats block'].match(line)] in the cleanup
    loop, for the line numbered [number]. *)
Definition cleanup_stats_block (fuel : nat) (i : nat) (number : Z) : M unit :=
  c <- get_client i ;;
  log_anomaly number
    (format_name (name c) ++ " got stats after test finished")%string ;;
  requeue_line ;;
  _ <- process_stats_block fuel i true ;;
  ret tt.

Fixpoint process_client_cleanup (fuel : nat) (i : nat) : M unit :=
  match fuel with
  | O => out_of_fuel
  | S fuel =>
      let* (number, line) := reader_next in
      if REGEXPS.client_end line
      then ret tt
      else
        (if REGEXPS.is_some (REGEXPS.stats_block line)
         then cleanup_stats_block fuel i number
         else ret tt) ;;
        (if REGEXPS.test_failure line
         then modify_client i (append_cleanup_failure (number, line))
         else ret tt) ;;
        process_client_cleanup fuel i
  end.

(** The [try] block of [process_client]. *)
Definition client_phases (fuel : nat) (i : nat) : M unit :=
  process_client_setup fuel i ;;
  process_client_session fuel i ;;
  process_client_cleanup fuel i.

Definition process_client (fuel : nat) : M unit :=
  i <- append_client create_client_results ;;
  let* (number, line) := reader_next in
  match REGEXPS.client_start line with
  | None => raise AttributeError
  | Some client_name =>
      modify_client i (set_name (Some client_name)) ;;
      try_except (client_phases fuel i)
        (fun e =>
           match e with
           | Client_Early_Exit_Error value =>
               Some (log_anomaly value (client_name ++ " exited early")%string)
           | _ => None
           end)
  end.

(** [for number, line in reader: pass] *)
Fixpoint drain (fuel : nat) : M unit :=
  match fuel with
  | O => out_of_fuel
  | S fuel =>
      v <- for_next ;;
      match v with
      | None => ret tt
      | Some _ => drain fuel
      end
  end.

(** [int(m.group(1))] for a match [m] that may be [None]. *)
Definition int_group (m : option string) : M Z :=
  match m with
  | None => raise AttributeError
  | Some g =>
      match int_of_string g with
      | None => raise ValueError
      | Some v => ret v
      end
  end.

Definition process_steeplechase_cleanup (fuel : nat) : M unit :=
  let* (number, line) := reader_next in
  let* (number, line) := reader_next in
  passed <- int_group (REGEXPS.total_passed line) ;;
  modify_results (set_total_passed (Some passed)) ;;
  let* (number, line) := reader_next in
  failed <- int_group (REGEXPS.total_failed line) ;;
  modify_results (set_total_failed (Some failed)) ;;
  drain fuel.

Definition process_log (fuel : nat) : M unit :=
  process_steeplechase_setup fuel ;;
  process_client fuel ;;
  process_client fuel ;;
  process_steeplechase_cleanup fuel.

(** [results['clients'][k]['session runtime']] *)
Definition client_session_runtime (k : nat) : M (option Z) :=
  r <- get_results ;;
  match clients r !! k with
  | Some c => ret (session_runtime c)
  | None => raise IndexError
  end.

(** The body of [parse] after the reader and the results dict are made. *)
Definition parse_body (fuel : nat) : M results :=
  try_except (process_log fuel)
    (fun e =>
       match e with
       | StopIteration args =>
           Some (match args with
                 | Some number => log_anomaly number "Reached unexpected EOF"
                 | None => raise IndexError
                 end)
       | _ => None
       end) ;;
  runtime0 <- client_session_runtime 0 ;;
  runtime1 <- client_session_runtime 1 ;;
  modify_results (set_results_session_runtime (py2_min runtime0 runtime1)) ;;
  modify_results (set_anomalies ModuleAnomalies) ;;
  get_results.

(** The state [parse] starts its stages in: a new reader on the file, a
    new results dict, and the module-level list as the process has it. *)
Definition initial_state (file_lines : list string) (module_list : list anomaly)
  : state :=
  mk_state (line_reader file_lines) module_list create_results timing_unset.

Definition parse_fuel (fuel : nat) (file_lines : list string)
  (module_list : list anomaly) : outcome results * list anomaly :=
  let (r, s) := parse_body fuel (initial_state file_lines module_list) in
  (r, st_anomalies s).

(** [parse(filename)] for a file of the lines [file_lines], called when
    the module-level list holds [module_list]: how the call ends, and the
    module-level list after it.  No loop of the stages runs more often
    than the file has lines, plus once. *)
Definition parse (file_lines : list string) (module_list : list anomaly)
  : outcome results * list anomaly :=
  parse_fuel (S (length file_lines)) file_lines module_list.

End Stages.

(** ** Logs for the examples *)

Module Sample.

Definition nl : string := String (ascii_of_nat 10) EmptyString.

(** A test-result line reporting [action]. *)
Definition result_line (action : string) : string :=
  ("steeplechase INFO | {" ++ dq ++ "action" ++ dq ++ ":" ++ dq ++ action ++ dq ++ "}" ++ nl)%string.

Definition blank_line : string := ("steeplechase INFO |" ++ nl)%string.

(** A stand-in for the date parser: a timestamp is a number of seconds
    written in decimal digits. *)
Definition seconds_parse (timestamp : string) : option Z :=
  match int_of_string timestamp with
  | Some v => Some (v * 1000000)
  | None => None
  end.

Definition stats (ts : string) (results : list string) : list string :=
  [("steeplechase INFO | STATS (" ++ ts ++ "):" ++ nl)%string;
   ("steeplechase INFO | stats list" ++ nl)%string;
   blank_line] ++ results.

Definition client (n : string) (session : list string) : list string :=
  [("steeplechase INFO | Log output for " ++ n ++ ":" ++ nl)%string;
   ("steeplechase INFO | >>>>>>>" ++ nl)%string;
   ("steeplechase INFO | Run step: INTERVAL_COMMAND" ++ nl)%string]
  ++ session ++
  [("steeplechase INFO | Test finished" ++ nl)%string;
   ("steeplechase INFO | <<<<<<<" ++ nl)%string].

Definition totals : list string :=
  [("steeplechase INFO | Result summary:" ++ nl)%string;
   ("steeplechase INFO | Passed: 42" ++ nl)%string;
   ("steeplechase INFO | Failed: 3" ++ nl)%string].

Definition full_log : list string :=
  [("steeplechase INFO | starting" ++ nl)%string]
  ++ client "Client A"
       (stats "100" [result_line "test_pass"]
        ++ stats "160" [result_line "test_pass"; result_line "test_pass"]
        ++ stats "220" [result_line "test_unexpected_fail"]
        ++ stats "280" [result_line "test_pass"]
        ++ [("steeplechase INFO | tail" ++ nl)%string])
  ++ client "Client B"
       (stats "100" [result_line "test_pass"]
        ++ stats "130" [result_line "test_pass"]
        ++ [("steeplechase ERROR | oops" ++ nl)%string])
  ++ totals.

(** The log cut off right after the session start marker of the first
    client. *)
Definition truncated_log : list string :=
  [("steeplechase INFO | starting" ++ nl)%string;
   ("steeplechase INFO | Log output for Client A:" ++ nl)%string;
   ("steeplechase INFO | >>>>>>>" ++ nl)%string;
   ("steeplechase INFO | Run step: INTERVAL_COMMAND" ++ nl)%string].

(** A log with no client section at all. *)
Definition headless_log : list string :=
  [("steeplechase INFO | starting" ++ nl)%string;
   ("steeplechase INFO | stopping" ++ nl)%string].

(** A complete log in which the session of each client has two passing
    stats blocks that carry the same timestamp. *)
Definition same_time_log : list string :=
  client "Client A"
    (stats "100" [result_line "test_pass"]
     ++ stats "100" [result_line "test_pass"])
  ++ client "Client B"
       (stats "100" [result_line "test_pass"]
        ++ stats "100" [result_line "test_pass"])
  ++ totals.

(** A log whose first client has, in its setup, a test-result line that
    reports [test_known_fail]: neither passing nor an unexpected failure. *)
Definition other_action_log : list string :=
  [("steeplechase INFO | Log output for Client A:" ++ nl)%string;
   result_line "test_known_fail";
   result_line "test_unexpected_fail";
   ("steeplechase INFO | Run step: INTERVAL_COMMAND" ++ nl)%string;
   ("steeplechase INFO | Test finished" ++ nl)%string;
   ("steeplechase INFO | <<<<<<<" ++ nl)%string]
  ++ client "Client B" []
  ++ totals.

End Sample.


(** * Properties *)

Arguments REGEXPS.blank : simpl never.
Arguments REGEXPS.client_start : simpl never.
Arguments REGEXPS.client_end : simpl never.
Arguments REGEXPS.sc_error : simpl never.
Arguments REGEXPS.session_start : simpl never.
Arguments REGEXPS.stats_block : simpl never.
Arguments REGEXPS.test_failure : simpl never.
Arguments REGEXPS.test_result : simpl never.
Arguments REGEXPS.test_finished : simpl never.
Arguments REGEXPS.total_passed : simpl never.
Arguments REGEXPS.total_failed : simpl never.
Arguments strip : simpl never.

(** ** The reader as a queue of lines to come *)

(** The lines of [ls] as the reader will deliver them after line [n]. *)
Fixpoint number_lines (n : Z) (ls : list string) : list numbered_line :=
  match ls with
  | [] => []
  | l :: rest => (n + 1, strip l) :: number_lines (n + 1) rest
  end.

(** What successive [next()] calls will deliver, in order. *)
Definition upcoming (g : generator) : list numbered_line :=
  match frame g with
  | GenCreated => number_lines 0 (file g)
  | GenYieldLine n _ => number_lines n (file g)
  | GenYieldNone n l => (n, strip l) :: number_lines n (file g)
  | GenFinished => []
  end.

(** The number of the line the generator last read, 0 before the first. *)
Definition current_number (g : generator) : Z :=
  match frame g with
  | GenCreated => 0
  | GenYieldLine n _ | GenYieldNone n _ => n
  | GenFinished => 0
  end.

(** The anomalies the scan of a newly read line adds. *)
Definition scan (number : Z) (line : string) : list anomaly :=
  if REGEXPS.sc_error line then [(number, line)] else [].

(** Every way a [next()] call can end. *)
Inductive next_spec (s : state) : outcome numbered_line * state -> Prop :=
| next_delivers n line rest added :
    upcoming (st_reader s) = (n, strip line) :: number_lines n rest ->
    ((added = [] /\ st_reader s = mk_gen (GenYieldNone n line) rest)
     \/ (added = scan n line /\ n = current_number (st_reader s) + 1
         /\ file (st_reader s) = line :: rest)) ->
    next_spec s
      (Return (n, strip line),
       mk_state (mk_gen (GenYieldLine n line) rest)
         (st_anomalies s ++ added) (st_results s) (st_timing s))
| next_stops args g :
    upcoming (st_reader s) = [] ->
    frame g = GenFinished ->
    next_spec s
      (Raise (StopIteration args),
       mk_state g (st_anomalies s) (st_results s) (st_timing s)).


(** ** Relations between the state before and after a computation *)

(** [m] takes every state to one that [R] relates it to, however it ends. *)
Definition pres (R : state -> state -> Prop) {A : Type} (m : M A) : Prop :=
  forall s, R s (snd (m s)).

(** The anomaly log after extends the anomaly log before. *)
Definition log_grows (s s' : state) : Prop :=
  st_anomalies s `prefix_of` st_anomalies s'.

(** ** How a computation may end *)

(** Every exception [m] raises satisfies [P]. *)
Definition raises_only (P : exn -> Prop) {A : Type} (m : M A) : Prop :=
  forall s e s', m s = (Raise e, s') -> P e.

(** Any exception but the premature exit of a client. *)
Definition not_early_exit (e : exn) : Prop :=
  match e with
  | Client_Early_Exit_Error _ => False
  | _ => True
  end.

(** The reader has just delivered line [n], a client end marker, and
    nothing is requeued. *)
Definition at_client_end (n : Z) (s : state) : Prop :=
  exists raw,
    frame (st_reader s) = GenYieldLine n raw
    /\ REGEXPS.client_end (strip raw) = true.

(** An anomaly the line scan of the reader recorded: a harness error line. *)
Definition is_scan_anomaly (a : anomaly) : Prop :=
  REGEXPS.sc_error (snd a) = true.

(** Between [s] and [s'] only the reader wrote to the anomaly log: what was
    added are harness error lines. *)
Definition only_scans (s s' : state) : Prop :=
  exists added,
    st_anomalies s' = st_anomalies s ++ added /\ Forall is_scan_anomaly added.

(** ** A client section and its premature end *)

(** [process_client], called in [s], has appended the client's dict to the
    results, read the first line of the section, found [client_name] in it
    and stored it: [s1] is the state its [try] block starts in. *)
Definition enters_client (s : state) (client_name : string) (s1 : state) : Prop :=
  exists number line s0,
    reader_next (snd (append_client create_client_results s))
    = (Return (number, line), s0)
    /\ REGEXPS.client_start line = Some client_name
    /\ s1 = snd (modify_client (length (clients (st_results s)))
                   (set_name (Some client_name)) s0).

(** The client end marker is found on line [n] during the setup, or during
    the session before the test finished; [s2] is the state then. *)
Definition ends_prematurely (dateutil_parse : string -> option Z)
  (fuel : nat) (i : nat) (s1 : state) (n : Z) (s2 : state) : Prop :=
  process_client_setup fuel i s1 = (Raise (Client_Early_Exit_Error n), s2)
  \/ exists sm,
       process_client_setup fuel i s1 = (Return tt, sm)
       /\ process_client_session dateutil_parse fuel i sm
          = (Raise (Client_Early_Exit_Error n), s2).

(** ** Lines as the stats block parser classifies them *)

(** A test-result line whose action is not exactly [test_pass]. *)
Definition failing (p : numbered_line) : bool :=
  match REGEXPS.test_result (snd p) with
  | Some action => negb (String.eqb action "test_pass")
  | None => false
  end.

Definition is_test_result (p : numbered_line) : Prop :=
  REGEXPS.is_some (REGEXPS.test_result (snd p)) = true.

Definition is_blank (p : numbered_line) : Prop := REGEXPS.blank (snd p) = true.

Definition not_blank (p : numbered_line) : Prop := REGEXPS.blank (snd p) = false.

(** The reader changed and, through its scan, the anomaly log; the results
    dict and the session locals did not. *)
Definition only_read (s s' : state) : Prop :=
  st_results s' = st_results s /\ st_timing s' = st_timing s /\ only_scans s s'.

(** Every character of [s] satisfies [p]. *)
Fixpoint string_forall (p : ascii -> bool) (s : string) : bool :=
  match s with
  | EmptyString => true
  | String c r => p c && string_forall p r
  end.

(** Any character but the opening brace of a test-result fragment. *)
Definition not_brace (c : ascii) : bool := negb (Ascii.eqb c "{").

(** ** Failed blocks *)

(** Every block in the failed-blocks list of every client has at least one
    failing test. *)
Definition blocks_have_failures (r : results) : Prop :=
  Forall (fun c => Forall (fun b => failed_tests b <> []) (failed_blocks c))
    (clients r).

Definition keeps_blocks_with_failures (s s' : state) : Prop :=
  blocks_have_failures (st_results s) -> blocks_have_failures (st_results s').

(** The failed-blocks lists of all the clients are what they were. *)
Definition same_failed_blocks (s s' : state) : Prop :=
  map failed_blocks (clients (st_results s'))
  = map failed_blocks (clients (st_results s)).

(** The anomaly a stats block after the end of the test is recorded as. *)
Definition stats_after_finish (c : client_results) : string :=
  (format_name (name c) ++ " got stats after test finished")%string.

(** ** The longest pass of a session, as the specification words it *)

(** A stats block of a session: its timestamp and whether it passed. *)
Definition stats_outcome : Type := Z * bool.

(** The time tracking of a session that parsed the blocks [bs] in order. *)
Definition track_all (bs : list stats_outcome) (t : timing) : timing :=
  fold_left (fun t b => track (fst b) (snd b) t) bs t.

(** The maximal runs of consecutive passing blocks of [bs], each as the
    list of its timestamps, [cur] being the run that is open when [bs]
    starts. *)
Fixpoint pass_runs (cur : list Z) (bs : list stats_outcome) : list (list Z) :=
  match bs with
  | [] => [cur]
  | (dt, true) :: rest => pass_runs (cur ++ [dt]) rest
  | (dt, false) :: rest => cur :: pass_runs [] rest
  end.

(** The timestamp deltas of a run: from its first block to each later one. *)
Definition run_deltas (run : list Z) : list Z :=
  match run with
  | [] => []
  | start :: later => map (fun dt => dt - start) later
  end.

(** The largest of a list of deltas, [None] when there is none. *)
Definition max_delta (acc : option Z) (ds : list Z) : option Z :=
  fold_left (fun m d => match m with
                        | None => Some d
                        | Some x => Some (Z.max d x)
                        end) ds acc.

(** The maximum timestamp delta across the maximal runs of consecutive
    passing blocks. *)
Definition max_run_delta (bs : list stats_outcome) : option Z :=
  max_delta None (concat (map run_deltas (pass_runs [] bs))).

(** The run that is open in the tracking state [t]. *)
Definition open_run (t : timing) : list Z :=
  match pass_start_dt t with
  | Some start => [start]
  | None => []
  end.

(** The state the session loop starts in when [process_client_session] is
    called in [s]: the block count is 0 and the time tracking unset. *)
Definition session_entry (i : nat) (s : state) : state :=
  mk_state (st_reader s) (st_anomalies s)
    (set_clients (alter (set_blocks (Some 0)) i (clients (st_results s)))
       (st_results s))
    timing_unset.

(** ** The lines the setup looks at *)

(** Of the lines to come, those the setup loop tests against the test
    failure pattern: all up to the session start marker, that line included,
    or up to a client end marker, that line excluded. *)
Fixpoint setup_lines (lines : list numbered_line) : list numbered_line :=
  match lines with
  | [] => []
  | p :: rest =>
      if REGEXPS.client_end (snd p) then []
      else p :: (if REGEXPS.session_start (snd p) then [] else setup_lines rest)
  end.

Definition is_test_failure (p : numbered_line) : bool :=
  REGEXPS.test_failure (snd p).

(** A list field of client [i] only grew. *)
Definition field_grows (field : client_results -> list numbered_line) (i : nat)
  (s s' : state) : Prop :=
  forall c, clients (st_results s) !! i = Some c ->
            exists c', clients (st_results s') !! i = Some c'
                       /\ field c `prefix_of` field c'.

(** The state the stages of [parse] end in, for a file of the lines
    [file_lines] and the module-level list [module_list]. *)
Definition final_state (dateutil_parse : string -> option Z)
  (file_lines : list string) (module_list : list anomaly) : state :=
  snd (parse_body dateutil_parse (S (length file_lines))
         (initial_state file_lines module_list)).

(** ** The order of the client sections *)

(** From [s] to [s'] the reader only moved forward in the file: it is
    finished, or it read the lines [skipped] and counted them. *)
Definition advances (s s' : state) : Prop :=
  frame (st_reader s') = GenFinished
  \/ (frame (st_reader s) <> GenFinished
      /\ exists skipped,
           file (st_reader s) = skipped ++ file (st_reader s')
           /\ current_number (st_reader s')
              = current_number (st_reader s) + Z.of_nat (length skipped)).

(** The clients of [s] are still there in [s'], in their places and under
    their names, and there are no others. *)
Definition keeps_clients (s s' : state) : Prop :=
  length (clients (st_results s')) = length (clients (st_results s))
  /\ forall j c, clients (st_results s) !! j = Some c ->
                 exists c', clients (st_results s') !! j = Some c'
                            /\ name c' = name c.

(** A line that is not a client start marker. *)
Definition not_client_start (p : numbered_line) : Prop :=
  REGEXPS.client_start (snd p) = None.

(** ** Termination *)

(** The number of lines the reader has yet to deliver. *)
Definition lines_left (s : state) : nat := length (upcoming (st_reader s)).

(** The outcomes after which the stages go on reading: a return, and the
    premature exit of a client, which [process_client] catches. *)
Definition proceeds {A : Type} (o : outcome A) : Prop :=
  match o with
  | Return _ => True
  | Raise (Client_Early_Exit_Error _) => True
  | _ => False
  end.

(** ** States and documents for the examples *)

Module Examples.
Import Sample.

(** A reader on a file of two lines, before its first line is read and
    after. *)
Definition fresh : state :=
  initial_state [("first" ++ nl)%string; ("second" ++ nl)%string] [].

Definition first_read : state :=
  mk_state (mk_gen (GenYieldLine 1 ("first" ++ nl)%string) [("second" ++ nl)%string])
    [] create_results timing_unset.

(** What [parse] returns for [full_log], and the anomaly it records. *)
Definition full_log_document : results :=
  Eval vm_compute in
    match fst (parse seconds_parse full_log []) with
    | Return r => r
    | _ => create_results
    end.

Definition oops : list anomaly :=
  [(36, ("steeplechase ERROR | oops" ++ nl)%string)].

(** The state [process_log] ends in on [full_log]. *)
Definition full_log_end : state :=
  Eval vm_compute in
    snd (process_log seconds_parse (S (length full_log)) (initial_state full_log [])).

(** A client section that ends during its setup, on line 3. *)
Definition early_exit_log : list string :=
  [("steeplechase INFO | Log output for Client A:" ++ nl)%string;
   ("steeplechase ERROR | crashed" ++ nl)%string;
   ("steeplechase INFO | <<<<<<<" ++ nl)%string].

Definition early_exit_start : state := initial_state early_exit_log [].

(** The state the [try] block of [process_client] starts in there, and
    the state the setup raises the premature exit in. *)
Definition early_exit_entry : state :=
  Eval vm_compute in
    snd (modify_client 0 (set_name (Some "Client A"%string))
           (snd (reader_next
                   (snd (append_client create_client_results early_exit_start))))).

Definition early_exit_raised : state :=
  Eval vm_compute in snd (process_client_setup 4 0 early_exit_entry).

(** A stats block with a passing and a failing test, and the line after
    it; a reader about to deliver its header, in the session of a client. *)
Definition block_lines : list string :=
  stats "100" [result_line "test_pass"; result_line "test_unexpected_fail"]
  ++ [("steeplechase INFO | tail" ++ nl)%string].

Definition one_client : results :=
  set_clients [set_blocks (Some 0) create_client_results] create_results.

Definition block_start : state :=
  mk_state (line_reader block_lines) [] one_client timing_unset.

Definition block_header : numbered_line := (1, "steeplechase INFO | STATS (100):"%string).
Definition block_stats : list numbered_line := [(2, "steeplechase INFO | stats list"%string)].
Definition block_blanks : list numbered_line := [(3, "steeplechase INFO |"%string)].
Definition block_tests : list numbered_line :=
  [(4, strip (result_line "test_pass"));
   (5, strip (result_line "test_unexpected_fail"))].
Definition block_stop : numbered_line := (6, "steeplechase INFO | tail"%string).

(** The same block, its header just read by the session loop. *)
Definition block_header_read : state :=
  Eval vm_compute in snd (reader_next block_start).

(** The setup of a client about to read a failing line of another action,
    an unexpected failure and the session start marker. *)
Definition setup_start : state :=
  mk_state (line_reader (tl other_action_log)) [] one_client timing_unset.

End Examples.
(** ** Text a pattern finds *)

(** No character of [s] is a newline: [.] matches every one of them. *)
Definition no_newline (s : string) : bool :=
  string_forall (fun c => negb (is_newline c)) s.

(** The literal [p] occurs somewhere in [s]. *)
Fixpoint contains (p s : string) : bool :=
  match lit p s with
  | Some _ => true
  | None =>
      match s with
      | EmptyString => false
      | String _ r => contains p r
      end
  end.

(** [s] does not start with a digit. *)
Definition no_digit_ahead (s : string) : bool :=
  match s with
  | EmptyString => true
  | String c _ => negb (is_digit c)
  end.

(** ** The scan of a run of lines *)

(** The anomalies the reader records while it reads the raw lines [ls],
    the first of which has the number [n + 1]. *)
Fixpoint scan_lines (n : Z) (ls : list string) : list anomaly :=
  match ls with
  | [] => []
  | l :: rest => scan (n + 1) l ++ scan_lines (n + 1) rest
  end.

(** The reader is not holding a requeued line and has not finished: its
    next delivery is a new line of the file. *)
Definition reads_on (g : generator) : Prop :=
  match frame g with
  | GenCreated | GenYieldLine _ _ => True
  | GenYieldNone _ _ | GenFinished => False
  end.

(** ** A session, item by item *)

(** What the session loop meets between the session start and the end of
    the test: a line it reads and passes over, or a stats block, whose
    header it reads and whose other lines [process_stats_block] reads. *)
Inductive session_item :=
| Line (p : numbered_line)
| Block (header : numbered_line) (ts : string) (dt : Z)
    (stats blanks tests : list numbered_line).

(** The line of an item that the session loop reads itself. *)
Definition item_head (it : session_item) : numbered_line :=
  match it with
  | Line p => p
  | Block header _ _ _ _ _ => header
  end.

Definition item_lines (it : session_item) : list numbered_line :=
  match it with
  | Line p => [p]
  | Block header _ _ stats blanks tests => header :: stats ++ blanks ++ tests
  end.

Definition session_lines (items : list session_item) : list numbered_line :=
  concat (map item_lines items).

(** A block passed when none of its test lines fails. *)
Definition block_passed (tests : list numbered_line) : bool :=
  match List.filter failing tests with
  | [] => true
  | _ :: _ => false
  end.

(** The stats blocks of a session, each as its time and its verdict. *)
Definition item_outcomes (items : list session_item) : list stats_outcome :=
  concat (map (fun it => match it with
                         | Line _ => []
                         | Block _ _ dt _ _ tests => [(dt, block_passed tests)]
                         end) items).

(** The blocks of a session that hold a failing test, each with its
    timestamp and its failing test lines. *)
Definition item_failed_blocks (items : list session_item) : list block :=
  concat (map (fun it => match it with
                         | Line _ => []
                         | Block _ ts _ _ _ tests =>
                             match List.filter failing tests with
                             | [] => []
                             | x :: failed => [mk_block ts (x :: failed)]
                             end
                         end) items).

(** The line that follows an item: the head of the next, or [finish]. *)
Definition next_head (rest : list session_item) (finish : numbered_line)
  : numbered_line :=
  match rest with
  | [] => finish
  | it :: _ => item_head it
  end.

(** A line at which the session loop neither ends nor fails. *)
Definition goes_on (p : numbered_line) : Prop :=
  REGEXPS.client_end (snd p) = false /\ REGEXPS.test_finished (snd p) = false.

(** An item as the loop expects it, [next] being the line after it: a
    line that is no stats header, or a block of a header with a timestamp
    the date parser reads, a stats list, at least one blank line, test
    results, and then a line that is neither a test result nor blank. *)
Definition item_ok (dateutil_parse : string -> option Z) (it : session_item)
  (next : numbered_line) : Prop :=
  match it with
  | Line p => goes_on p /\ REGEXPS.stats_block (snd p) = None
  | Block header ts dt stats blanks tests =>
      goes_on header
      /\ REGEXPS.stats_block (snd header) = Some ts
      /\ dateutil_parse ts = Some dt
      /\ Forall not_blank stats
      /\ blanks <> []
      /\ Forall is_blank blanks
      /\ Forall is_test_result tests
      /\ REGEXPS.test_result (snd next) = None
      /\ not_blank next
  end.

Fixpoint session_ok (dateutil_parse : string -> option Z)
  (items : list session_item) (finish : numbered_line) : Prop :=
  match items with
  | [] => True
  | it :: rest =>
      item_ok dateutil_parse it (next_head rest finish)
      /\ session_ok dateutil_parse rest finish
  end.

(** The line that ends the session loop: the test finished, and the
    client has not ended. *)
Definition ends_session (finish : numbered_line) : Prop :=
  REGEXPS.client_end (snd finish) = false
  /\ REGEXPS.test_finished (snd finish) = true.

(** The dict of a client after the session loop has gone through [items]:
    a block counted for each stats block, the failing blocks filed, and
    the lines the loop read itself that match the test failure pattern
    recorded as session failures. *)
Definition session_summary (items : list session_item) (c : client_results)
  : client_results :=
  mk_client (name c)
    (match blocks c with
     | Some b => Some (b + Z.of_nat (length (item_outcomes items)))
     | None => None
     end)
    (session_runtime c) (longest_pass c) (setup_failures c) (cleanup_failures c)
    (session_failures c ++ List.filter is_test_failure (map item_head items))
    (failed_blocks c ++ item_failed_blocks items).

(** The dict of a client after [process_client_session] on a session of
    [items]: the summary of the loop, counted from no block, with what the
    [finally] clause stores. *)
Definition session_report (items : list session_item) (c : client_results)
  : client_results :=
  let times := map fst (item_outcomes items) in
  mk_client (name c)
    (Some (Z.of_nat (length (item_outcomes items))))
    (match head times, last times with
     | Some first, Some final => Some (whole_seconds (final - first))
     | _, _ => session_runtime c
     end)
    (match max_run_delta (item_outcomes items) with
     | Some delta =>
         if delta =? 0 then longest_pass c else Some (whole_seconds delta)
     | None => longest_pass c
     end)
    (setup_failures c) (cleanup_failures c)
    (session_failures c ++ List.filter is_test_failure (map item_head items))
    (failed_blocks c ++ item_failed_blocks items).

(** The results dict with the dict of client [i] replaced. *)
Definition with_client (i : nat) (c : client_results) (r : results) : results :=
  set_clients (<[i := c]> (clients r)) r.

(** What the [finally] clause of the session stores on the dict of the
    client, for the time tracking [t]. *)
Definition finally_stores (t : timing) (c : client_results) : client_results :=
  let c1 := match longest_pass_delta t with
            | Some delta =>
                if delta =? 0 then c
                else set_longest_pass (Some (whole_seconds delta)) c
            | None => c
            end in
  match last_dt t, first_dt t with
  | Some final, Some first =>
      set_session_runtime (Some (whole_seconds (final - first))) c1
  | _, _ => c1
  end.

(** ** A client section and a whole log, part by part *)

(** A line the setup of a client passes over. *)
Definition setup_passes (p : numbered_line) : Prop :=
  REGEXPS.client_end (snd p) = false /\ REGEXPS.session_start (snd p) = false.

(** The line that ends the setup: the session start marker. *)
Definition starts_session (p : numbered_line) : Prop :=
  REGEXPS.client_end (snd p) = false /\ REGEXPS.session_start (snd p) = true.

(** A line the cleanup of a client passes over: it neither ends the
    client nor opens a stats block. *)
Definition cleanup_passes (p : numbered_line) : Prop :=
  REGEXPS.client_end (snd p) = false /\ REGEXPS.stats_block (snd p) = None.

(** The section of a client in the log: the line with the client start
    marker and the name in it, the lines of the setup, the session start
    marker, the items of the session, the line that reports the end of the
    test, the lines of the cleanup and the client end marker. *)
Record client_section := mk_section {
  sec_header : numbered_line;
  sec_name : string;
  sec_setup : list numbered_line;
  sec_start : numbered_line;
  sec_items : list session_item;
  sec_finish : numbered_line;
  sec_cleanup : list numbered_line;
  sec_end : numbered_line
}.

Definition section_lines (sec : client_section) : list numbered_line :=
  sec_header sec :: sec_setup sec
  ++ sec_start sec :: session_lines (sec_items sec)
  ++ sec_finish sec :: sec_cleanup sec ++ [sec_end sec].

(** The session loop starts at the session start marker, which the setup
    has requeued: it is the first line of the session. *)
Definition section_session (sec : client_section) : list session_item :=
  Line (sec_start sec) :: sec_items sec.

Definition section_ok (dateutil_parse : string -> option Z) (sec : client_section)
  : Prop :=
  REGEXPS.client_start (snd (sec_header sec)) = Some (sec_name sec)
  /\ Forall setup_passes (sec_setup sec)
  /\ starts_session (sec_start sec)
  /\ session_ok dateutil_parse (section_session sec) (sec_finish sec)
  /\ ends_session (sec_finish sec)
  /\ Forall cleanup_passes (sec_cleanup sec)
  /\ REGEXPS.client_end (snd (sec_end sec)) = true.

(** The dict [process_client] makes of a section: the name, the report of
    the session, and the lines of the setup and of the cleanup that match
    the test failure pattern. *)
Definition client_report (sec : client_section) : client_results :=
  let c := session_report (section_session sec)
             (mk_client (Some (sec_name sec)) None None None
                (List.filter is_test_failure (sec_setup sec ++ [sec_start sec]))
                [] [] []) in
  mk_client (name c) (blocks c) (session_runtime c) (longest_pass c)
    (setup_failures c)
    (List.filter is_test_failure (sec_cleanup sec))
    (session_failures c) (failed_blocks c).

(** The document [parse] returns for a log of two client sections and the
    totals [passed] and [failed]. *)
Definition log_report (first second : client_section) (passed failed : Z)
  : results :=
  mk_results [client_report first; client_report second]
    (py2_min (session_runtime (client_report first))
       (session_runtime (client_report second)))
    (Some passed) (Some failed) ModuleAnomalies.

(** ** Invariants of the stages *)

(** From a state that satisfies [Inv], [m] leads to one that does, however
    it ends, and when it raises [e] the state then satisfies [Q e]. *)
Definition guarded (Inv : state -> Prop) (Q : exn -> state -> Prop)
  {A : Type} (m : M A) : Prop :=
  forall s, Inv s ->
            Inv (snd (m s)) /\ forall e, fst (m s) = Raise e -> Q e (snd (m s)).

(** The reader of [s] is at its place in the file [log]: the lines [pre]
    are read, and the line number of the reader is their count. *)
Definition reader_at (log pre : list string) (g : generator) : Prop :=
  log = pre ++ file g
  /\ match frame g with
     | GenCreated => pre = []
     | GenYieldLine n _ | GenYieldNone n _ => n = Z.of_nat (length pre)
     | GenFinished => file g = []
     end.

(** In a [parse] of the file [log] that found [module_list] in the
    module-level list: the reader is at its place in the file, and the
    anomalies added so far hold, in order, the scans of the lines read. *)
Definition log_inv (log : list string) (module_list : list anomaly) (s : state)
  : Prop :=
  exists pre added,
    reader_at log pre (st_reader s)
    /\ st_anomalies s = module_list ++ added
    /\ scan_lines 0 pre `sublist_of` added.

(** When the reader raises StopIteration it has finished, and the line
    number it carries, if any, is the number of lines of [log]. *)
Definition stops_at_end (log : list string) (e : exn) (s : state) : Prop :=
  match e with
  | StopIteration args =>
      frame (st_reader s) = GenFinished
      /\ forall n, args = Some n -> n = Z.of_nat (length log)
  | _ => True
  end.

(** ** The exceptions that escape *)

(** The generator was started: a line can be requeued. *)
Definition started (s : state) : Prop := frame (st_reader s) <> GenCreated.

(** The session of client [i] counts its blocks: the block count of the
    client is a number. *)
Definition counts_blocks (i : nat) (s : state) : Prop :=
  started s
  /\ forall c, clients (st_results s) !! i = Some c -> blocks c <> None.

Definition no_type_error (e : exn) (s : state) : Prop := e <> TypeError.

(** What a stage of the log lets out: neither a TypeError nor the
    premature exit of a client. *)
Definition escapes_stage (e : exn) (s : state) : Prop :=
  e <> TypeError /\ not_early_exit e.

(** The exceptions [parse] can end with. *)
Definition parse_error (e : exn) : Prop :=
  e = IndexError \/ e = AttributeError \/ e = ValueError.

(** ** The end of the session loop *)

(** A line at which the session loop ends: the client end marker, or the
    report that the test finished. *)
Definition ends_loop (p : numbered_line) : Prop :=
  REGEXPS.client_end (snd p) = true \/ REGEXPS.test_finished (snd p) = true.

(** How the loop ends there: the client end marker is a premature exit. *)
Definition loop_outcome (p : numbered_line) : outcome unit :=
  if REGEXPS.client_end (snd p)
  then Raise (Client_Early_Exit_Error (fst p))
  else Return tt.

(** ** More states and logs for the examples *)

Module Cases.
Import Sample Examples.

(** The line with the number [k] of the file [ls]. *)
Definition line_at (ls : list string) (k : nat) : numbered_line :=
  nth (k - 1) (number_lines 0 ls) (0, EmptyString).

(** The lines with the numbers [k] to [k + n - 1] of the file [ls]. *)
Definition lines_at (ls : list string) (k n : nat) : list numbered_line :=
  firstn n (skipn (k - 1) (number_lines 0 ls)).

(** A stats block of the file [ls] whose header is line [k], with one
    line of stats list, one blank line and [n] test results. *)
Definition block_at (ls : list string) (k : nat) (ts : string) (dt : Z) (n : nat)
  : session_item :=
  Block (line_at ls k) ts dt (lines_at ls (k + 1) 1) (lines_at ls (k + 2) 1)
    (lines_at ls (k + 3) n).

(** A client start marker whose name holds a colon. *)
Definition marker_line : string :=
  "steeplechase INFO | Log output for Client A (10.0.0.1:5555):".

Definition header_line : string :=
  "steeplechase INFO | STATS (2014-05-01 12:00:00):".

(** A reader at the end of a file of two lines. *)
Definition at_end : state :=
  mk_state (mk_gen (GenYieldLine 2 ("second" ++ nl)%string) []) []
    create_results timing_unset.

(** The sections of the two clients of [full_log]. *)
Definition section_A : client_section :=
  Eval vm_compute in
    mk_section (line_at full_log 2) "Client A" (lines_at full_log 3 1)
      (line_at full_log 4)
      [block_at full_log 5 "100" 100000000 1;
       block_at full_log 9 "160" 160000000 2;
       block_at full_log 14 "220" 220000000 1;
       block_at full_log 18 "280" 280000000 1;
       Line (line_at full_log 22)]
      (line_at full_log 23) [] (line_at full_log 24).

Definition section_B : client_section :=
  Eval vm_compute in
    mk_section (line_at full_log 25) "Client B" (lines_at full_log 26 1)
      (line_at full_log 27)
      [block_at full_log 28 "100" 100000000 1;
       block_at full_log 32 "130" 130000000 1;
       Line (line_at full_log 36)]
      (line_at full_log 37) [] (line_at full_log 38).

(** The session of the first client of [full_log], read on its own. *)
Definition session_file : list string :=
  firstn 19 (skipn 4 full_log).

Definition session_state : state :=
  mk_state (line_reader session_file) [] one_client timing_unset.

Definition session_items : list session_item :=
  Eval vm_compute in
    [block_at session_file 1 "100" 100000000 1;
     block_at session_file 5 "160" 160000000 2;
     block_at session_file 10 "220" 220000000 1;
     block_at session_file 14 "280" 280000000 1;
     Line (line_at session_file 18)].

Definition session_finish : numbered_line :=
  Eval vm_compute in line_at session_file 19.

(** A session that the client end marker cuts short after one block. *)
Definition short_file : list string :=
  stats "100" [result_line "test_unexpected_fail"]
  ++ [("steeplechase INFO | <<<<<<<" ++ nl)%string].

Definition short_state : state :=
  mk_state (line_reader short_file) [] one_client timing_unset.

Definition short_items : list session_item :=
  Eval vm_compute in [block_at short_file 1 "100" 100000000 1].

Definition short_end : numbered_line := Eval vm_compute in line_at short_file 5.

(** The section of the first client of [full_log], read on its own. *)
Definition section_file : list string := firstn 23 (skipn 1 full_log).

Definition section_alone : client_section :=
  Eval vm_compute in
    mk_section (line_at section_file 1) "Client A" (lines_at section_file 2 1)
      (line_at section_file 3)
      [block_at section_file 4 "100" 100000000 1;
       block_at section_file 8 "160" 160000000 2;
       block_at section_file 13 "220" 220000000 1;
       block_at section_file 17 "280" 280000000 1;
       Line (line_at section_file 21)]
      (line_at section_file 22) [] (line_at section_file 23).

(** The end of a log: the totals and a late harness error. *)
Definition totals_file : list string :=
  totals ++ [("steeplechase ERROR | late" ++ nl)%string].

(** A log of two client sections that ends before the totals. *)
Definition no_totals_log : list string :=
  client "Client A" [] ++ client "Client B" [].

(** A stats block with no blank line, and the end of the client. *)
Definition no_blank_file : list string :=
  [("steeplechase INFO | STATS (100):" ++ nl)%string;
   ("steeplechase INFO | stats list" ++ nl)%string;
   result_line "test_pass";
   ("steeplechase INFO | <<<<<<<" ++ nl)%string].

End Cases.

(** ** The anomaly list as a frame *)

(** Two states that differ only in that the anomaly list of the first
    starts with [m] where that of the second starts empty-handed. *)
Definition shifted (m : list anomaly) (s1 s2 : state) : Prop :=
  st_reader s1 = st_reader s2
  /\ st_results s1 = st_results s2
  /\ st_timing s1 = st_timing s2
  /\ st_anomalies s1 = m ++ st_anomalies s2.

(** [x] never reads the anomaly list: run in two such states it ends in
    the same way, in two such states. *)
Definition framed {A : Type} (x : M A) : Prop :=
  forall m s1 s2,
    shifted m s1 s2 ->
    fst (x s1) = fst (x s2) /\ shifted m (snd (x s1)) (snd (x s2)).
(** Reduce the elementary updates and the projections of explicit states. *)
Ltac state_simpl :=
  cbn [modify_client modify_results put_timing log_anomaly get_timing
       get_results get_reader ret raise out_of_fuel
       st_reader st_anomalies st_results st_timing fst snd] in *;
  cbn iota in *.

Section ReaderFacts.

Lemma check_for_anomalies_eq number line s :
  check_for_anomalies number line s =
  (Return tt, mk_state (st_reader s) (st_anomalies s ++ scan number line)
                (st_results s) (st_timing s)).
Proof.
  unfold check_for_anomalies, scan, log_anomaly, ret.
  destruct (REGEXPS.sc_error line); [reflexivity|].
  rewrite app_nil_r. destruct s; reflexivity.
Qed.

Lemma advance_new number line rest fr s :
  st_reader s = mk_gen fr (line :: rest) ->
  advance number s =
  (Return (Some (number + 1, strip line)),
   mk_state (mk_gen (GenYieldLine (number + 1) line) rest)
     (st_anomalies s ++ scan (number + 1) line) (st_results s) (st_timing s)).
Proof.
  intros Hr. unfold advance, bind, get_reader. rewrite Hr. cbn [file].
  rewrite check_for_anomalies_eq. reflexivity.
Qed.

Lemma advance_eof number fr s :
  st_reader s = mk_gen fr [] ->
  advance number s =
  (Raise (StopIteration (Some number)),
   mk_state (mk_gen GenFinished []) (st_anomalies s) (st_results s) (st_timing s)).
Proof.
  intros Hr. unfold advance, bind, get_reader. rewrite Hr. reflexivity.
Qed.

(** A replay: the pending line is delivered again and nothing else
    changes. *)
Lemma reader_next_replay n line rest s :
  st_reader s = mk_gen (GenYieldNone n line) rest ->
  reader_next s =
  (Return (n, strip line),
   mk_state (mk_gen (GenYieldLine n line) rest)
     (st_anomalies s) (st_results s) (st_timing s)).
Proof.
  intros Hr. unfold reader_next, resume, bind, get_reader. rewrite Hr.
  reflexivity.
Qed.

(** A new line: it is read, numbered, scanned and delivered. *)
Lemma reader_next_new fr line rest s :
  st_reader s = mk_gen fr (line :: rest) ->
  (forall n l, fr <> GenYieldNone n l) -> fr <> GenFinished ->
  reader_next s =
  (Return (current_number (st_reader s) + 1, strip line),
   mk_state (mk_gen (GenYieldLine (current_number (st_reader s) + 1) line) rest)
     (st_anomalies s ++ scan (current_number (st_reader s) + 1) line)
     (st_results s) (st_timing s)).
Proof.
  intros Hr Hn Hf. unfold reader_next, resume, bind at 1 2, get_reader.
  rewrite Hr. unfold current_number. cbn [frame].
  destruct fr as [|n l|n l|]; try congruence.
  - rewrite (advance_new 0 line rest GenCreated s Hr). reflexivity.
  - rewrite (advance_new n line rest _ s Hr). reflexivity.
Qed.

(** The end of the file: StopIteration carries the last line number. *)
Lemma reader_next_eof fr s :
  st_reader s = mk_gen fr [] ->
  (forall n l, fr <> GenYieldNone n l) -> fr <> GenFinished ->
  reader_next s =
  (Raise (StopIteration (Some (current_number (st_reader s)))),
   mk_state (mk_gen GenFinished []) (st_anomalies s) (st_results s) (st_timing s)).
Proof.
  intros Hr Hn Hf. unfold reader_next, resume, bind at 1 2, get_reader.
  rewrite Hr. unfold current_number. cbn [frame].
  destruct fr as [|n l|n l|]; try congruence.
  - rewrite (advance_eof 0 GenCreated s Hr). reflexivity.
  - rewrite (advance_eof n _ s Hr). reflexivity.
Qed.

(** A finished generator raises StopIteration with no argument. *)
Lemma reader_next_finished rest s :
  st_reader s = mk_gen GenFinished rest ->
  reader_next s = (Raise (StopIteration None), s).
Proof.
  intros Hr. unfold reader_next, resume, bind, get_reader. rewrite Hr.
  reflexivity.
Qed.

Lemma reader_next_spec s : next_spec s (reader_next s).
Proof.
  destruct s as [[fr fl] an rs tm].
  destruct fr as [|n l|n l|].
  - destruct fl as [|line rest].
    + erewrite reader_next_eof; [|reflexivity|congruence|congruence].
      apply next_stops; reflexivity.
    + erewrite reader_next_new; [|reflexivity|congruence|congruence].
      apply next_delivers; [reflexivity|]. right. auto.
  - destruct fl as [|line rest].
    + erewrite reader_next_eof; [|reflexivity|congruence|congruence].
      apply next_stops; reflexivity.
    + erewrite reader_next_new; [|reflexivity|congruence|congruence].
      apply next_delivers; [reflexivity|]. right. auto.
  - erewrite reader_next_replay; [|reflexivity].
    cbn [st_anomalies st_results st_timing].
    rewrite <- (app_nil_r an) at 2.
    apply (next_delivers (mk_state (mk_gen (GenYieldNone n l) fl) an rs tm) n l fl []);
      [reflexivity|]. left. split; reflexivity.
  - erewrite reader_next_finished; [|reflexivity].
    apply (next_stops (mk_state (mk_gen GenFinished fl) an rs tm) None
             (mk_gen GenFinished fl)); reflexivity.
Qed.

Lemma requeue_line_spec n line rest an rs tm :
  requeue_line (mk_state (mk_gen (GenYieldLine n line) rest) an rs tm) =
  (Return tt, mk_state (mk_gen (GenYieldNone n line) rest) an rs tm).
Proof. reflexivity. Qed.

(** C9: a line that [next()] delivered is delivered again, with the same
    number and text, by the [next()] that follows [requeue_line], and
    that replay leaves the reader exactly as the first delivery left it:
    no number advances, no line of the file is read, nothing is scanned
    twice.  Numbers start at 1 and grow by one with each line read from
    the file, and only then. *)
Theorem requeue_replays_same_line s n text s1 :
  reader_next s = (Return (n, text), s1) ->
  (exists s2, requeue_line s1 = (Return tt, s2)
              /\ reader_next s2 = (Return (n, text), s1))
  /\ current_number (st_reader s1) = n
  /\ (frame (st_reader s) = GenCreated -> n = 1)
  /\ ((current_number (st_reader s) = n
       /\ file (st_reader s1) = file (st_reader s)
       /\ st_anomalies s1 = st_anomalies s)
      \/ (current_number (st_reader s) + 1 = n
          /\ exists raw, file (st_reader s) = raw :: file (st_reader s1)
                         /\ text = strip raw)).
Proof.
  intros E. pose proof (reader_next_spec s) as H. rewrite E in H.
  inversion H as [n' line rest added HU Hadd Hp|]; subst.
  split; [|split; [reflexivity|split]].
  - eexists. split; [apply requeue_line_spec|].
    erewrite reader_next_replay; reflexivity.
  - intros Hc. destruct Hadd as [[_ Hr]|(_ & Hn & _)].
    + rewrite Hr in Hc. discriminate.
    + rewrite Hn. unfold current_number. rewrite Hc. reflexivity.
  - destruct Hadd as [[Ha Hr]|(Ha & Hn & Hf)].
    + left. rewrite Hr, Ha, app_nil_r. auto.
    + right. split; [symmetry; exact Hn|]. exists line. auto.
Qed.

End ReaderFacts.

(** ** Preservation, stage by stage

    For a reflexive and transitive relation [R] on states, each stage
    preserves [R] as soon as the elementary updates it makes do.  The
    hypotheses name those updates one by one, so that each lemma asks only
    for the updates its stage can make. *)


Section Preservation.

Variable R : state -> state -> Prop.
Hypothesis R_refl : forall s, R s s.
Hypothesis R_trans : forall a b c, R a b -> R b c -> R a c.

Lemma pres_ret {A} (a : A) : pres R (ret a).
Proof. intros s. apply R_refl. Qed.

Lemma pres_raise {A} e : pres R (@raise A e).
Proof. intros s. apply R_refl. Qed.

Lemma pres_out_of_fuel {A} : pres R (@out_of_fuel A).
Proof. intros s. apply R_refl. Qed.

Lemma pres_bind {A B} (m : M A) (f : A -> M B) :
  pres R m -> (forall a, pres R (f a)) -> pres R (bind m f).
Proof.
  intros Hm Hf s. unfold bind. specialize (Hm s).
  destruct (m s) as [[a|e|] s1]; cbn in *; auto.
  eapply R_trans; [exact Hm|apply Hf].
Qed.

Lemma pres_try_except {A} (m : M A) h :
  pres R m -> (forall e k, h e = Some k -> pres R k) -> pres R (try_except m h).
Proof.
  intros Hm Hh s. unfold try_except. specialize (Hm s).
  destruct (m s) as [[a|e|] s1]; cbn in *; auto.
  destruct (h e) as [k|] eqn:E; cbn; auto.
  eapply R_trans; [exact Hm|eapply Hh; eauto].
Qed.

Lemma pres_try_finally {A} (m : M A) fin :
  pres R m -> pres R fin -> pres R (try_finally m fin).
Proof.
  intros Hm Hf s. unfold try_finally. specialize (Hm s).
  destruct (m s) as [[a|e|] s1]; cbn in *; auto;
    specialize (Hf s1); destruct (fin s1) as [[[]|e'|] s2]; cbn in *;
    eapply R_trans; eauto.
Qed.

Lemma pres_get_results : pres R get_results.
Proof. intros s. apply R_refl. Qed.

Lemma pres_get_timing : pres R get_timing.
Proof. intros s. apply R_refl. Qed.

Lemma pres_get_client i : pres R (get_client i).
Proof.
  intros s. unfold get_client.
  destruct (clients (st_results s) !! i); apply R_refl.
Qed.

Lemma pres_int_group m : pres R (int_group m).
Proof.
  unfold int_group. destruct m as [g|]; [|apply pres_raise].
  destruct (int_of_string g); [apply pres_ret|apply pres_raise].
Qed.

Ltac pres_auto :=
  repeat first
    [ apply pres_ret | apply pres_raise | apply pres_out_of_fuel
    | apply pres_get_results | apply pres_get_timing | apply pres_get_client
    | apply pres_int_group
    | assumption
    | match goal with
      | H : forall _, pres R _ |- _ => apply H
      | H : forall _ _, pres R _ |- _ => apply H
      | H : forall _ _ _, pres R _ |- _ => apply H
      | H : forall _ _ _ _, pres R _ |- _ => apply H
      end
    | match goal with
      | |- pres _ (bind _ _) => apply pres_bind; [|intros]
      | |- pres _ (try_finally _ _) => apply pres_try_finally
      | |- pres _ (match ?x with _ => _ end) => destruct x
      | |- pres _ (if ?x then _ else _) => destruct x
      end ].

(** The reader. *)
Hypothesis H_next : pres R reader_next.
Hypothesis H_requeue : pres R requeue_line.

Lemma pres_for_next : pres R for_next.
Proof.
  unfold for_next. apply pres_try_except; [pres_auto|].
  intros e k. destruct e; intros [= <-]. apply pres_ret.
Qed.

Lemma pres_process_steeplechase_setup fuel :
  pres R (process_steeplechase_setup fuel).
Proof.
  induction fuel as [|fuel IH]; cbn [process_steeplechase_setup];
    pose proof pres_for_next; pres_auto.
Qed.

Lemma pres_drain fuel : pres R (drain fuel).
Proof.
  induction fuel as [|fuel IH]; cbn [drain];
    pose proof pres_for_next; pres_auto.
Qed.

Lemma pres_stats_list_loop fuel in_blank : pres R (stats_list_loop fuel in_blank).
Proof.
  revert in_blank.
  induction fuel as [|fuel IH]; intros in_blank; cbn [stats_list_loop]; pres_auto.
Qed.

Lemma pres_test_results_loop fuel failed : pres R (test_results_loop fuel failed).
Proof.
  revert failed.
  induction fuel as [|fuel IH]; intros failed; cbn [test_results_loop]; pres_auto.
Qed.

(** A stats block that is only scanned. *)
Lemma pres_process_stats_block_scan fuel i :
  pres R (process_stats_block fuel i true).
Proof.
  unfold process_stats_block.
  pose proof pres_stats_list_loop. pose proof pres_test_results_loop.
  pres_auto.
Qed.

(** The setup of a client. *)
Hypothesis H_setup_failure :
  forall i x, pres R (modify_client i (append_setup_failure x)).

Lemma pres_process_client_setup fuel i : pres R (process_client_setup fuel i).
Proof.
  induction fuel as [|fuel IH]; cbn [process_client_setup]; pres_auto.
Qed.

(** The session of a client. *)
Hypothesis H_failed_block :
  forall i ts x failed,
    pres R (modify_client i (append_failed_block (mk_block ts (x :: failed)))).
Hypothesis H_blocks : forall i v, pres R (modify_client i (set_blocks v)).
Hypothesis H_session_failure :
  forall i x, pres R (modify_client i (append_session_failure x)).
Hypothesis H_timing : forall t, pres R (put_timing t).
Hypothesis H_longest_pass : forall i v, pres R (modify_client i (set_longest_pass v)).
Hypothesis H_session_runtime :
  forall i v, pres R (modify_client i (set_session_runtime v)).

Lemma pres_process_stats_block fuel i just_scan :
  pres R (process_stats_block fuel i just_scan).
Proof.
  unfold process_stats_block.
  pose proof pres_stats_list_loop. pose proof pres_test_results_loop.
  pres_auto.
Qed.

Variable dateutil_parse : string -> option Z.

Lemma pres_session_stats_block fuel i :
  pres R (session_stats_block dateutil_parse fuel i).
Proof.
  unfold session_stats_block. pose proof pres_process_stats_block. pres_auto.
Qed.

Lemma pres_session_loop fuel i : pres R (session_loop dateutil_parse fuel i).
Proof.
  induction fuel as [|fuel IH]; cbn [session_loop];
    pose proof pres_session_stats_block; pres_auto.
Qed.

Lemma pres_session_finally i : pres R (session_finally i).
Proof. unfold session_finally. pres_auto. Qed.

Lemma pres_process_client_session fuel i :
  pres R (process_client_session dateutil_parse fuel i).
Proof.
  unfold process_client_session.
  pose proof pres_session_loop. pose proof pres_session_finally. pres_auto.
Qed.

(** The cleanup of a client. *)
Hypothesis H_log : forall number line, pres R (log_anomaly number line).
Hypothesis H_cleanup_failure :
  forall i x, pres R (modify_client i (append_cleanup_failure x)).

Lemma pres_cleanup_stats_block fuel i number :
  pres R (cleanup_stats_block fuel i number).
Proof.
  unfold cleanup_stats_block. pose proof pres_process_stats_block_scan. pres_auto.
Qed.

Lemma pres_process_client_cleanup fuel i : pres R (process_client_cleanup fuel i).
Proof.
  induction fuel as [|fuel IH]; cbn [process_client_cleanup];
    pose proof pres_cleanup_stats_block; pres_auto.
Qed.

Lemma pres_client_phases fuel i : pres R (client_phases dateutil_parse fuel i).
Proof.
  unfold client_phases.
  pose proof pres_process_client_setup. pose proof pres_process_client_session.
  pose proof pres_process_client_cleanup. pres_auto.
Qed.

(** A whole client section, the harness stages and the log. *)
Hypothesis H_append_client : pres R (append_client create_client_results).
Hypothesis H_name : forall i v, pres R (modify_client i (set_name v)).

Lemma pres_process_client fuel : pres R (process_client dateutil_parse fuel).
Proof.
  unfold process_client. pose proof pres_client_phases. pres_auto.
  apply pres_try_except; [pres_auto|].
  intros e k. destruct e; intros [= <-]. apply H_log.
Qed.

Hypothesis H_total_passed : forall v, pres R (modify_results (set_total_passed v)).
Hypothesis H_total_failed : forall v, pres R (modify_results (set_total_failed v)).

Lemma pres_process_steeplechase_cleanup fuel :
  pres R (process_steeplechase_cleanup fuel).
Proof.
  unfold process_steeplechase_cleanup. pose proof pres_drain. pres_auto.
Qed.

Lemma pres_process_log fuel : pres R (process_log dateutil_parse fuel).
Proof.
  unfold process_log.
  pose proof pres_process_steeplechase_setup. pose proof pres_process_client.
  pose proof pres_process_steeplechase_cleanup. pres_auto.
Qed.

Hypothesis H_results_session_runtime :
  forall v, pres R (modify_results (set_results_session_runtime v)).
Hypothesis H_anomalies : forall v, pres R (modify_results (set_anomalies v)).

Lemma pres_client_session_runtime k : pres R (client_session_runtime k).
Proof. unfold client_session_runtime. pres_auto. Qed.

Lemma pres_parse_body fuel : pres R (parse_body dateutil_parse fuel).
Proof.
  unfold parse_body. pose proof pres_client_session_runtime. pres_auto.
  apply pres_try_except; [apply pres_process_log|].
  intros e k. destruct e; intros [= <-]. destruct args; pres_auto.
Qed.

End Preservation.

(** ** What the elementary steps change *)

Section Steps.

Lemma bind_Return_inv {A B} (m : M A) (f : A -> M B) s b s' :
  bind m f s = (Return b, s') ->
  exists a s1, m s = (Return a, s1) /\ f a s1 = (Return b, s').
Proof.
  unfold bind. destruct (m s) as [[a|e|] s1]; intros H; try discriminate.
  eauto.
Qed.

Lemma bind_Raise_inv {A B} (m : M A) (f : A -> M B) s e s' :
  bind m f s = (Raise e, s') ->
  m s = (Raise e, s')
  \/ exists a s1, m s = (Return a, s1) /\ f a s1 = (Raise e, s').
Proof.
  unfold bind. destruct (m s) as [[a|e0|] s1]; intros H; try discriminate.
  - right. eauto.
  - left. injection H as -> ->. reflexivity.
Qed.

Lemma reader_next_changes s :
  exists g added,
    snd (reader_next s)
    = mk_state g (st_anomalies s ++ added) (st_results s) (st_timing s)
    /\ Forall (fun a => REGEXPS.sc_error (snd a) = true) added.
Proof.
  destruct (reader_next_spec s) as [n line rest added HU Hadd|args g HU Hg].
  - exists (mk_gen (GenYieldLine n line) rest), added. split; [reflexivity|].
    destruct Hadd as [[-> _]|(-> & _ & _)]; [constructor|].
    unfold scan. destruct (REGEXPS.sc_error line) eqn:E; repeat constructor.
    exact E.
  - exists g, []. rewrite app_nil_r. split; [reflexivity|constructor].
Qed.

Lemma requeue_line_changes s :
  exists g,
    snd (requeue_line s)
    = mk_state g (st_anomalies s) (st_results s) (st_timing s).
Proof.
  unfold requeue_line, resume, bind, get_reader, put_reader, ret, raise.
  destruct s as [[fr fl] an rs tm]. cbn.
  destruct fr; cbn; eauto.
Qed.

End Steps.

(** ** The anomaly log only grows *)

Section AnomalyLog.

Lemma log_grows_refl s : log_grows s s.
Proof. unfold log_grows. reflexivity. Qed.

Lemma log_grows_trans a b c : log_grows a b -> log_grows b c -> log_grows a c.
Proof. unfold log_grows. intros H1 H2. etransitivity; eauto. Qed.

Lemma log_grows_next : pres log_grows reader_next.
Proof.
  intros s. destruct (reader_next_changes s) as (g & added & -> & _).
  unfold log_grows. cbn. apply prefix_app_r. reflexivity.
Qed.

Lemma log_grows_requeue : pres log_grows requeue_line.
Proof.
  intros s. destruct (requeue_line_changes s) as (g & ->).
  unfold log_grows. reflexivity.
Qed.

Lemma log_grows_log number line : pres log_grows (log_anomaly number line).
Proof. intros s. unfold log_grows. cbn. apply prefix_app_r. reflexivity. Qed.

Lemma log_grows_results f : pres log_grows (modify_results f).
Proof. intros s. unfold log_grows. reflexivity. Qed.

Lemma log_grows_client i f : pres log_grows (modify_client i f).
Proof. intros s. unfold log_grows. reflexivity. Qed.

Lemma log_grows_timing t : pres log_grows (put_timing t).
Proof. intros s. unfold log_grows. reflexivity. Qed.

Lemma log_grows_append c : pres log_grows (append_client c).
Proof. intros s. unfold log_grows. reflexivity. Qed.

Lemma log_grows_parse_body d fuel : pres log_grows (parse_body d fuel).
Proof.
  apply pres_parse_body;
    auto using log_grows_refl, log_grows_next, log_grows_requeue,
      log_grows_log, log_grows_results, log_grows_client, log_grows_timing,
      log_grows_append.
  apply log_grows_trans.
Qed.

End AnomalyLog.

(** ** What [parse] returns *)

Section ParseReturn.

Variable dateutil_parse : string -> option Z.

Lemma client_session_runtime_Return k v s s' :
  client_session_runtime k s = (Return v, s') ->
  s' = s /\ exists c, clients (st_results s) !! k = Some c /\ v = session_runtime c.
Proof.
  unfold client_session_runtime, bind, get_results, ret, raise.
  destruct (clients (st_results s) !! k) as [c|]; intros [= <- <-].
  split; [reflexivity|]. exists c. auto.
Qed.

(** A returned document is the results dict of the final state; its
    ['anomalies'] key refers to the module-level list, its clients number
    at least two and its session runtime is the smaller of the first two
    clients' runtimes. *)
Lemma parse_body_Return fuel s r s' :
  parse_body dateutil_parse fuel s = (Return r, s') ->
  r = st_results s'
  /\ anomalies r = ModuleAnomalies
  /\ exists c0 c1,
       clients r !! 0%nat = Some c0 /\ clients r !! 1%nat = Some c1
       /\ results_session_runtime r
          = py2_min (session_runtime c0) (session_runtime c1).
Proof.
  unfold parse_body. intros H.
  apply bind_Return_inv in H as ([] & s1 & _ & H).
  apply bind_Return_inv in H as (v0 & s2 & H0 & H).
  apply client_session_runtime_Return in H0 as (-> & c0 & Hc0 & ->).
  apply bind_Return_inv in H as (v1 & s2 & H1 & H).
  apply client_session_runtime_Return in H1 as (-> & c1 & Hc1 & ->).
  cbn in H. injection H as <- <-. cbn.
  split; [reflexivity|]. split; [reflexivity|].
  exists c0, c1. auto.
Qed.

(** C10: [parse] never clears the module-level anomaly list.  Of two
    successive calls that return, the second finds the list as the first
    left it and only appends to it; both returned documents refer to that
    one list object, so that after the second call each of them shows,
    under ['anomalies'], the anomalies of both calls (after those the
    list held before). *)
Theorem anomalies_accumulate_across_calls file1 file2 m0 r1 m1 r2 m2 :
  parse dateutil_parse file1 m0 = (Return r1, m1) ->
  parse dateutil_parse file2 m1 = (Return r2, m2) ->
  anomalies r1 = ModuleAnomalies
  /\ anomalies r2 = ModuleAnomalies
  /\ exists recorded1 recorded2,
       m1 = m0 ++ recorded1
       /\ m2 = m0 ++ recorded1 ++ recorded2
       /\ deref m2 (anomalies r2) = m0 ++ recorded1 ++ recorded2
       /\ deref m2 (anomalies r1) = deref m2 (anomalies r2).
Proof.
  unfold parse, parse_fuel. intros H1 H2.
  pose proof (log_grows_parse_body dateutil_parse (S (length file1))
                (initial_state file1 m0)) as G1.
  pose proof (log_grows_parse_body dateutil_parse (S (length file2))
                (initial_state file2 m1)) as G2.
  destruct (parse_body dateutil_parse (S (length file1)) (initial_state file1 m0))
    as [o1 s1] eqn:E1.
  destruct (parse_body dateutil_parse (S (length file2)) (initial_state file2 m1))
    as [o2 s2] eqn:E2.
  injection H1 as -> <-. injection H2 as -> <-.
  apply parse_body_Return in E1 as (_ & A1 & _).
  apply parse_body_Return in E2 as (_ & A2 & _).
  unfold log_grows in G1, G2. cbn in G1, G2.
  destruct G1 as [rec1 G1]. destruct G2 as [rec2 G2].
  rewrite A1, A2. split; [reflexivity|]. split; [reflexivity|].
  exists rec1, rec2. cbn. rewrite G2, G1, <- app_assoc. auto.
Qed.

End ParseReturn.

(** ** The end of the input *)

Section EndOfInput.

Variable dateutil_parse : string -> option Z.

(** When the stages run into the end of the input after both client
    dicts were appended, [parse] records the anomaly at the last line
    number and returns the document assembled so far. *)
Lemma parse_body_recovers_from_eof fuel s number s1 c0 c1 others :
  process_log dateutil_parse fuel s = (Raise (StopIteration (Some number)), s1) ->
  clients (st_results s1) = c0 :: c1 :: others ->
  exists r,
    parse_body dateutil_parse fuel s
    = (Return r,
       mk_state (st_reader s1)
         (st_anomalies s1 ++ [(number, "Reached unexpected EOF"%string)])
         r (st_timing s1))
    /\ clients r = c0 :: c1 :: others
    /\ results_session_runtime r
       = py2_min (session_runtime c0) (session_runtime c1)
    /\ total_passed r = total_passed (st_results s1)
    /\ total_failed r = total_failed (st_results s1).
Proof.
  intros E Hc. unfold parse_body. unfold bind at 1, try_except. rewrite E.
  cbn [log_anomaly]. cbn iota.
  unfold bind at 1, client_session_runtime at 1, bind at 1, get_results.
  cbn [st_results]. rewrite Hc. cbn [lookup list_lookup ret]. cbn iota.
  unfold bind at 1, client_session_runtime at 1, bind at 1, get_results.
  cbn [st_results]. rewrite Hc. cbn.
  eexists. split; [reflexivity|]. cbn. rewrite Hc. auto.
Qed.

(** C1 (the defect): cut off right after the session start marker of the
    first client, the log makes [parse] record the end of the input as an
    anomaly at line 4, the last line, and then fail with IndexError, for
    want of a second client; with no client section at all, [parse] fails
    with IndexError before it records anything.  Neither call returns a
    document. *)
Theorem truncated_log_raises_IndexError :
  parse dateutil_parse Sample.truncated_log []
  = (Raise IndexError, [(4, "Reached unexpected EOF"%string)])
  /\ parse dateutil_parse Sample.headless_log [] = (Raise IndexError, []).
Proof. split; vm_compute; reflexivity. Qed.

End EndOfInput.

(** ** Exceptions of the stages *)

Arguments reader_next : simpl never.
Arguments requeue_line : simpl never.

(** Case analysis on the [next()] call at state [s]. *)
Ltac next_cases s :=
  let H := fresh "Hnext" in
  let o := fresh "o" in
  let s1 := fresh "s" in
  pose proof (reader_next_spec s) as H;
  destruct (reader_next s) as [o s1];
  inversion H as [?n ?line ?rest ?added ?HU ?Hadd|?args ?g ?HU ?Hg];
  subst o s1; clear H.

Section Raises.

Variable P : exn -> Prop.

Lemma raises_only_ret {A} (a : A) : raises_only P (ret a).
Proof. intros s e s' H. discriminate. Qed.

Lemma raises_only_out_of_fuel {A} : raises_only P (@out_of_fuel A).
Proof. intros s e s' H. discriminate. Qed.

Lemma raises_only_raise {A} e : P e -> raises_only P (@raise A e).
Proof. intros He s e' s' [= <- _]. exact He. Qed.

Lemma raises_only_bind {A B} (m : M A) (f : A -> M B) :
  raises_only P m -> (forall a, raises_only P (f a)) -> raises_only P (bind m f).
Proof.
  intros Hm Hf s e s' H. apply bind_Raise_inv in H as [H|(a & s1 & _ & H)].
  - eapply Hm; eauto.
  - eapply Hf; eauto.
Qed.

Lemma raises_only_modify_client i f : raises_only P (modify_client i f).
Proof. intros s e s' H. discriminate. Qed.

Lemma raises_only_log number line : raises_only P (log_anomaly number line).
Proof. intros s e s' H. discriminate. Qed.

Hypothesis P_stop : forall args, P (StopIteration args).
Hypothesis P_type : P TypeError.

Lemma raises_only_next : raises_only P reader_next.
Proof.
  intros s e s' H. next_cases s; try discriminate.
  injection H as <- _. apply P_stop.
Qed.

Lemma raises_only_requeue : raises_only P requeue_line.
Proof.
  intros s e s'. unfold requeue_line, resume, bind, get_reader, put_reader, ret, raise.
  destruct (frame (st_reader s)); cbn; intros H; try discriminate;
    injection H as <- _; auto.
Qed.

Hypothesis P_index : P IndexError.

Lemma raises_only_get_client i : raises_only P (get_client i).
Proof.
  intros s e s'. unfold get_client.
  destruct (clients (st_results s) !! i); intros H; try discriminate.
  injection H as <- _. exact P_index.
Qed.

Ltac raises_auto :=
  repeat first
    [ apply raises_only_ret | apply raises_only_out_of_fuel
    | apply raises_only_next | apply raises_only_requeue
    | apply raises_only_modify_client | apply raises_only_log
    | apply raises_only_get_client
    | apply raises_only_raise; assumption
    | assumption
    | match goal with
      | H : forall _, raises_only P _ |- _ => apply H
      | H : forall _ _, raises_only P _ |- _ => apply H
      | H : forall _ _ _, raises_only P _ |- _ => apply H
      end
    | match goal with
      | |- raises_only _ (bind _ _) => apply raises_only_bind; [|intros]
      | |- raises_only _ (match ?x with _ => _ end) => destruct x
      | |- raises_only _ (if ?x then _ else _) => destruct x
      end ].

Hypothesis P_attribute : P AttributeError.

Lemma raises_only_stats_list_loop fuel in_blank :
  raises_only P (stats_list_loop fuel in_blank).
Proof.
  revert in_blank.
  induction fuel as [|fuel IH]; intros in_blank; cbn [stats_list_loop]; raises_auto.
Qed.

Lemma raises_only_test_results_loop fuel failed :
  raises_only P (test_results_loop fuel failed).
Proof.
  revert failed.
  induction fuel as [|fuel IH]; intros failed; cbn [test_results_loop]; raises_auto.
Qed.

Lemma raises_only_process_stats_block fuel i just_scan :
  raises_only P (process_stats_block fuel i just_scan).
Proof.
  unfold process_stats_block.
  pose proof raises_only_stats_list_loop. pose proof raises_only_test_results_loop.
  raises_auto.
Qed.

Lemma raises_only_cleanup_stats_block fuel i number :
  raises_only P (cleanup_stats_block fuel i number).
Proof.
  unfold cleanup_stats_block. pose proof raises_only_process_stats_block.
  raises_auto.
Qed.

Lemma raises_only_process_client_cleanup fuel i :
  raises_only P (process_client_cleanup fuel i).
Proof.
  induction fuel as [|fuel IH]; cbn [process_client_cleanup];
    pose proof raises_only_cleanup_stats_block; raises_auto.
Qed.

Hypothesis P_value : P ValueError.
Variable dateutil_parse : string -> option Z.

Lemma raises_only_put_timing t : raises_only P (put_timing t).
Proof. intros s e s' H. discriminate. Qed.

Lemma raises_only_get_timing : raises_only P get_timing.
Proof. intros s e s' H. discriminate. Qed.

Lemma raises_only_session_stats_block fuel i :
  raises_only P (session_stats_block dateutil_parse fuel i).
Proof.
  unfold session_stats_block. pose proof raises_only_process_stats_block.
  pose proof raises_only_put_timing. pose proof raises_only_get_timing.
  raises_auto.
Qed.

End Raises.

Section EarlyExit.

Variable dateutil_parse : string -> option Z.

(** The cleanup never signals a premature exit: there the client end
    marker is the expected end. *)
Lemma cleanup_not_early_exit fuel i :
  raises_only not_early_exit (process_client_cleanup fuel i).
Proof. apply raises_only_process_client_cleanup; cbn; auto. Qed.

(** The setup signals a premature exit only at a client end marker. *)
Lemma setup_early_exit fuel i s n s' :
  process_client_setup fuel i s = (Raise (Client_Early_Exit_Error n), s') ->
  at_client_end n s'.
Proof.
  revert s. induction fuel as [|fuel IH]; intros s; cbn [process_client_setup].
  - discriminate.
  - unfold bind at 1. next_cases s; [|discriminate].
    destruct (REGEXPS.client_end (strip line)) eqn:Ece.
    + intros [= <- <-]. exists line. auto.
    + unfold bind at 1.
      destruct (REGEXPS.test_failure (strip line)); cbn;
        (destruct (REGEXPS.session_start (strip line));
         [rewrite requeue_line_spec; discriminate|apply IH]).
Qed.

Lemma session_stats_block_not_early_exit fuel i :
  raises_only not_early_exit (session_stats_block dateutil_parse fuel i).
Proof. apply raises_only_session_stats_block; cbn; auto. Qed.

Lemma session_loop_early_exit fuel i s n s' :
  session_loop dateutil_parse fuel i s = (Raise (Client_Early_Exit_Error n), s') ->
  at_client_end n s'.
Proof.
  revert s. induction fuel as [|fuel IH]; intros s; cbn [session_loop].
  - discriminate.
  - unfold bind at 1. next_cases s; [|discriminate].
    destruct (REGEXPS.client_end (strip line)) eqn:Ece.
    + intros [= <- <-]. exists line. auto.
    + destruct (REGEXPS.test_finished (strip line)); [discriminate|].
      intros H. apply bind_Raise_inv in H as [H|([] & s1 & _ & H)].
      * exfalso.
        destruct (REGEXPS.is_some (REGEXPS.stats_block (strip line)));
          [|discriminate].
        apply session_stats_block_not_early_exit in H. exact H.
      * apply bind_Raise_inv in H as [H|([] & s2 & _ & H)].
        { destruct (REGEXPS.test_failure (strip line)); discriminate. }
        eapply IH; eauto.
Qed.

End EarlyExit.

(** ** The premature end of a client section *)

Section PrematureExit.

Variable dateutil_parse : string -> option Z.

Lemma only_scans_refl s : only_scans s s.
Proof. exists []. rewrite app_nil_r. split; [reflexivity|constructor]. Qed.

Lemma only_scans_trans a b c : only_scans a b -> only_scans b c -> only_scans a c.
Proof.
  intros (x & Hx & Fx) (y & Hy & Fy). exists (x ++ y).
  rewrite Hy, Hx, <- app_assoc. split; [reflexivity|].
  apply Forall_app. auto.
Qed.

Lemma only_scans_next : pres only_scans reader_next.
Proof.
  intros s. destruct (reader_next_changes s) as (g & added & -> & F).
  exists added. auto.
Qed.

Lemma only_scans_requeue : pres only_scans requeue_line.
Proof.
  intros s. destruct (requeue_line_changes s) as (g & ->).
  exists []. cbn. rewrite app_nil_r. split; [reflexivity|constructor].
Qed.

Lemma only_scans_client i f : pres only_scans (modify_client i f).
Proof.
  intros s. exists []. cbn. rewrite app_nil_r. split; [reflexivity|constructor].
Qed.

Lemma only_scans_timing t : pres only_scans (put_timing t).
Proof.
  intros s. exists []. cbn. rewrite app_nil_r. split; [reflexivity|constructor].
Qed.

Lemma only_scans_setup fuel i : pres only_scans (process_client_setup fuel i).
Proof.
  apply pres_process_client_setup;
    auto using only_scans_refl, only_scans_next, only_scans_requeue,
      only_scans_client.
  apply only_scans_trans.
Qed.

Lemma only_scans_session fuel i :
  pres only_scans (process_client_session dateutil_parse fuel i).
Proof.
  apply pres_process_client_session;
    auto using only_scans_refl, only_scans_next, only_scans_requeue,
      only_scans_client, only_scans_timing.
  apply only_scans_trans.
Qed.

(** The [finally] clause of the session leaves the reader alone and
    raises nothing. *)
Lemma session_finally_Return i s :
  exists s', session_finally i s = (Return tt, s')
             /\ st_reader s' = st_reader s
             /\ st_anomalies s' = st_anomalies s
             /\ st_timing s' = st_timing s.
Proof.
  unfold session_finally, bind, get_timing.
  destruct (longest_pass_delta (st_timing s)) as [delta|];
    [destruct (delta =? 0)|];
    cbn; destruct (last_dt (st_timing s)), (first_dt (st_timing s));
    cbn; eauto.
Qed.

Lemma session_early_exit fuel i s n s' :
  process_client_session dateutil_parse fuel i s
  = (Raise (Client_Early_Exit_Error n), s') ->
  at_client_end n s'.
Proof.
  unfold process_client_session. cbn [bind modify_client modify_results put_timing].
  unfold bind. cbn. unfold try_finally.
  match goal with
  | |- context [session_loop _ _ _ ?s0] =>
      destruct (session_loop dateutil_parse fuel i s0) as [[[]|e|] s1] eqn:E
  end; try discriminate;
    destruct (session_finally_Return i s1) as (s2 & -> & Hr & _);
    intros H; try discriminate; injection H as -> <-.
  apply session_loop_early_exit in E as (raw & Hf & Hc).
  exists raw. rewrite Hr. auto.
Qed.


End PrematureExit.

(** ** Facts about the patterns *)

Section Patterns.

Lemma lit_Some p : forall s r, lit p s = Some r -> s = (p ++ r)%string.
Proof.
  induction p as [|a p IH]; intros s r; cbn.
  - intros [= ->]. reflexivity.
  - destruct s as [|b s]; [discriminate|].
    destruct (Ascii.eqb_spec a b) as [->|]; [|discriminate].
    intros H. apply IH in H. rewrite H. reflexivity.
Qed.

Lemma dotstar_Some {A} (k : string -> option A) s : forall a,
  dotstar k s = Some a ->
  exists pre t, s = (pre ++ t)%string /\ k t = Some a.
Proof.
  induction s as [|c s IH]; intros a; cbn.
  - intros H. exists EmptyString, EmptyString. auto.
  - destruct (is_newline c).
    + intros H. exists EmptyString, (String c s). auto.
    + destruct (dotstar k s) as [a'|] eqn:E.
      * intros [= ->]. destruct (IH a eq_refl) as (pre & t & -> & Hk).
        exists (String c pre), t. auto.
      * intros H. exists EmptyString, (String c s). auto.
Qed.

Lemma string_forall_app p a b :
  string_forall p (a ++ b)%string = string_forall p a && string_forall p b.
Proof.
  induction a as [|c a IH]; cbn; [reflexivity|].
  rewrite IH, andb_assoc. reflexivity.
Qed.

Lemma space_not_brace c : is_space c = true -> not_brace c = true.
Proof.
  destruct c as [[] [] [] [] [] [] [] []]; vm_compute; congruence.
Qed.

Lemma all_space_no_brace s : all_space s = true -> string_forall not_brace s = true.
Proof.
  induction s as [|c s IH]; cbn; [reflexivity|].
  intros H. apply andb_true_iff in H as [Hc Hs].
  rewrite (space_not_brace c Hc), (IH Hs). reflexivity.
Qed.

Lemma lstrip_no_brace s :
  string_forall not_brace (lstrip s) = true -> string_forall not_brace s = true.
Proof.
  induction s as [|c s IH]; cbn; [reflexivity|].
  destruct (is_space c) eqn:E; [|intros H; exact H].
  intros H. rewrite (space_not_brace c E), (IH H). reflexivity.
Qed.

(** A blank-marker line has no brace in it. *)
Lemma blank_no_brace line :
  REGEXPS.blank line = true -> string_forall not_brace line = true.
Proof.
  unfold REGEXPS.blank.
  destruct (lit "steeplechase INFO" line) as [r|] eqn:E; [|discriminate].
  apply lit_Some in E. subst line.
  destruct (lstrip r) as [|c r'] eqn:El; [discriminate|].
  intros H. apply andb_true_iff in H as [Hc Hs].
  rewrite string_forall_app. apply andb_true_iff. split; [reflexivity|].
  apply lstrip_no_brace. rewrite El. cbn.
  apply Ascii.eqb_eq in Hc. subst c. cbn.
  apply all_space_no_brace. exact Hs.
Qed.

(** A test-result line has one. *)
Lemma test_result_brace line action :
  REGEXPS.test_result line = Some action -> string_forall not_brace line = false.
Proof.
  unfold REGEXPS.test_result. intros H.
  apply dotstar_Some in H as (pre & t & -> & H).
  match type of H with
  | match lit ?p t with _ => _ end = _ => destruct (lit p t) as [r|] eqn:E
  end; [|discriminate].
  apply lit_Some in E. subst t.
  rewrite string_forall_app. cbn. apply andb_false_r.
Qed.

(** No test-result line is a blank-marker line. *)
Lemma test_result_not_blank p : is_test_result p -> not_blank p.
Proof.
  unfold is_test_result, not_blank. destruct p as [n line]. cbn [snd].
  destruct (REGEXPS.test_result line) as [action|] eqn:E; [|discriminate].
  intros _. destruct (REGEXPS.blank line) eqn:B; [|reflexivity].
  apply blank_no_brace in B. apply test_result_brace in E. congruence.
Qed.

End Patterns.

(** ** One stats block *)

Section StatsBlock.

Lemma only_read_trans a b c : only_read a b -> only_read b c -> only_read a c.
Proof.
  intros (R1 & T1 & S1) (R2 & T2 & S2). unfold only_read.
  rewrite R2, T2. eauto using only_scans_trans.
Qed.

(** The state after a delivery is related to the state before it. *)
Lemma only_read_delivery s n line rest added :
  (added = [] /\ st_reader s = mk_gen (GenYieldNone n line) rest)
  \/ (added = scan n line /\ n = current_number (st_reader s) + 1
      /\ file (st_reader s) = line :: rest) ->
  forall fr,
    only_read s (mk_state (mk_gen fr rest) (st_anomalies s ++ added)
                   (st_results s) (st_timing s)).
Proof.
  intros Hadd fr. split; [reflexivity|split; [reflexivity|]].
  exists added. split; [reflexivity|].
  destruct Hadd as [[-> _]|(-> & _ & _)]; [constructor|].
  unfold scan. destruct (REGEXPS.sc_error line) eqn:E; repeat constructor.
  exact E.
Qed.

(** The test results of a block: the loop consumes the test-result lines
    [tests], keeps the failing ones, and requeues [stop], the first line
    that is not a test result. *)
Lemma test_results_loop_spec tests :
  forall fuel failed s stop post,
    upcoming (st_reader s) = tests ++ stop :: post ->
    Forall is_test_result tests ->
    REGEXPS.test_result (snd stop) = None ->
    (length tests < fuel)%nat ->
    exists s',
      test_results_loop fuel failed s
      = (Return (failed ++ List.filter failing tests), s')
      /\ upcoming (st_reader s') = stop :: post
      /\ (exists raw, frame (st_reader s') = GenYieldNone (fst stop) raw)
      /\ only_read s s'.
Proof.
  induction tests as [|p tests IH]; intros fuel failed s stop post Hup Ht Hstop Hfuel;
    (destruct fuel as [|fuel]; [cbn in Hfuel; lia|]);
    cbn [test_results_loop]; unfold bind at 1;
    next_cases s; cbn [app] in Hup; rewrite HU in Hup; try discriminate;
    injection Hup as Hp Hrest; cbn iota.
  - subst stop. cbn [snd] in Hstop. rewrite Hstop.
    unfold bind. rewrite requeue_line_spec. cbn [ret].
    eexists. split; [rewrite app_nil_r; reflexivity|].
    split; [cbn; rewrite Hrest; reflexivity|].
    split; [eexists; reflexivity|].
    eapply only_read_delivery; eauto.
  - inversion Ht as [|? ? Hp1 Ht']; subst.
    unfold is_test_result in Hp1. cbn [snd] in Hp1.
    cbn [List.filter]. unfold failing at 1. cbn [snd].
    destruct (REGEXPS.test_result (strip line)) as [action|]; [|discriminate].
    destruct (String.eqb action "test_pass"); cbn [negb].
    + match goal with
      | |- context [test_results_loop fuel _ ?s1] =>
          destruct (IH fuel failed s1 stop post) as (s' & E & HU' & Hfr & Hro);
            [exact Hrest | exact Ht' | exact Hstop | cbn in Hfuel; lia | ]
      end.
      rewrite E. eexists. split; [reflexivity|]. split; [exact HU'|].
      split; [exact Hfr|].
      eapply only_read_trans; [|exact Hro]. eapply only_read_delivery; eauto.
    + match goal with
      | |- context [test_results_loop fuel _ ?s1] =>
          destruct (IH fuel (failed ++ [(n, strip line)]) s1 stop post)
            as (s' & E & HU' & Hfr & Hro);
            [exact Hrest | exact Ht' | exact Hstop | cbn in Hfuel; lia | ]
      end.
      rewrite E. eexists. split; [rewrite <- app_assoc; reflexivity|].
      split; [exact HU'|]. split; [exact Hfr|].
      eapply only_read_trans; [|exact Hro]. eapply only_read_delivery; eauto.
Qed.

(** The blank lines after the stats list: the loop consumes them and
    requeues [stop], the first line that is not blank. *)
Lemma stats_list_loop_blank_spec blanks :
  forall fuel s stop post,
    upcoming (st_reader s) = blanks ++ stop :: post ->
    Forall is_blank blanks ->
    not_blank stop ->
    (length blanks < fuel)%nat ->
    exists s',
      stats_list_loop fuel true s = (Return tt, s')
      /\ upcoming (st_reader s') = stop :: post
      /\ (exists raw, frame (st_reader s') = GenYieldNone (fst stop) raw)
      /\ only_read s s'.
Proof.
  induction blanks as [|p blanks IH]; intros fuel s stop post Hup Hb Hstop Hfuel;
    (destruct fuel as [|fuel]; [cbn in Hfuel; lia|]);
    cbn [stats_list_loop]; unfold bind at 1;
    next_cases s; cbn [app] in Hup; rewrite HU in Hup; try discriminate;
    injection Hup as Hp Hrest; cbn iota.
  - subst stop. unfold not_blank in Hstop. cbn [snd] in Hstop. rewrite Hstop.
    rewrite requeue_line_spec.
    eexists. split; [reflexivity|].
    split; [cbn; rewrite Hrest; reflexivity|].
    split; [eexists; reflexivity|].
    eapply only_read_delivery; eauto.
  - inversion Hb as [|? ? Hp1 Hb']; subst.
    unfold is_blank in Hp1. cbn [snd] in Hp1. rewrite Hp1.
    match goal with
    | |- context [stats_list_loop fuel true ?s1] =>
        destruct (IH fuel s1 stop post) as (s' & E & HU' & Hfr & Hro);
          [exact Hrest | exact Hb' | exact Hstop | cbn in Hfuel; lia | ]
    end.
    rewrite E. eexists. split; [reflexivity|]. split; [exact HU'|].
    split; [exact Hfr|].
    eapply only_read_trans; [|exact Hro]. eapply only_read_delivery; eauto.
Qed.

(** The stats list and the blank lines after it. *)
Lemma stats_list_loop_spec stats :
  forall fuel s blanks stop post,
    upcoming (st_reader s) = stats ++ blanks ++ stop :: post ->
    Forall not_blank stats ->
    blanks <> [] ->
    Forall is_blank blanks ->
    not_blank stop ->
    (length stats + length blanks < fuel)%nat ->
    exists s',
      stats_list_loop fuel false s = (Return tt, s')
      /\ upcoming (st_reader s') = stop :: post
      /\ (exists raw, frame (st_reader s') = GenYieldNone (fst stop) raw)
      /\ only_read s s'.
Proof.
  induction stats as [|p stats IH];
    intros fuel s blanks stop post Hup Hs Hne Hb Hstop Hfuel;
    (destruct fuel as [|fuel]; [cbn in Hfuel; lia|]);
    cbn [stats_list_loop]; unfold bind at 1.
  - destruct blanks as [|b blanks]; [congruence|].
    next_cases s; cbn [app] in Hup; rewrite HU in Hup; try discriminate;
      injection Hup as Hp Hrest; cbn iota.
    inversion Hb as [|? ? Hp1 Hb']; subst.
    unfold is_blank in Hp1. cbn [snd] in Hp1. rewrite Hp1.
    match goal with
    | |- context [stats_list_loop fuel true ?s1] =>
        destruct (stats_list_loop_blank_spec blanks fuel s1 stop post)
          as (s' & E & HU' & Hfr & Hro);
          [exact Hrest | exact Hb' | exact Hstop | cbn in Hfuel; lia | ]
    end.
    rewrite E. eexists. split; [reflexivity|]. split; [exact HU'|].
    split; [exact Hfr|].
    eapply only_read_trans; [|exact Hro]. eapply only_read_delivery; eauto.
  - next_cases s; cbn [app] in Hup; rewrite HU in Hup; try discriminate;
      injection Hup as Hp Hrest; cbn iota.
    inversion Hs as [|? ? Hp1 Hs']; subst.
    unfold not_blank in Hp1. cbn [snd] in Hp1. rewrite Hp1.
    match goal with
    | |- context [stats_list_loop fuel false ?s1] =>
        destruct (IH fuel s1 blanks stop post) as (s' & E & HU' & Hfr & Hro);
          [exact Hrest | exact Hs' | exact Hne | exact Hb | exact Hstop
          | cbn in Hfuel; lia | ]
    end.
    rewrite E. eexists. split; [reflexivity|]. split; [exact HU'|].
    split; [exact Hfr|].
    eapply only_read_trans; [|exact Hro]. eapply only_read_delivery; eauto.
Qed.

(** One stats block, line by line: the header, the stats list [stats],
    the blank lines [blanks], the test results [tests], and [stop], the
    first line after them.  The block is parsed up to [stop], which is
    requeued; the failing test lines are those of [tests] whose action is
    not [test_pass]; the block passed if there is none; and it is appended
    to the failed blocks of the client exactly when there is one and the
    block is not merely scanned. *)
Lemma process_stats_block_spec fuel i just_scan s header ts stats blanks tests stop post :
  upcoming (st_reader s) = header :: stats ++ blanks ++ tests ++ stop :: post ->
  REGEXPS.stats_block (snd header) = Some ts ->
  Forall not_blank stats ->
  blanks <> [] ->
  Forall is_blank blanks ->
  Forall is_test_result tests ->
  REGEXPS.test_result (snd stop) = None ->
  not_blank stop ->
  (length stats + length blanks + length tests < fuel)%nat ->
  exists s',
    process_stats_block fuel i just_scan s
    = (Return (ts, match List.filter failing tests with
                   | [] => true
                   | _ :: _ => false
                   end), s')
    /\ upcoming (st_reader s') = stop :: post
    /\ (exists raw, frame (st_reader s') = GenYieldNone (fst stop) raw)
    /\ only_scans s s'
    /\ st_timing s' = st_timing s
    /\ st_results s'
       = match List.filter failing tests with
         | [] => st_results s
         | x :: failed =>
             if just_scan then st_results s
             else set_clients
                    (alter (append_failed_block (mk_block ts (x :: failed))) i
                       (clients (st_results s)))
                    (st_results s)
         end.
Proof.
  intros Hup Hts Hs Hne Hb Ht Hstop Hnb Hfuel.
  unfold process_stats_block. unfold bind at 1.
  next_cases s; rewrite HU in Hup; try discriminate.
  injection Hup as Hp Hrest. subst header. cbn [snd] in Hts. cbn iota.
  rewrite Hts. unfold bind at 1.
  assert (Hhead : exists stop' post', tests ++ stop :: post = stop' :: post'
                                      /\ not_blank stop').
  { destruct tests as [|t tests].
    - exists stop, post. auto.
    - exists t, (tests ++ stop :: post). split; [reflexivity|].
      apply test_result_not_blank. inversion Ht; assumption. }
  destruct Hhead as (stop' & post' & Hsplit & Hnb').
  match goal with
  | |- context [stats_list_loop fuel false ?s1] =>
      destruct (stats_list_loop_spec stats fuel s1 blanks stop' post')
        as (sa & Ea & HUa & _ & Ra & Ta & Sa);
        [rewrite <- Hsplit; exact Hrest | exact Hs | exact Hne | exact Hb
        | exact Hnb' | lia | ]
  end.
  rewrite Ea. cbn iota. unfold bind at 1.
  destruct (test_results_loop_spec tests fuel [] sa stop post)
    as (sb & Eb & HUb & Hfrb & Rb & Tb & Sb);
    [rewrite HUa, Hsplit; reflexivity | exact Ht | exact Hstop | lia | ].
  rewrite Eb. cbn iota. cbn [app].
  assert (Hscans : only_scans s sb).
  { eapply only_scans_trans; [|exact Sb].
    eapply only_scans_trans; [|exact Sa].
    eapply only_read_delivery; eauto. }
  cbn [st_results st_timing] in Ra, Ta.
  destruct (List.filter failing tests) as [|x failed] eqn:Ef.
  - cbn. eexists. split; [reflexivity|].
    repeat split; auto; congruence.
  - destruct just_scan; cbn.
    + eexists. split; [reflexivity|].
      repeat split; auto; congruence.
    + eexists. split; [reflexivity|].
      cbn. rewrite Rb, Ra, Tb, Ta. repeat split; auto.
Qed.


End StatsBlock.

(** ** The failed-blocks lists *)

Section FailedBlocks.

Variable dateutil_parse : string -> option Z.

Lemma keeps_refl s : keeps_blocks_with_failures s s.
Proof. intros H. exact H. Qed.

Lemma keeps_trans a b c :
  keeps_blocks_with_failures a b -> keeps_blocks_with_failures b c ->
  keeps_blocks_with_failures a c.
Proof. unfold keeps_blocks_with_failures. auto. Qed.

Lemma keeps_next : pres keeps_blocks_with_failures reader_next.
Proof.
  intros s. destruct (reader_next_changes s) as (g & added & -> & _).
  intros H. exact H.
Qed.

Lemma keeps_requeue : pres keeps_blocks_with_failures requeue_line.
Proof.
  intros s. destruct (requeue_line_changes s) as (g & ->). intros H. exact H.
Qed.

(** An update of a client that leaves its failed blocks alone, or adds
    one with a failing test. *)
Lemma keeps_client i f :
  (forall c, Forall (fun b => failed_tests b <> []) (failed_blocks c) ->
             Forall (fun b => failed_tests b <> []) (failed_blocks (f c))) ->
  pres keeps_blocks_with_failures (modify_client i f).
Proof.
  intros Hf s H. unfold blocks_have_failures in *. cbn.
  apply Forall_alter; [exact H|]. intros c _. apply Hf.
Qed.

Lemma keeps_parse_body fuel :
  pres keeps_blocks_with_failures (parse_body dateutil_parse fuel).
Proof.
  apply (pres_parse_body keeps_blocks_with_failures keeps_refl keeps_trans
           keeps_next keeps_requeue);
    try (intros; apply keeps_client; intros c Hc; exact Hc);
    try (intros; intros s H; exact H).
  - intros i ts x failed. apply keeps_client. intros c Hc. cbn.
    apply Forall_app. split; [exact Hc|]. repeat constructor. discriminate.
  - intros s H. unfold blocks_have_failures in *. cbn.
    apply Forall_app. split; [exact H|].
    repeat constructor.
Qed.

Lemma map_failed_blocks_alter f i (l : list client_results) :
  (forall c, failed_blocks (f c) = failed_blocks c) ->
  map failed_blocks (alter f i l) = map failed_blocks l.
Proof.
  intros Hf. revert i. induction l as [|c l IH]; intros [|i]; cbn;
    rewrite ?Hf, ?IH; reflexivity.
Qed.

Lemma same_blocks_cleanup fuel i :
  pres same_failed_blocks (process_client_cleanup fuel i).
Proof.
  apply pres_process_client_cleanup; unfold same_failed_blocks.
  - reflexivity.
  - intros a b c H1 H2. congruence.
  - intros s. destruct (reader_next_changes s) as (g & added & -> & _).
    reflexivity.
  - intros s. destruct (requeue_line_changes s) as (g & ->). reflexivity.
  - intros number line s. reflexivity.
  - intros j x s. cbn. apply map_failed_blocks_alter. reflexivity.
Qed.

Lemma in_prefix {A} (x : A) (l1 l2 : list A) :
  l1 `prefix_of` l2 -> In x l1 -> In x l2.
Proof. intros [k ->] H. apply in_or_app. auto. Qed.

Lemma log_grows_cleanup fuel i : pres log_grows (process_client_cleanup fuel i).
Proof.
  apply pres_process_client_cleanup;
    auto using log_grows_refl, log_grows_next, log_grows_requeue,
      log_grows_log, log_grows_client.
  apply log_grows_trans.
Qed.

Lemma log_grows_stats_block_scan fuel i :
  pres log_grows (process_stats_block fuel i true).
Proof.
  apply pres_process_stats_block_scan;
    auto using log_grows_refl, log_grows_next, log_grows_requeue.
  apply log_grows_trans.
Qed.

(** The branch of the cleanup loop for a stats block header on line
    [number] records the anomaly, whatever follows. *)
Lemma cleanup_stats_block_logs fuel i number s c :
  clients (st_results s) !! i = Some c ->
  In (number, stats_after_finish c)
     (st_anomalies (snd (cleanup_stats_block fuel i number s))).
Proof.
  intros Hc. unfold cleanup_stats_block, bind at 1, get_client.
  rewrite Hc. unfold bind at 1. cbn [log_anomaly].
  match goal with
  | |- context [bind requeue_line ?k ?s1] =>
      assert (G : log_grows s1 (snd (bind requeue_line k s1)))
  end.
  { apply (pres_bind log_grows log_grows_trans); [apply log_grows_requeue|].
    intros []. apply (pres_bind log_grows log_grows_trans);
      [apply log_grows_stats_block_scan|].
    intros p s'. apply log_grows_refl. }
  eapply in_prefix; [exact G|]. cbn. apply in_or_app. right. left. reflexivity.
Qed.

(** In the cleanup, a stats block header on line [n] is recorded as an
    anomaly on that line. *)
Lemma cleanup_logs_stats fuel i s n l rest c :
  upcoming (st_reader s) = (n, l) :: rest ->
  REGEXPS.client_end l = false ->
  REGEXPS.is_some (REGEXPS.stats_block l) = true ->
  clients (st_results s) !! i = Some c ->
  In (n, stats_after_finish c)
     (st_anomalies (snd (process_client_cleanup (S fuel) i s))).
Proof.
  intros Hup Hce Hsb Hc. cbn [process_client_cleanup]. unfold bind at 1.
  next_cases s; rewrite HU in Hup; try discriminate.
  injection Hup as -> -> _. cbn iota. rewrite Hce, Hsb. cbn iota.
  match goal with
  | |- context [bind (cleanup_stats_block fuel i ?n) ?k ?s1] =>
      pose proof (cleanup_stats_block_logs fuel i n s1 c Hc) as L;
      assert (G : forall a, pres log_grows (k a))
  end.
  { intros []. apply (pres_bind log_grows log_grows_trans).
    - destruct (REGEXPS.test_failure l);
        [apply log_grows_client|intros s'; apply log_grows_refl].
    - intros []. apply log_grows_cleanup. }
  unfold bind at 1.
  destruct (cleanup_stats_block fuel i n _) as [[[]|e|] s1]; cbn in L |- *;
    try exact L.
  eapply in_prefix; [apply (G tt)|exact L].
Qed.

(** A stats block of the session, line by line as in
    [process_stats_block_spec], whose header the session loop has just
    read: if one of its test lines is failing, the block is in the failed
    blocks of the client afterwards, as the last one, whether or not its
    timestamp can be parsed. *)
Lemma session_stats_block_files fuel i s n raw ts c b stats blanks tests stop post
      x failed :
  st_reader s = mk_gen (GenYieldLine n raw) (file (st_reader s)) ->
  REGEXPS.stats_block (strip raw) = Some ts ->
  upcoming (st_reader s) = stats ++ blanks ++ tests ++ stop :: post ->
  clients (st_results s) !! i = Some c ->
  blocks c = Some b ->
  Forall not_blank stats -> blanks <> [] -> Forall is_blank blanks ->
  Forall is_test_result tests ->
  REGEXPS.test_result (snd stop) = None -> not_blank stop ->
  (length stats + length blanks + length tests < fuel)%nat ->
  List.filter failing tests = x :: failed ->
  exists c',
    clients (st_results (snd (session_stats_block dateutil_parse fuel i s))) !! i
    = Some c'
    /\ failed_blocks c' = failed_blocks c ++ [mk_block ts (x :: failed)].
Proof.
  intros Hr Hts Hup Hc Hb Hs Hne Hbl Ht Hstop Hnb Hfuel Hf.
  unfold session_stats_block. unfold bind at 1.
  destruct s as [g an rs tm]. cbn [st_reader st_results] in *.
  rewrite Hr. rewrite requeue_line_spec. cbn iota.
  unfold bind at 1, get_client. cbn [st_results]. rewrite Hc. cbn iota.
  rewrite Hb. unfold bind at 1. cbn [modify_client modify_results]. cbn iota.
  unfold bind at 1.
  match goal with
  | |- context [process_stats_block fuel i false ?s1] =>
      destruct (process_stats_block_spec fuel i false s1 (n, strip raw) ts
                  stats blanks tests stop post)
        as (s' & E & _ & _ & _ & _ & Hres); auto
  end.
  { cbn. rewrite Hr in Hup. cbn in Hup. rewrite Hup. reflexivity. }
  rewrite E. cbn iota. rewrite Hf in Hres. cbn in Hres.
  assert (Hlook : clients (st_results s') !! i
                  = Some (append_failed_block (mk_block ts (x :: failed))
                            (set_blocks (Some (b + 1)) c))).
  { rewrite Hres. cbn. rewrite !list_lookup_alter_eq, Hc. reflexivity. }
  eexists. split.
  - destruct (dateutil_parse ts); cbn; exact Hlook.
  - reflexivity.
Qed.


End FailedBlocks.

(** ** The longest pass *)

Section LongestPass.

Variable dateutil_parse : string -> option Z.

Lemma max_delta_app acc a b : max_delta acc (a ++ b) = max_delta (max_delta acc a) b.
Proof. unfold max_delta. apply fold_left_app. Qed.

(** The deltas of the open run do not depend on how the blocks after its
    first were grouped. *)
Lemma pass_runs_open bs : forall start later,
  concat (map run_deltas (pass_runs (start :: later) bs))
  = map (fun dt => dt - start) later
    ++ concat (map run_deltas (pass_runs [start] bs)).
Proof.
  induction bs as [|[dt passed] bs IH]; intros start later.
  - cbn. reflexivity.
  - destruct passed; cbn [pass_runs].
    + change ((start :: later) ++ [dt]) with (start :: (later ++ [dt])).
      rewrite IH. change ([start] ++ [dt]) with (start :: [dt]).
      rewrite (IH start [dt]). rewrite map_app, <- app_assoc. reflexivity.
    + cbn. reflexivity.
Qed.

Lemma track_all_longest bs : forall t,
  longest_pass_delta (track_all bs t)
  = max_delta (longest_pass_delta t)
      (concat (map run_deltas (pass_runs (open_run t) bs))).
Proof.
  induction bs as [|[dt passed] bs IH]; intros t.
  - unfold open_run. destruct (pass_start_dt t); reflexivity.
  - change (track_all ((dt, passed) :: bs) t)
      with (track_all bs (track dt passed t)).
    rewrite IH. unfold track, open_run. cbn [fst snd pass_runs].
    destruct passed.
    + destruct (pass_start_dt t) as [start|]; cbn [pass_start_dt longest_pass_delta].
      * change ([start] ++ [dt]) with (start :: [dt]).
        rewrite (pass_runs_open bs start [dt]). cbn [map].
        rewrite max_delta_app. reflexivity.
      * reflexivity.
    + cbn [pass_start_dt longest_pass_delta].
      destruct (pass_start_dt t); reflexivity.
Qed.

(** X21: the duration the session loop tracks is the maximum timestamp
    delta across the maximal runs of consecutive passing blocks: a run
    starts at a passing block when none is open, keeps its start while
    blocks pass, and ends at a failing block. *)
Lemma tracked_longest_is_max_run_delta bs :
  longest_pass_delta (track_all bs timing_unset) = max_run_delta bs.
Proof. apply track_all_longest. Qed.

(** A stats block of the session, line by line as in
    [process_stats_block_spec], whose header the session loop has just
    read: the block count of the client grows by one and the time tracking
    advances by [track], for the parsed timestamp of the header and the
    verdict on the test lines. *)
Lemma session_stats_block_tracks fuel i s n raw ts dt c b stats blanks tests stop post :
  st_reader s = mk_gen (GenYieldLine n raw) (file (st_reader s)) ->
  REGEXPS.stats_block (strip raw) = Some ts ->
  dateutil_parse ts = Some dt ->
  upcoming (st_reader s) = stats ++ blanks ++ tests ++ stop :: post ->
  clients (st_results s) !! i = Some c ->
  blocks c = Some b ->
  Forall not_blank stats -> blanks <> [] -> Forall is_blank blanks ->
  Forall is_test_result tests ->
  REGEXPS.test_result (snd stop) = None -> not_blank stop ->
  (length stats + length blanks + length tests < fuel)%nat ->
  exists s' c',
    session_stats_block dateutil_parse fuel i s = (Return tt, s')
    /\ st_timing s'
       = track dt (match List.filter failing tests with
                   | [] => true
                   | _ :: _ => false
                   end) (st_timing s)
    /\ clients (st_results s') !! i = Some c'
    /\ blocks c' = Some (b + 1)
    /\ upcoming (st_reader s') = stop :: post.
Proof.
  intros Hr Hts Hdt Hup Hc Hb Hs Hne Hbl Ht Hstop Hnb Hfuel.
  unfold session_stats_block. unfold bind at 1.
  destruct s as [g an rs tm]. cbn [st_reader st_results st_timing] in *.
  rewrite Hr. rewrite requeue_line_spec. cbn iota.
  unfold bind at 1, get_client. cbn [st_results]. rewrite Hc. cbn iota.
  rewrite Hb. unfold bind at 1. cbn [modify_client modify_results]. cbn iota.
  unfold bind at 1.
  match goal with
  | |- context [process_stats_block fuel i false ?s1] =>
      destruct (process_stats_block_spec fuel i false s1 (n, strip raw) ts
                  stats blanks tests stop post)
        as (s' & E & HU' & _ & _ & Htm & Hres); auto
  end.
  { cbn. rewrite Hr in Hup. cbn in Hup. rewrite Hup. reflexivity. }
  rewrite E. cbn iota. rewrite Hdt. cbn in Htm, Hres.
  unfold bind, get_timing, put_timing. rewrite Htm.
  destruct (List.filter failing tests) as [|x failed];
    eexists _, _; (split; [reflexivity|]);
    cbn [st_timing st_results st_reader];
    (split; [reflexivity|]); (split; [|split; [|exact HU']]);
    try (rewrite Hres; cbn; rewrite ?list_lookup_alter_eq, Hc; reflexivity);
    reflexivity.
Qed.

(** What the [finally] clause stores on the client. *)
Lemma session_finally_stores i s c :
  clients (st_results s) !! i = Some c ->
  exists c',
    clients (st_results (snd (session_finally i s))) !! i = Some c'
    /\ longest_pass c'
       = match longest_pass_delta (st_timing s) with
         | Some delta =>
             if delta =? 0 then longest_pass c else Some (whole_seconds delta)
         | None => longest_pass c
         end
    /\ session_runtime c'
       = match last_dt (st_timing s), first_dt (st_timing s) with
         | Some last, Some first => Some (whole_seconds (last - first))
         | _, _ => session_runtime c
         end.
Proof.
  intros Hc. unfold session_finally, bind, get_timing.
  destruct (longest_pass_delta (st_timing s)) as [delta|];
    [destruct (delta =? 0)|];
    destruct (last_dt (st_timing s)), (first_dt (st_timing s));
    cbn; rewrite ?list_lookup_alter_eq, ?Hc; cbn;
    eexists; split; try reflexivity; split; reflexivity.
Qed.

(** The [finally] clause runs however the session loop ends, and the way
    the loop ended stands. *)
Lemma session_finalizes fuel i s o s1 :
  session_loop dateutil_parse fuel i (session_entry i s) = (o, s1) ->
  o <> OutOfFuel ->
  process_client_session dateutil_parse fuel i s
  = (o, snd (session_finally i s1)).
Proof.
  intros E Ho.
  change (process_client_session dateutil_parse fuel i s)
    with (try_finally (session_loop dateutil_parse fuel i) (session_finally i)
            (session_entry i s)).
  unfold try_finally. rewrite E.
  destruct (session_finally_Return i s1) as (s2 & -> & _).
  destruct o as [[]| |]; [reflexivity|reflexivity|congruence].
Qed.

(** C2 (the defect): in a session whose two stats blocks both pass and
    carry the same timestamp, the time tracking is that of two passing
    blocks at that time, the one run of passing blocks has the maximum
    delta 0, and yet the longest pass reported for the client is unset,
    not 0. *)
Theorem zero_longest_pass_not_reported :
  let s := final_state Sample.seconds_parse Sample.same_time_log [] in
  st_timing s = track_all [(100000000, true); (100000000, true)] timing_unset
  /\ max_run_delta [(100000000, true); (100000000, true)] = Some 0
  /\ map longest_pass (clients (st_results s)) = [None; None].
Proof. vm_compute. auto. Qed.

(** C4 (the defect): on the same log [parse] returns; the session loop of
    the second client ended with the longest pass duration 0 recorded;
    the [finally] clause stored the session runtime 0 on each client and
    left the longest pass of each unset. *)
Theorem recorded_zero_delta_is_dropped :
  exists r,
    parse Sample.seconds_parse Sample.same_time_log [] = (Return r, [])
    /\ map longest_pass (clients r) = [None; None]
    /\ map session_runtime (clients r) = [Some 0; Some 0]
    /\ longest_pass_delta
         (st_timing (final_state Sample.seconds_parse Sample.same_time_log []))
       = Some 0.
Proof. eexists. vm_compute. auto. Qed.

End LongestPass.

(** ** Failing lines outside the stats blocks *)

Section FailureLines.

Variable dateutil_parse : string -> option Z.

Section Field.

Variable field : client_results -> list numbered_line.
Variable i : nat.

Lemma field_grows_refl s : field_grows field i s s.
Proof. intros c Hc. exists c. split; [exact Hc|reflexivity]. Qed.

Lemma field_grows_trans a b c :
  field_grows field i a b -> field_grows field i b c -> field_grows field i a c.
Proof.
  intros H1 H2 x Hx. destruct (H1 x Hx) as (y & Hy & Py).
  destruct (H2 y Hy) as (z & Hz & Pz). exists z. split; [exact Hz|].
  etransitivity; eauto.
Qed.

Lemma field_grows_same s s' :
  st_results s' = st_results s -> field_grows field i s s'.
Proof.
  intros E c Hc. exists c. rewrite E. split; [exact Hc|reflexivity].
Qed.

Lemma field_grows_next : pres (field_grows field i) reader_next.
Proof.
  intros s. destruct (reader_next_changes s) as (g & added & -> & _).
  apply field_grows_same. reflexivity.
Qed.

Lemma field_grows_requeue : pres (field_grows field i) requeue_line.
Proof.
  intros s. destruct (requeue_line_changes s) as (g & ->).
  apply field_grows_same. reflexivity.
Qed.

Lemma field_grows_log number line :
  pres (field_grows field i) (log_anomaly number line).
Proof. intros s. apply field_grows_same. reflexivity. Qed.

Lemma field_grows_timing t : pres (field_grows field i) (put_timing t).
Proof. intros s. apply field_grows_same. reflexivity. Qed.

Lemma field_grows_client j f :
  (forall c, field c `prefix_of` field (f c)) ->
  pres (field_grows field i) (modify_client j f).
Proof.
  intros Hf s c Hc. cbn.
  destruct (decide (j = i)) as [->|Hne].
  - rewrite list_lookup_alter_eq, Hc. cbn. eauto.
  - rewrite list_lookup_alter_ne by exact Hne. exists c.
    split; [exact Hc|reflexivity].
Qed.

End Field.

Lemma session_failures_grow fuel i j :
  pres (field_grows session_failures i) (session_loop dateutil_parse fuel j).
Proof.
  apply (pres_session_loop _ (field_grows_refl _ i) (field_grows_trans _ i)
           (field_grows_next _ i) (field_grows_requeue _ i));
    intros; try apply field_grows_timing;
    apply field_grows_client; intros c; cbn;
    try reflexivity; apply prefix_app_r; reflexivity.
Qed.

Lemma cleanup_failures_grow fuel i j :
  pres (field_grows cleanup_failures i) (process_client_cleanup fuel j).
Proof.
  apply (pres_process_client_cleanup _ (field_grows_refl _ i)
           (field_grows_trans _ i) (field_grows_next _ i)
           (field_grows_requeue _ i));
    intros; try apply field_grows_log;
    apply field_grows_client; intros c; cbn;
    try reflexivity; apply prefix_app_r; reflexivity.
Qed.

(** The setup files, in order, the lines it looks at that match the test
    failure pattern, and nothing else. *)
Lemma setup_records fuel : forall i s c,
  clients (st_results s) !! i = Some c ->
  fst (process_client_setup fuel i s) <> OutOfFuel ->
  exists c',
    clients (st_results (snd (process_client_setup fuel i s))) !! i = Some c'
    /\ setup_failures c'
       = setup_failures c
         ++ List.filter is_test_failure (setup_lines (upcoming (st_reader s))).
Proof.
  induction fuel as [|fuel IH]; intros i s c Hc Hfuel;
    cbn [process_client_setup] in *; [cbn in Hfuel; congruence|].
  unfold bind at 1 in Hfuel. unfold bind at 1.
  next_cases s; rewrite HU; cbn [setup_lines snd].
  - cbn iota in *.
    destruct (REGEXPS.client_end (strip line)) eqn:Ece.
    + cbn. exists c. rewrite app_nil_r. auto.
    + cbn [List.filter]. unfold is_test_failure at 1. cbn [snd].
      unfold bind at 1 in Hfuel. unfold bind at 1.
      destruct (REGEXPS.test_failure (strip line)) eqn:Etf;
        state_simpl;
        destruct (REGEXPS.session_start (strip line)) eqn:Ess.
      * rewrite requeue_line_spec. cbn.
        rewrite list_lookup_alter_eq, Hc. cbn. eauto.
      * match goal with
        | |- context [process_client_setup fuel i ?s1] =>
            destruct (IH i s1 (append_setup_failure (n, strip line) c))
              as (c' & Hc' & Hs'); [|exact Hfuel|]
        end.
        { cbn. rewrite list_lookup_alter_eq, Hc. reflexivity. }
        exists c'. split; [exact Hc'|]. rewrite Hs'. cbn.
        rewrite <- app_assoc. reflexivity.
      * rewrite requeue_line_spec. cbn. exists c. rewrite app_nil_r. auto.
      * match goal with
        | |- context [process_client_setup fuel i ?s1] =>
            destruct (IH i s1 c) as (c' & Hc' & Hs'); [exact Hc|exact Hfuel|]
        end.
        exists c'. split; [exact Hc'|]. rewrite Hs'. reflexivity.
  - cbn. exists c. rewrite app_nil_r. auto.
Qed.

(** A line the session loop reads and tests against the test failure
    pattern is filed when it matches. *)
Lemma session_records fuel i s n l rest c :
  upcoming (st_reader s) = (n, l) :: rest ->
  REGEXPS.client_end l = false ->
  REGEXPS.test_finished l = false ->
  REGEXPS.stats_block l = None ->
  REGEXPS.test_failure l = true ->
  clients (st_results s) !! i = Some c ->
  exists c',
    clients (st_results (snd (session_loop dateutil_parse (S fuel) i s))) !! i
    = Some c'
    /\ In (n, l) (session_failures c').
Proof.
  intros Hup Hce Htf Hsb Hfail Hc. cbn [session_loop]. unfold bind at 1.
  next_cases s; rewrite HU in Hup; try discriminate.
  injection Hup as -> -> _. cbn iota. rewrite Hce, Htf, Hsb, Hfail.
  cbn [REGEXPS.is_some]. unfold bind at 1. state_simpl.
  unfold bind at 1. state_simpl.
  match goal with
  | |- context [session_loop dateutil_parse fuel i ?s1] =>
      destruct (session_failures_grow fuel i i s1
                  (append_session_failure (n, l) c))
        as (c' & Hc' & Hp)
  end.
  { cbn. rewrite list_lookup_alter_eq, Hc. reflexivity. }
  exists c'. split; [exact Hc'|].
  eapply in_prefix; [exact Hp|]. cbn. apply in_or_app. right. left. reflexivity.
Qed.

(** So is a line the cleanup loop reads. *)
Lemma cleanup_records fuel i s n l rest c :
  upcoming (st_reader s) = (n, l) :: rest ->
  REGEXPS.client_end l = false ->
  REGEXPS.stats_block l = None ->
  REGEXPS.test_failure l = true ->
  clients (st_results s) !! i = Some c ->
  exists c',
    clients (st_results (snd (process_client_cleanup (S fuel) i s))) !! i
    = Some c'
    /\ In (n, l) (cleanup_failures c').
Proof.
  intros Hup Hce Hsb Hfail Hc. cbn [process_client_cleanup]. unfold bind at 1.
  next_cases s; rewrite HU in Hup; try discriminate.
  injection Hup as -> -> _. cbn iota. rewrite Hce, Hsb, Hfail.
  cbn [REGEXPS.is_some]. unfold bind at 1. state_simpl.
  unfold bind at 1. state_simpl.
  match goal with
  | |- context [process_client_cleanup fuel i ?s1] =>
      destruct (cleanup_failures_grow fuel i i s1
                  (append_cleanup_failure (n, l) c))
        as (c' & Hc' & Hp)
  end.
  { cbn. rewrite list_lookup_alter_eq, Hc. reflexivity. }
  exists c'. split; [exact Hc'|].
  eapply in_prefix; [exact Hp|]. cbn. apply in_or_app. right. left. reflexivity.
Qed.

(** C7, as the code has it: the lines recorded as failures outside the
    stats blocks are those that match the test failure pattern (the action
    [test_unexpected_fail]), not every test-result line whose action is
    other than [test_pass].  (1) When the setup loop ends, the setup
    failures of the client are those it had, followed by the lines the
    loop looked at that match the test failure pattern, each with its line
    number, in order.  (2) A line the session loop reads that matches the
    pattern and is neither a client end marker, nor the test finished
    marker, nor a stats block header is in the session failures of the
    client afterwards, with its line number; (3) likewise, in the cleanup
    loop, for the cleanup failures. *)
Theorem test_failure_lines_are_recorded :
  (forall fuel i s c,
      clients (st_results s) !! i = Some c ->
      fst (process_client_setup fuel i s) <> OutOfFuel ->
      exists c',
        clients (st_results (snd (process_client_setup fuel i s))) !! i = Some c'
        /\ setup_failures c'
           = setup_failures c
             ++ List.filter is_test_failure (setup_lines (upcoming (st_reader s))))
  /\ (forall fuel i s n l rest c,
        upcoming (st_reader s) = (n, l) :: rest ->
        REGEXPS.client_end l = false ->
        REGEXPS.test_finished l = false ->
        REGEXPS.stats_block l = None ->
        REGEXPS.test_failure l = true ->
        clients (st_results s) !! i = Some c ->
        exists c',
          clients (st_results (snd (session_loop dateutil_parse (S fuel) i s))) !! i
          = Some c'
          /\ In (n, l) (session_failures c'))
  /\ (forall fuel i s n l rest c,
        upcoming (st_reader s) = (n, l) :: rest ->
        REGEXPS.client_end l = false ->
        REGEXPS.stats_block l = None ->
        REGEXPS.test_failure l = true ->
        clients (st_results s) !! i = Some c ->
        exists c',
          clients (st_results (snd (process_client_cleanup (S fuel) i s))) !! i
          = Some c'
          /\ In (n, l) (cleanup_failures c')).
Proof.
  split; [|split].
  - intros fuel. apply setup_records.
  - apply session_records.
  - apply cleanup_records.
Qed.

(** C7 as stated fails: line 2 of this log, read in the setup of the first
    client, is a test-result line whose action, [test_known_fail], is not
    [test_pass]; the document [parse] returns has line 3 in the setup
    failures of that client, and not line 2. *)
Lemma setup_skips_other_failing_action :
  failing (2, strip (Sample.result_line "test_known_fail")) = true
  /\ In (2, strip (Sample.result_line "test_known_fail"))
       (setup_lines (number_lines 1 (tl Sample.other_action_log)))
  /\ exists r c0,
       parse Sample.seconds_parse Sample.other_action_log [] = (Return r, [])
       /\ clients r !! 0%nat = Some c0
       /\ setup_failures c0
          = [(3, strip (Sample.result_line "test_unexpected_fail"))]
       /\ ~ In (2, strip (Sample.result_line "test_known_fail")) (setup_failures c0).
Proof.
  split; [vm_compute; reflexivity|]. split; [vm_compute; auto|].
  eexists. eexists. split; [vm_compute; reflexivity|].
  split; [reflexivity|]. split; [vm_compute; reflexivity|].
  vm_compute. intros [H|[]]. discriminate H.
Qed.

End FailureLines.

(** ** Two clients, in the order of the log *)

Section ClientOrder.

Variable dateutil_parse : string -> option Z.

Lemma number_lines_app n a b :
  number_lines n (a ++ b)
  = number_lines n a ++ number_lines (n + Z.of_nat (length a)) b.
Proof.
  revert n. induction a as [|x a IH]; intros n; cbn [number_lines app length].
  - rewrite Z.add_0_r. reflexivity.
  - rewrite IH. do 3 f_equal. lia.
Qed.

Lemma advances_refl s : advances s s.
Proof.
  destruct (frame (st_reader s)) eqn:E; try (left; exact E);
    right; (split; [congruence|]); exists []; cbn; (split; [reflexivity|lia]).
Qed.

Lemma advances_trans a b c : advances a b -> advances b c -> advances a c.
Proof.
  intros H1 [H2|(Hb & k2 & F2 & N2)]; [left; exact H2|].
  destruct H1 as [H1|(Ha & k1 & F1 & N1)]; [congruence|].
  right. split; [exact Ha|]. exists (k1 ++ k2).
  rewrite F1, F2, <- app_assoc. split; [reflexivity|].
  rewrite N2, N1, length_app. lia.
Qed.

Lemma advances_next : pres advances reader_next.
Proof.
  intros s. next_cases s; cbn [snd].
  - right. assert (Hf : frame (st_reader s) <> GenFinished).
    { intros E. unfold upcoming in HU. rewrite E in HU. discriminate. }
    split; [exact Hf|]. cbn.
    destruct Hadd as [[_ Hr]|(_ & Hn & Hfl)].
    + exists []. rewrite Hr. cbn. split; [reflexivity|lia].
    + exists [line]. rewrite Hfl. cbn. split; [reflexivity|lia].
  - left. exact Hg.
Qed.

Lemma advances_requeue : pres advances requeue_line.
Proof.
  intros s. unfold requeue_line, resume, bind, get_reader, put_reader, ret, raise.
  destruct s as [[fr fl] an rs tm]. cbn.
  destruct fr; cbn; try (left; reflexivity);
    right; (split; [cbn; congruence|]); exists []; cbn; (split; [reflexivity|lia]).
Qed.

(** Whatever leaves the reader alone. *)
Lemma advances_same s s' : st_reader s' = st_reader s -> advances s s'.
Proof.
  intros E. unfold advances. rewrite E. apply advances_refl.
Qed.

Lemma advances_process_client fuel :
  pres advances (process_client dateutil_parse fuel).
Proof.
  apply (pres_process_client advances advances_refl advances_trans
           advances_next advances_requeue);
    intros; intros s; apply advances_same; reflexivity.
Qed.

Lemma keeps_clients_refl s : keeps_clients s s.
Proof. split; [reflexivity|]. intros j c Hc. eauto. Qed.

Lemma keeps_clients_trans a b c :
  keeps_clients a b -> keeps_clients b c -> keeps_clients a c.
Proof.
  intros [L1 H1] [L2 H2]. split; [congruence|].
  intros j x Hx. destruct (H1 j x Hx) as (y & Hy & Ny).
  destruct (H2 j y Hy) as (z & Hz & Nz). exists z. split; [exact Hz|congruence].
Qed.

Lemma keeps_clients_same s s' :
  clients (st_results s') = clients (st_results s) -> keeps_clients s s'.
Proof.
  intros E. unfold keeps_clients. rewrite E. apply keeps_clients_refl.
Qed.

Lemma keeps_clients_next : pres keeps_clients reader_next.
Proof.
  intros s. destruct (reader_next_changes s) as (g & added & -> & _).
  apply keeps_clients_same. reflexivity.
Qed.

Lemma keeps_clients_requeue : pres keeps_clients requeue_line.
Proof.
  intros s. destruct (requeue_line_changes s) as (g & ->).
  apply keeps_clients_same. reflexivity.
Qed.

Lemma keeps_clients_client i f :
  (forall c, name (f c) = name c) -> pres keeps_clients (modify_client i f).
Proof.
  intros Hf s. split; cbn; [apply length_alter|].
  intros j c Hc. destruct (decide (i = j)) as [->|Hne].
  - rewrite list_lookup_alter_eq, Hc. cbn. eauto.
  - rewrite list_lookup_alter_ne by exact Hne. eauto.
Qed.

Lemma keeps_clients_phases fuel i :
  pres keeps_clients (client_phases dateutil_parse fuel i).
Proof.
  apply (pres_client_phases keeps_clients keeps_clients_refl keeps_clients_trans
           keeps_clients_next keeps_clients_requeue);
    intros;
    try (apply keeps_clients_client; intros c; reflexivity);
    intros s; apply keeps_clients_same; reflexivity.
Qed.

Lemma keeps_clients_steeplechase_cleanup fuel :
  pres keeps_clients (process_steeplechase_cleanup fuel).
Proof.
  apply (pres_process_steeplechase_cleanup keeps_clients keeps_clients_refl
           keeps_clients_trans keeps_clients_next);
    intros; intros s; apply keeps_clients_same; reflexivity.
Qed.

Lemma for_next_eq s :
  for_next s
  = match reader_next s with
    | (Return p, s1) => (Return (Some p), s1)
    | (Raise (StopIteration _), s1) => (Return None, s1)
    | (Raise e, s1) => (Raise e, s1)
    | (OutOfFuel, s1) => (OutOfFuel, s1)
    end.
Proof.
  unfold for_next, try_except, bind.
  destruct (reader_next s) as [[p|e|] s1]; cbn; [reflexivity| |reflexivity].
  destruct e; reflexivity.
Qed.

(** The harness setup stops at the first client start marker, which it
    requeues, unless the file ends first. *)
Lemma steeplechase_setup_finds_first fuel : forall s s',
  process_steeplechase_setup fuel s = (Return tt, s') ->
  st_results s' = st_results s
  /\ (frame (st_reader s') = GenFinished
      \/ exists pre n raw,
           upcoming (st_reader s) = pre ++ upcoming (st_reader s')
           /\ st_reader s' = mk_gen (GenYieldNone n raw) (file (st_reader s'))
           /\ REGEXPS.is_some (REGEXPS.client_start (strip raw)) = true
           /\ Forall not_client_start pre).
Proof.
  induction fuel as [|fuel IH]; intros s s'; cbn [process_steeplechase_setup];
    [discriminate|].
  unfold bind at 1. rewrite for_next_eq. next_cases s; cbn iota.
  - destruct (REGEXPS.is_some (REGEXPS.client_start (strip line))) eqn:E.
    + rewrite requeue_line_spec. intros [= <-]. split; [reflexivity|].
      right. exists [], n, line. cbn. rewrite HU. auto.
    + intros H. apply IH in H as (Hr & H). cbn in Hr. split; [exact Hr|].
      destruct H as [H|(pre & n' & raw & Hup & Hrd & Hcs & Hpre)]; [left; exact H|].
      right. exists ((n, strip line) :: pre), n', raw.
      rewrite HU. cbn in Hup. rewrite Hup. repeat split; auto.
      constructor; [|exact Hpre]. unfold not_client_start. cbn.
      destruct (REGEXPS.client_start (strip line)); [discriminate|reflexivity].
  - intros [= <-]. split; [reflexivity|]. left. exact Hg.
Qed.

(** The cleanup returns at a client end marker, with nothing requeued. *)
Lemma cleanup_Return fuel i : forall s s',
  process_client_cleanup fuel i s = (Return tt, s') ->
  exists n raw, frame (st_reader s') = GenYieldLine n raw.
Proof.
  induction fuel as [|fuel IH]; intros s s'; cbn [process_client_cleanup];
    [discriminate|].
  unfold bind at 1. next_cases s; [|discriminate]. cbn iota.
  destruct (REGEXPS.client_end (strip line)).
  - intros [= <-]. cbn. eauto.
  - intros H. apply bind_Return_inv in H as ([] & s1 & _ & H).
    apply bind_Return_inv in H as ([] & s2 & _ & H).
    eapply IH; eauto.
Qed.

(** A client section that [process_client] returns from: its first line
    names the client; the client is the new, last entry of the results;
    the entries before it keep their names; and the reader has just
    delivered a line, with nothing requeued. *)
Lemma process_client_Return fuel s s' :
  process_client dateutil_parse fuel s = (Return tt, s') ->
  exists p rest client_name c,
    upcoming (st_reader s) = p :: rest
    /\ REGEXPS.client_start (snd p) = Some client_name
    /\ clients (st_results s') !! length (clients (st_results s)) = Some c
    /\ name c = Some client_name
    /\ length (clients (st_results s')) = S (length (clients (st_results s)))
    /\ (forall j x, clients (st_results s) !! j = Some x ->
                    exists x', clients (st_results s') !! j = Some x'
                               /\ name x' = name x)
    /\ exists n raw, frame (st_reader s') = GenYieldLine n raw.
Proof.
  unfold process_client. unfold bind at 1. cbn [append_client]. cbn iota.
  set (i := length (clients (st_results s))).
  unfold bind at 1.
  match goal with |- context [reader_next ?s0] => set (sa := s0) end.
  assert (HUa : upcoming (st_reader sa) = upcoming (st_reader s)) by reflexivity.
  next_cases sa; [|discriminate]. cbn iota.
  destruct (REGEXPS.client_start (strip line)) as [client_name|] eqn:Ename;
    [|discriminate].
  unfold bind at 1. state_simpl.
  match goal with
  | |- try_except (client_phases _ _ _) _ ?s0 = _ -> _ => set (s1 := s0)
  end.
  assert (Hi : clients (st_results s1) !! i
               = Some (set_name (Some client_name) create_client_results)).
  { subst s1 sa i. cbn. rewrite list_lookup_alter_eq.
    rewrite list_lookup_middle by reflexivity. reflexivity. }
  assert (Hlen : length (clients (st_results s1)) = S i).
  { subst s1 sa i. cbn. rewrite length_alter, length_app. cbn. lia. }
  assert (Hold : forall j x, clients (st_results s) !! j = Some x ->
                             clients (st_results s1) !! j = Some x).
  { intros j x Hx. subst s1 sa. cbn.
    assert (j < length (clients (st_results s)))%nat
      by (eapply lookup_lt_Some; eauto).
    rewrite list_lookup_alter_ne by (subst i; lia).
    rewrite lookup_app_l by assumption. exact Hx. }
  pose proof (keeps_clients_phases fuel i s1) as [Klen Knames].
  intros H.
  assert (Hfinal : clients (st_results s')
                   = clients (st_results
                                (snd (client_phases dateutil_parse fuel i s1)))
                   /\ exists n' raw, frame (st_reader s') = GenYieldLine n' raw).
  { unfold try_except in H.
    destruct (client_phases dateutil_parse fuel i s1) as [[[]|e|] s2] eqn:Ep;
      try discriminate.
    - injection H as <-. split; [reflexivity|].
      unfold client_phases in Ep.
      apply bind_Return_inv in Ep as ([] & sx & _ & Ep).
      apply bind_Return_inv in Ep as ([] & sy & _ & Ep).
      eapply cleanup_Return; eauto.
    - destruct e; try discriminate. injection H as <-. split; [reflexivity|].
      cbn. unfold client_phases in Ep.
      apply bind_Raise_inv in Ep as [Ep|([] & sx & _ & Ep)].
      { apply setup_early_exit in Ep as (raw & Hf & _). eauto. }
      apply bind_Raise_inv in Ep as [Ep|([] & sy & _ & Ep)].
      { apply session_early_exit in Ep as (raw & Hf & _). eauto. }
      apply cleanup_not_early_exit in Ep. destruct Ep. }
  destruct Hfinal as [Hcl Hfr]. rewrite Hcl.
  destruct (Knames i _ Hi) as (c & Hc & Hn).
  exists (n, strip line), (number_lines n rest), client_name, c.
  rewrite <- HUa, HU. repeat split; auto. congruence.
Qed.

Lemma two_element_list {A} (l : list A) a b :
  length l = 2%nat -> l !! 0%nat = Some a -> l !! 1%nat = Some b -> l = [a; b].
Proof.
  destruct l as [|x [|y [|z l]]]; cbn; intros Hl Ha Hb; try discriminate.
  congruence.
Qed.

(** What [parse] returns once [process_log] has returned with two
    clients. *)
Lemma parse_after_process_log log module_list s' c0 c1 :
  process_log dateutil_parse (S (length log)) (initial_state log module_list)
  = (Return tt, s') ->
  clients (st_results s') = [c0; c1] ->
  exists r,
    parse dateutil_parse log module_list = (Return r, st_anomalies s')
    /\ clients r = [c0; c1]
    /\ results_session_runtime r
       = py2_min (session_runtime c0) (session_runtime c1)
    /\ total_passed r = total_passed (st_results s')
    /\ total_failed r = total_failed (st_results s').
Proof.
  intros E Hc. unfold parse, parse_fuel, parse_body.
  unfold bind at 1, try_except. rewrite E.
  unfold bind at 1, client_session_runtime at 1, bind at 1, get_results.
  cbn [st_results]. rewrite Hc. cbn [lookup list_lookup ret]. cbn iota.
  unfold bind at 1, client_session_runtime at 1, bind at 1, get_results.
  cbn [st_results]. rewrite Hc. cbn.
  eexists. split; [reflexivity|]. cbn. rewrite Hc. auto.
Qed.


End ClientOrder.

(** ** [parse] terminates

    Every loop of the stages reads a line in each of its iterations, and
    what a stage requeues it has read itself: the fuel [parse] gives its
    stages, one more than the number of lines of the file, is never used
    up. *)

Section Termination.

Variable dateutil_parse : string -> option Z.

(** What a delivery leaves: one line less. *)
Lemma lines_left_delivery s n line rest an rs tm :
  upcoming (st_reader s) = (n, strip line) :: number_lines n rest ->
  lines_left s
  = S (lines_left (mk_state (mk_gen (GenYieldLine n line) rest) an rs tm)).
Proof. intros HU. unfold lines_left. rewrite HU. reflexivity. Qed.

Lemma lines_left_finished g an rs tm :
  frame g = GenFinished -> lines_left (mk_state g an rs tm) = 0%nat.
Proof. intros Hg. unfold lines_left, upcoming. cbn. rewrite Hg. reflexivity. Qed.

(** Close a case in which the computation has ended. *)
Ltac ended E :=
  cbn in E; injection E as <- <-;
  split; [discriminate
         |cbn [proceeds]; intros Hp; try contradiction;
          repeat match goal with
                 | H : proceeds _ -> _ |- _ => specialize (H Hp)
                 end;
          unfold lines_left in *; cbn in *; lia].

(** Close a case by the fact [H] about the rest of the computation. *)
Ltac by_rest H E :=
  apply H in E as [?Ho ?Hl]; [|unfold lines_left in *; cbn in *; lia];
  split; [assumption
         |intros Hp; match goal with
                     | Hl : proceeds _ -> _ |- _ => specialize (Hl Hp)
                     end;
          unfold lines_left in *; cbn in *; lia].

(** The end of the input ends a loop. *)
Ltac stop_case E Hg :=
  cbn iota in E; injection E as <- <-;
  split; [discriminate|intros Hp; destruct Hp].

(** A line was delivered: one less is left. *)
Ltac delivered s HU E :=
  cbn iota in E;
  match type of E with
  | context [mk_state (mk_gen (GenYieldLine ?n ?line) ?rest) ?an ?rs ?tm] =>
      rewrite (lines_left_delivery s n line rest an rs tm HU) in *
  end.

Lemma stats_list_loop_within fuel : forall in_blank s o s',
  (lines_left s < fuel)%nat ->
  stats_list_loop fuel in_blank s = (o, s') ->
  o <> OutOfFuel /\ (proceeds o -> (lines_left s' <= lines_left s)%nat).
Proof.
  induction fuel as [|fuel IH]; intros in_blank s o s' Hs E; [lia|].
  cbn [stats_list_loop] in E. unfold bind at 1 in E.
  next_cases s; [|stop_case E Hg]. delivered s HU E.
  destruct (REGEXPS.blank (strip line)); [|destruct in_blank].
  - by_rest IH E.
  - rewrite requeue_line_spec in E. ended E.
  - by_rest IH E.
Qed.

Lemma test_results_loop_within fuel : forall failed s o s',
  (lines_left s < fuel)%nat ->
  test_results_loop fuel failed s = (o, s') ->
  o <> OutOfFuel /\ (proceeds o -> (lines_left s' <= lines_left s)%nat).
Proof.
  induction fuel as [|fuel IH]; intros failed s o s' Hs E; [lia|].
  cbn [test_results_loop] in E. unfold bind at 1 in E.
  next_cases s; [|stop_case E Hg]. delivered s HU E.
  destruct (REGEXPS.test_result (strip line)) as [action|].
  - destruct (String.eqb action "test_pass"); by_rest IH E.
  - unfold bind in E. rewrite requeue_line_spec in E. ended E.
Qed.

(** A stats block, entered with its header requeued: it reads the header
    at least. *)
Lemma process_stats_block_within fuel i just_scan s o s' :
  (lines_left s <= fuel)%nat ->
  process_stats_block fuel i just_scan s = (o, s') ->
  o <> OutOfFuel /\ (proceeds o -> (lines_left s' <= pred (lines_left s))%nat).
Proof.
  intros Hs E. unfold process_stats_block in E. unfold bind at 1 in E.
  next_cases s; [|stop_case E Hg]. delivered s HU E. cbn [pred].
  destruct (REGEXPS.stats_block (strip line)) as [ts|]; [|ended E].
  unfold bind at 1 in E.
  match type of E with
  | context [stats_list_loop fuel false ?s1] =>
      destruct (stats_list_loop fuel false s1) as [[[]|e|] s2] eqn:E1;
      apply stats_list_loop_within in E1 as [Ho Hl]; try lia;
      try congruence
  end; [|ended E].
  specialize (Hl I). cbn iota in E. unfold bind at 1 in E.
  destruct (test_results_loop fuel [] s2) as [[failed|e|] s3] eqn:E2;
    apply test_results_loop_within in E2 as [Ho' Hl']; try lia;
    try congruence; [|ended E].
  specialize (Hl' I).
  destruct failed as [|x failed]; [|destruct just_scan]; ended E.
Qed.

Lemma process_client_setup_within fuel : forall i s o s',
  (lines_left s < fuel)%nat ->
  process_client_setup fuel i s = (o, s') ->
  o <> OutOfFuel /\ (proceeds o -> (lines_left s' <= lines_left s)%nat).
Proof.
  induction fuel as [|fuel IH]; intros i s o s' Hs E; [lia|].
  cbn [process_client_setup] in E. unfold bind at 1 in E.
  next_cases s; [|stop_case E Hg]. delivered s HU E.
  destruct (REGEXPS.client_end (strip line)); [ended E|].
  unfold bind at 1 in E.
  destruct (REGEXPS.test_failure (strip line)); state_simpl;
    (destruct (REGEXPS.session_start (strip line));
     [rewrite requeue_line_spec in E; ended E|by_rest IH E]).
Qed.

(** The stats block branch of the session loop, entered right after the
    loop read the header. *)
Lemma session_stats_block_within fuel i n raw rest an rs tm o s' :
  (lines_left (mk_state (mk_gen (GenYieldLine n raw) rest) an rs tm) < fuel)%nat ->
  session_stats_block dateutil_parse fuel i
    (mk_state (mk_gen (GenYieldLine n raw) rest) an rs tm) = (o, s') ->
  o <> OutOfFuel
  /\ (proceeds o ->
      (lines_left s'
       <= lines_left (mk_state (mk_gen (GenYieldLine n raw) rest) an rs tm))%nat).
Proof.
  intros Hs E. unfold session_stats_block in E. unfold bind at 1 in E.
  rewrite requeue_line_spec in E. cbn iota in E.
  unfold bind at 1, get_client in E. cbn [st_results] in E.
  destruct (clients rs !! i) as [c|]; [|ended E].
  cbn iota in E.
  destruct (blocks c) as [b|]; [|ended E].
  unfold bind at 1 in E. state_simpl. unfold bind at 1 in E.
  match type of E with
  | context [process_stats_block fuel i false ?s1] =>
      destruct (process_stats_block fuel i false s1) as [[[ts passed]|e|] s2] eqn:E1;
      apply process_stats_block_within in E1 as [Ho Hl];
      try (unfold lines_left in *; cbn in *; lia); try congruence
  end; [|ended E].
  specialize (Hl I). cbn iota in E.
  destruct (dateutil_parse ts); ended E.
Qed.

Lemma session_loop_within fuel : forall i s o s',
  (lines_left s < fuel)%nat ->
  session_loop dateutil_parse fuel i s = (o, s') ->
  o <> OutOfFuel /\ (proceeds o -> (lines_left s' <= lines_left s)%nat).
Proof.
  induction fuel as [|fuel IH]; intros i s o s' Hs E; [lia|].
  cbn [session_loop] in E. unfold bind at 1 in E.
  next_cases s; [|stop_case E Hg]. delivered s HU E.
  destruct (REGEXPS.client_end (strip line)); [ended E|].
  destruct (REGEXPS.test_finished (strip line)); [ended E|].
  unfold bind at 1 in E.
  destruct (REGEXPS.is_some (REGEXPS.stats_block (strip line))).
  - match type of E with
    | context [session_stats_block dateutil_parse fuel i ?s1] =>
        destruct (session_stats_block dateutil_parse fuel i s1)
          as [[[]|e|] s2] eqn:E1;
        apply session_stats_block_within in E1 as [Ho Hl]; try lia;
        try congruence
    end.
    + specialize (Hl I). cbn iota in E. unfold bind at 1 in E.
      destruct (REGEXPS.test_failure (strip line)); state_simpl; by_rest IH E.
    + cbn iota in E. injection E as <- <-. split; [discriminate|].
      intros Hp. specialize (Hl Hp). lia.
  - state_simpl. unfold bind at 1 in E.
    destruct (REGEXPS.test_failure (strip line)); state_simpl; by_rest IH E.
Qed.

Lemma process_client_session_within fuel i s o s' :
  (lines_left s < fuel)%nat ->
  process_client_session dateutil_parse fuel i s = (o, s') ->
  o <> OutOfFuel /\ (proceeds o -> (lines_left s' <= lines_left s)%nat).
Proof.
  intros Hs E.
  change (process_client_session dateutil_parse fuel i s)
    with (try_finally (session_loop dateutil_parse fuel i) (session_finally i)
            (session_entry i s)) in E.
  unfold try_finally in E.
  destruct (session_loop dateutil_parse fuel i (session_entry i s))
    as [o1 s1] eqn:E1.
  apply session_loop_within in E1 as [Ho Hl]; [|exact Hs].
  change (lines_left (session_entry i s)) with (lines_left s) in Hl.
  destruct (session_finally_Return i s1) as (s2 & E2 & Hr & _).
  rewrite E2 in E.
  assert (lines_left s2 = lines_left s1)
    by (unfold lines_left; rewrite Hr; reflexivity).
  destruct o1 as [[]|e|]; [| |congruence]; injection E as <- <-;
    (split; [discriminate|intros Hp; specialize (Hl Hp); lia]).
Qed.

(** The stats block branch of the cleanup loop. *)
Lemma cleanup_stats_block_within fuel i number n raw rest an rs tm o s' :
  (lines_left (mk_state (mk_gen (GenYieldLine n raw) rest) an rs tm) < fuel)%nat ->
  cleanup_stats_block fuel i number
    (mk_state (mk_gen (GenYieldLine n raw) rest) an rs tm) = (o, s') ->
  o <> OutOfFuel
  /\ (proceeds o ->
      (lines_left s'
       <= lines_left (mk_state (mk_gen (GenYieldLine n raw) rest) an rs tm))%nat).
Proof.
  intros Hs E. unfold cleanup_stats_block in E.
  unfold bind at 1, get_client in E. cbn [st_results] in E.
  destruct (clients rs !! i) as [c|]; [|ended E].
  cbn iota in E. unfold bind at 1 in E. state_simpl.
  unfold bind at 1 in E. rewrite requeue_line_spec in E. cbn iota in E.
  unfold bind at 1 in E.
  match type of E with
  | context [process_stats_block fuel i true ?s1] =>
      destruct (process_stats_block fuel i true s1) as [[[ts passed]|e|] s2] eqn:E1;
      apply process_stats_block_within in E1 as [Ho Hl];
      try (unfold lines_left in *; cbn in *; lia); try congruence
  end; [specialize (Hl I)|]; ended E.
Qed.

Lemma process_client_cleanup_within fuel : forall i s o s',
  (lines_left s < fuel)%nat ->
  process_client_cleanup fuel i s = (o, s') ->
  o <> OutOfFuel /\ (proceeds o -> (lines_left s' <= lines_left s)%nat).
Proof.
  induction fuel as [|fuel IH]; intros i s o s' Hs E; [lia|].
  cbn [process_client_cleanup] in E. unfold bind at 1 in E.
  next_cases s; [|stop_case E Hg]. delivered s HU E.
  destruct (REGEXPS.client_end (strip line)); [ended E|].
  unfold bind at 1 in E.
  destruct (REGEXPS.is_some (REGEXPS.stats_block (strip line))).
  - match type of E with
    | context [cleanup_stats_block fuel i ?k ?s1] =>
        destruct (cleanup_stats_block fuel i k s1) as [[[]|e|] s2] eqn:E1;
        apply cleanup_stats_block_within in E1 as [Ho Hl]; try lia;
        try congruence
    end.
    + specialize (Hl I). cbn iota in E. unfold bind at 1 in E.
      destruct (REGEXPS.test_failure (strip line)); state_simpl; by_rest IH E.
    + cbn iota in E. injection E as <- <-. split; [discriminate|].
      intros Hp. specialize (Hl Hp). lia.
  - state_simpl. unfold bind at 1 in E.
    destruct (REGEXPS.test_failure (strip line)); state_simpl; by_rest IH E.
Qed.

Lemma client_phases_within fuel i s o s' :
  (lines_left s < fuel)%nat ->
  client_phases dateutil_parse fuel i s = (o, s') ->
  o <> OutOfFuel /\ (proceeds o -> (lines_left s' <= lines_left s)%nat).
Proof.
  intros Hs E. unfold client_phases in E. unfold bind at 1 in E.
  destruct (process_client_setup fuel i s) as [[[]|e|] s1] eqn:E1;
    apply process_client_setup_within in E1 as [Ho1 Hl1]; try lia;
    try congruence; [|ended E].
  specialize (Hl1 I). unfold bind at 1 in E.
  destruct (process_client_session dateutil_parse fuel i s1) as [[[]|e|] s2] eqn:E2;
    apply process_client_session_within in E2 as [Ho2 Hl2]; try lia;
    try congruence; [|ended E].
  specialize (Hl2 I).
  apply process_client_cleanup_within in E as [Ho3 Hl3]; [|lia].
  split; [exact Ho3|]. intros Hp. specialize (Hl3 Hp). lia.
Qed.

Lemma process_client_within fuel s o s' :
  (lines_left s <= fuel)%nat ->
  process_client dateutil_parse fuel s = (o, s') ->
  o <> OutOfFuel /\ (proceeds o -> (lines_left s' <= lines_left s)%nat).
Proof.
  intros Hs E. unfold process_client in E. unfold bind at 1 in E.
  cbn [append_client] in E. cbn iota in E. unfold bind at 1 in E.
  match type of E with context [reader_next ?s0] => set (sa := s0) in * end.
  assert (Ha : lines_left sa = lines_left s) by reflexivity.
  rewrite <- Ha in *.
  next_cases sa; [|stop_case E Hg]. delivered sa HU E.
  destruct (REGEXPS.client_start (strip line)) as [client_name|]; [|ended E].
  unfold bind at 1 in E. state_simpl. unfold try_except in E.
  match type of E with
  | context [client_phases dateutil_parse fuel ?i ?s1] =>
      destruct (client_phases dateutil_parse fuel i s1) as [[[]|e|] s2] eqn:E1;
      apply client_phases_within in E1 as [Ho Hl];
      try (unfold lines_left in *; cbn in *; lia); try congruence
  end.
  - specialize (Hl I). ended E.
  - destruct e; ended E.
Qed.

Lemma process_steeplechase_setup_within fuel : forall s o s',
  (lines_left s < fuel)%nat ->
  process_steeplechase_setup fuel s = (o, s') ->
  o <> OutOfFuel /\ (proceeds o -> (lines_left s' <= lines_left s)%nat).
Proof.
  induction fuel as [|fuel IH]; intros s o s' Hs E; [lia|].
  cbn [process_steeplechase_setup] in E. unfold bind at 1 in E.
  rewrite for_next_eq in E.
  next_cases s;
    [|cbn in E; injection E as <- <-; split; [discriminate|intros _];
      rewrite lines_left_finished by exact Hg; lia].
  delivered s HU E.
  destruct (REGEXPS.is_some (REGEXPS.client_start (strip line))).
  - rewrite requeue_line_spec in E. ended E.
  - by_rest IH E.
Qed.

Lemma drain_within fuel : forall s o s',
  (lines_left s < fuel)%nat ->
  drain fuel s = (o, s') ->
  o <> OutOfFuel.
Proof.
  induction fuel as [|fuel IH]; intros s o s' Hs E; [lia|].
  cbn [drain] in E. unfold bind at 1 in E. rewrite for_next_eq in E.
  next_cases s; [|cbn in E; injection E as <- <-; discriminate].
  delivered s HU E. eapply IH; [|exact E]. lia.
Qed.

Lemma int_group_state m s : snd (int_group m s) = s /\ fst (int_group m s) <> OutOfFuel.
Proof.
  unfold int_group. destruct m as [g|]; [|split; [reflexivity|discriminate]].
  destruct (int_of_string g); split; try reflexivity; discriminate.
Qed.

Lemma process_steeplechase_cleanup_within fuel s o s' :
  (lines_left s <= fuel)%nat ->
  process_steeplechase_cleanup fuel s = (o, s') ->
  o <> OutOfFuel.
Proof.
  intros Hs E. unfold process_steeplechase_cleanup in E.
  unfold bind at 1 in E.
  next_cases s; [|cbn in E; injection E as <- <-; discriminate].
  delivered s HU E. unfold bind at 1 in E.
  match type of E with context [reader_next ?s0] => set (s1 := s0) in * end.
  next_cases s1; [|cbn in E; injection E as <- <-; discriminate].
  cbn iota in E. unfold bind at 1 in E.
  match type of E with
  | context [int_group ?m ?s0] =>
      destruct (int_group_state m s0) as [Hst Hno];
      destruct (int_group m s0) as [[v|e|] sx]; cbn in Hst, Hno;
      try congruence; subst sx
  end; try (cbn in E; injection E as <- <-; discriminate).
  cbn iota in E. unfold bind at 1 in E. state_simpl. unfold bind at 1 in E.
  match type of E with context [reader_next ?s0] => set (s2 := s0) in * end.
  next_cases s2; [|cbn in E; injection E as <- <-; discriminate].
  cbn iota in E. unfold bind at 1 in E.
  match type of E with
  | context [int_group ?m ?s0] =>
      destruct (int_group_state m s0) as [Hst' Hno'];
      destruct (int_group m s0) as [[v'|e|] sx]; cbn in Hst', Hno';
      try congruence; subst sx
  end; try (cbn in E; injection E as <- <-; discriminate).
  cbn iota in E. unfold bind at 1 in E. state_simpl.
  eapply drain_within; [|exact E].
  unfold lines_left in *. cbn in *.
  subst s1 s2. cbn in *. rewrite HU0 in *. cbn in *. rewrite HU1 in *. cbn in *.
  lia.
Qed.

Lemma process_log_within fuel s o s' :
  (lines_left s < fuel)%nat ->
  process_log dateutil_parse fuel s = (o, s') ->
  o <> OutOfFuel.
Proof.
  intros Hs E. unfold process_log in E. unfold bind at 1 in E.
  destruct (process_steeplechase_setup fuel s) as [[[]|e|] s1] eqn:E1;
    apply process_steeplechase_setup_within in E1 as [Ho1 Hl1]; try lia;
    try congruence.
  specialize (Hl1 I). unfold bind at 1 in E.
  destruct (process_client dateutil_parse fuel s1) as [[[]|e|] s2] eqn:E2;
    apply process_client_within in E2 as [Ho2 Hl2]; try lia;
    try congruence.
  specialize (Hl2 I). unfold bind at 1 in E.
  destruct (process_client dateutil_parse fuel s2) as [[[]|e|] s3] eqn:E3;
    apply process_client_within in E3 as [Ho3 Hl3]; try lia;
    try congruence.
  specialize (Hl3 I).
  eapply process_steeplechase_cleanup_within; [|exact E]. lia.
Qed.

Lemma parse_body_within fuel s :
  (lines_left s < fuel)%nat ->
  fst (parse_body dateutil_parse fuel s) <> OutOfFuel.
Proof.
  intros Hs. unfold parse_body. unfold bind at 1, try_except.
  destruct (process_log dateutil_parse fuel s) as [[[]|e|] s1] eqn:E1;
    apply process_log_within in E1; try lia; try congruence.
  - unfold bind at 1, client_session_runtime at 1, bind at 1, get_results.
    destruct (clients (st_results s1) !! 0%nat); cbn; [|discriminate].
    unfold bind at 1, client_session_runtime at 1, bind at 1, get_results.
    cbn. destruct (clients (st_results s1) !! 1%nat); cbn; discriminate.
  - destruct e as [[number|]| | | | |]; cbn; try discriminate.
    unfold bind at 1, client_session_runtime at 1, bind at 1, get_results.
    cbn. destruct (clients (st_results s1) !! 0%nat); cbn; [|discriminate].
    unfold bind at 1, client_session_runtime at 1, bind at 1, get_results.
    cbn. destruct (clients (st_results s1) !! 1%nat); cbn; discriminate.
Qed.

Lemma number_lines_length n ls : length (number_lines n ls) = length ls.
Proof.
  revert n. induction ls as [|l ls IH]; intros n; cbn; [reflexivity|].
  rewrite IH. reflexivity.
Qed.

(** [parse] ends: it returns a document or raises an exception. *)
Lemma parse_ends log module_list :
  fst (parse dateutil_parse log module_list) <> OutOfFuel.
Proof.
  unfold parse, parse_fuel.
  pose proof (parse_body_within (S (length log)) (initial_state log module_list))
    as H.
  destruct (parse_body dateutil_parse (S (length log))
              (initial_state log module_list)) as [o s].
  cbn in *. apply H. unfold lines_left. cbn. rewrite number_lines_length. lia.
Qed.

End Termination.
(** ** What the patterns find *)

Section Patterns.

Lemma lit_app p r : lit p (p ++ r) = Some r.
Proof.
  induction p as [|a p IH]; cbn; [reflexivity|].
  rewrite Ascii.eqb_refl. exact IH.
Qed.

(** The greedy [.*] may skip any text without a newline. *)
Lemma dotstar_skip {A} (k : string -> option A) pre t a :
  no_newline pre = true ->
  dotstar k t = Some a ->
  dotstar k (pre ++ t) = Some a.
Proof.
  intros Hpre Ht. induction pre as [|c pre IH]; cbn; [exact Ht|].
  cbn in Hpre. apply andb_true_iff in Hpre as [Hc Hpre].
  apply negb_true_iff in Hc. rewrite Hc, (IH Hpre). reflexivity.
Qed.

(** Where the literal does not occur, a pattern that starts with it
    matches at no position. *)
Lemma dotstar_absent {A} p (f : string -> option A) s :
  contains p s = false ->
  dotstar (fun t => match lit p t with Some r => f r | None => None end) s = None.
Proof.
  induction s as [|c s IH]; cbn [contains dotstar].
  - destruct (lit p EmptyString); [discriminate|reflexivity].
  - destruct (lit p (String c s)); [discriminate|].
    intros H. rewrite (IH H). destruct (is_newline c); reflexivity.
Qed.

Lemma dotstar_group_absent p s :
  contains p s = false -> dotstar_group (lit p) s = None.
Proof.
  induction s as [|c s IH]; cbn [contains dotstar_group].
  - destruct (lit p EmptyString); [discriminate|reflexivity].
  - destruct (lit p (String c s)); [discriminate|].
    intros H. rewrite (IH H). destruct (is_newline c); reflexivity.
Qed.

(** The greedy group takes the text up to the last occurrence of the
    literal that follows it. *)
Lemma dotstar_group_last c p g rest :
  no_newline g = true ->
  is_newline c = false ->
  contains (String c p) (p ++ rest) = false ->
  dotstar_group (lit (String c p)) (g ++ String c p ++ rest) = Some (g, rest).
Proof.
  intros Hg Hc Hrest. induction g as [|x g IH].
  - cbn [append dotstar_group]. rewrite Hc.
    rewrite (dotstar_group_absent _ _ Hrest).
    change (String c (p ++ rest)) with (String c p ++ rest)%string.
    rewrite lit_app. reflexivity.
  - cbn in Hg. apply andb_true_iff in Hg as [Hx Hg].
    apply negb_true_iff in Hx. specialize (IH Hg).
    remember (String c p ++ rest)%string as y.
    cbn [append dotstar_group]. rewrite Hx, IH. reflexivity.
Qed.

Lemma span_chars_all p a rest :
  string_forall p a = true ->
  match rest with EmptyString => true | String c _ => negb (p c) end = true ->
  span_chars p (a ++ rest) = (a, rest).
Proof.
  intros Ha Hrest. induction a as [|x a IH]; cbn [append span_chars].
  - destruct rest as [|c rest]; [reflexivity|].
    cbn. apply negb_true_iff in Hrest. rewrite Hrest. reflexivity.
  - cbn in Ha. apply andb_true_iff in Ha as [Hx Ha].
    rewrite Hx, (IH Ha). reflexivity.
Qed.

(** A pattern that starts with [.*] and a literal, applied to a line:
    what follows the literal is matched right after its last
    occurrence. *)
Lemma dotstar_last {A} c p (f : string -> option A) pre y a :
  no_newline pre = true ->
  is_newline c = false ->
  contains (String c p) (p ++ y) = false ->
  f y = Some a ->
  dotstar (fun t => match lit (String c p) t with Some r => f r | None => None end)
    (pre ++ String c p ++ y)
  = Some a.
Proof.
  intros Hpre Hc Hy Ef.
  apply dotstar_skip; [exact Hpre|].
  cbn [append dotstar]. rewrite Hc.
  rewrite (dotstar_absent _ f _ Hy).
  change (String c (p ++ y)) with (String c p ++ y)%string.
  rewrite lit_app. exact Ef.
Qed.

(** Where one continuation matches another does: so for the whole
    pattern. *)
Lemma dotstar_mono {A B} (k1 : string -> option A) (k2 : string -> option B) s :
  (forall t, REGEXPS.is_some (k1 t) = true -> REGEXPS.is_some (k2 t) = true) ->
  REGEXPS.is_some (dotstar k1 s) = true ->
  REGEXPS.is_some (dotstar k2 s) = true.
Proof.
  intros Hk. induction s as [|c s IH]; cbn [dotstar]; [apply Hk|].
  destruct (is_newline c); [apply Hk|].
  destruct (dotstar k1 s) as [a|].
  - intros _. destruct (dotstar k2 s); [reflexivity|].
    discriminate (IH eq_refl).
  - intros H. destruct (dotstar k2 s); [reflexivity|]. apply Hk, H.
Qed.

(** X1: the client start pattern finds the name of the client: in a line
    that holds the marker once, the name is the text between the marker
    and the last colon of the line, colons of its own included. *)
Theorem client_start_finds_name pre client_name rest :
  no_newline pre = true ->
  no_newline client_name = true ->
  contains "Log output for " (client_name ++ ":" ++ rest) = false ->
  contains ":" rest = false ->
  REGEXPS.client_start (pre ++ "Log output for " ++ client_name ++ ":" ++ rest)
  = Some client_name.
Proof.
  intros Hpre Hname Honce Hrest. unfold REGEXPS.client_start.
  apply (dotstar_last "L" "og output for "
           (fun r => option_map fst (dotstar_group (lit ":") r)) pre
           (client_name ++ ":" ++ rest) client_name Hpre eq_refl).
  - cbn. exact Honce.
  - rewrite (dotstar_group_last ":" EmptyString client_name rest Hname eq_refl Hrest).
    reflexivity.
Qed.

(** X2: the stats block pattern finds the timestamp of the block: in a
    header that holds the marker once, the timestamp is the text between
    the marker and the last closing parenthesis followed by a colon, so
    that the colons of a time of day belong to it. *)
Theorem stats_block_finds_timestamp pre ts rest :
  no_newline pre = true ->
  no_newline ts = true ->
  contains "STATS (" (ts ++ "):" ++ rest) = false ->
  contains "):" rest = false ->
  REGEXPS.stats_block (pre ++ "STATS (" ++ ts ++ "):" ++ rest) = Some ts.
Proof.
  intros Hpre Hts Honce Hrest. unfold REGEXPS.stats_block.
  apply (dotstar_last "S" "TATS ("
           (fun r => option_map fst (dotstar_group (lit "):") r)) pre
           (ts ++ "):" ++ rest) ts Hpre eq_refl).
  - cbn. exact Honce.
  - rewrite (dotstar_group_last ")" ":" ts rest Hts eq_refl).
    + reflexivity.
    + cbn. exact Hrest.
Qed.

Lemma digits_value_Some d : forall acc,
  string_forall is_digit d = true -> exists v, digits_value acc d = Some v.
Proof.
  induction d as [|c d IH]; intros acc Hd; cbn [digits_value]; [eauto|].
  cbn in Hd. apply andb_true_iff in Hd as [Hc Hd]. rewrite Hc. apply IH, Hd.
Qed.

(** X3: the patterns of the totals find the count: in a line that holds
    the marker once, the group is the run of digits after the marker,
    and [int] reads a number from it unless the run is empty. *)
Theorem totals_find_count (passed : bool) pre digits rest :
  no_newline pre = true ->
  string_forall is_digit digits = true ->
  no_digit_ahead rest = true ->
  contains (if passed then "Passed: " else "Failed: ") (digits ++ rest) = false ->
  (if passed then REGEXPS.total_passed else REGEXPS.total_failed)
    (pre ++ (if passed then "Passed: " else "Failed: ") ++ digits ++ rest)%string
  = Some digits
  /\ (int_of_string digits = None <-> digits = EmptyString).
Proof.
  intros Hpre Hd Hrest Honce. split.
  - assert (Hspan : span_chars is_digit (digits ++ rest) = (digits, rest)).
    { apply span_chars_all; [exact Hd|]. destruct rest; exact Hrest. }
    destruct passed.
    + unfold REGEXPS.total_passed.
      apply (dotstar_last "P" "assed: "
               (fun r => Some (fst (span_chars is_digit r))) pre
               (digits ++ rest) digits Hpre eq_refl).
      * cbn. exact Honce.
      * rewrite Hspan. reflexivity.
    + unfold REGEXPS.total_failed.
      apply (dotstar_last "F" "ailed: "
               (fun r => Some (fst (span_chars is_digit r))) pre
               (digits ++ rest) digits Hpre eq_refl).
      * cbn. exact Honce.
      * rewrite Hspan. reflexivity.
  - split; [|intros ->; reflexivity].
    destruct digits as [|c d]; [reflexivity|].
    unfold int_of_string. intros H.
    destruct (digits_value_Some (String c d) 0 Hd) as (v & Hv). congruence.
Qed.

(** X4: a line that the test failure pattern matches is a test-result
    line, and a test-result line is not a blank line: inside a stats
    block an unexpected failure is read as a test result, and no test
    result ends the run of blank lines before the results. *)
Theorem failure_lines_are_result_lines line :
  REGEXPS.test_failure line = true ->
  REGEXPS.is_some (REGEXPS.test_result line) = true
  /\ REGEXPS.blank line = false.
Proof.
  intros H.
  assert (Hr : REGEXPS.is_some (REGEXPS.test_result line) = true).
  { unfold REGEXPS.test_failure in H. unfold REGEXPS.test_result.
    revert H. apply dotstar_mono. intros t Ht.
    destruct (lit _ t) as [r|] eqn:E; [|discriminate].
    apply lit_Some in E. subst t. reflexivity. }
  split; [exact Hr|].
  apply (test_result_not_blank (0, line)). exact Hr.
Qed.

End Patterns.
(** ** The reader at its edges *)

Section ReaderEdges.

Lemma reads_on_upcoming g :
  reads_on g -> upcoming g = number_lines (current_number g) (file g).
Proof.
  unfold reads_on, upcoming, current_number.
  destruct (frame g); intros H; try contradiction; reflexivity.
Qed.

(** A new line is read when the reader holds no requeued line. *)
Lemma reader_next_reads_on s line rest :
  reads_on (st_reader s) ->
  file (st_reader s) = line :: rest ->
  reader_next s =
  (Return (current_number (st_reader s) + 1, strip line),
   mk_state (mk_gen (GenYieldLine (current_number (st_reader s) + 1) line) rest)
     (st_anomalies s ++ scan (current_number (st_reader s) + 1) line)
     (st_results s) (st_timing s)).
Proof.
  intros Hr Hf. destruct s as [[fr fl] an rs tm]. cbn in Hf. subst fl.
  apply (reader_next_new fr line rest); [reflexivity| |];
    unfold reads_on in Hr; cbn in Hr; destruct fr; try contradiction; congruence.
Qed.

Lemma reader_next_reads_on_eof s :
  reads_on (st_reader s) ->
  file (st_reader s) = [] ->
  reader_next s =
  (Raise (StopIteration (Some (current_number (st_reader s)))),
   mk_state (mk_gen GenFinished []) (st_anomalies s) (st_results s) (st_timing s)).
Proof.
  intros Hr Hf. destruct s as [[fr fl] an rs tm]. cbn in Hf. subst fl.
  apply (reader_next_eof fr); [reflexivity| |];
    unfold reads_on in Hr; cbn in Hr; destruct fr; try contradiction; congruence.
Qed.

(** X5: an exhausted reader stays exhausted.  The only exception
    [next()] raises is StopIteration; the call that runs into the end of
    the file carries the number of the last line read, and every later
    [next()] and [requeue_line] raises StopIteration with no argument and
    changes nothing. *)
Theorem exhausted_reader_stays_exhausted s e s' :
  reader_next s = (Raise e, s') ->
  e = StopIteration (match frame (st_reader s) with
                     | GenFinished => None
                     | _ => Some (current_number (st_reader s))
                     end)
  /\ st_anomalies s' = st_anomalies s
  /\ reader_next s' = (Raise (StopIteration None), s')
  /\ requeue_line s' = (Raise (StopIteration None), s').
Proof.
  destruct s as [[fr fl] an rs tm]. intros E.
  destruct fr as [|n l|n l|].
  - destruct fl as [|line rest].
    + erewrite reader_next_eof in E; [|reflexivity|congruence|congruence].
      injection E as <- <-. auto.
    + erewrite reader_next_new in E; [|reflexivity|congruence|congruence].
      discriminate.
  - destruct fl as [|line rest].
    + erewrite reader_next_eof in E; [|reflexivity|congruence|congruence].
      injection E as <- <-. auto.
    + erewrite reader_next_new in E; [|reflexivity|congruence|congruence].
      discriminate.
  - erewrite reader_next_replay in E; [|reflexivity]. discriminate.
  - erewrite reader_next_finished in E; [|reflexivity].
    injection E as <- <-. auto.
Qed.

(** X6: requeueing is idempotent, and it needs a delivered line.  After
    a delivery, a second [requeue_line] changes nothing more than the
    first: the [next()] that follows delivers the line once, and the one
    after it goes on in the file.  Before the first [next()], on the
    generator just created, [requeue_line] raises TypeError. *)
Theorem requeue_twice_replays_once s p s1 :
  reader_next s = (Return p, s1) ->
  (exists s2,
     requeue_line s1 = (Return tt, s2)
     /\ requeue_line s2 = (Return tt, s2)
     /\ reader_next s2 = (Return p, s1)
     /\ upcoming (st_reader s2) = p :: upcoming (st_reader s1))
  /\ reads_on (st_reader s1)
  /\ forall s0, frame (st_reader s0) = GenCreated ->
                requeue_line s0 = (Raise TypeError, s0).
Proof.
  intros E. pose proof (reader_next_spec s) as H. rewrite E in H.
  inversion H as [n line rest added HU Hadd Hp|]; subst.
  split; [|split].
  - eexists. split; [apply requeue_line_spec|].
    split; [reflexivity|].
    split; [erewrite reader_next_replay; reflexivity|reflexivity].
  - exact I.
  - intros [[fr fl] an rs tm] Hf. cbn in Hf. subst fr. reflexivity.
Qed.

(** Reading to the end of the file, whatever the lines are: the scan of
    each is recorded, in order. *)
Lemma drain_reads_on fuel : forall s,
  reads_on (st_reader s) ->
  (length (file (st_reader s)) < fuel)%nat ->
  drain fuel s
  = (Return tt,
     mk_state (mk_gen GenFinished [])
       (st_anomalies s
        ++ scan_lines (current_number (st_reader s)) (file (st_reader s)))
       (st_results s) (st_timing s)).
Proof.
  induction fuel as [|fuel IH]; intros s Hr Hfuel; [lia|].
  cbn [drain]. unfold bind at 1. rewrite for_next_eq.
  destruct (file (st_reader s)) as [|line rest] eqn:Hf.
  - rewrite (reader_next_reads_on_eof s Hr Hf). cbn. rewrite app_nil_r.
    reflexivity.
  - rewrite (reader_next_reads_on s line rest Hr Hf). cbn iota.
    rewrite IH; [|exact I|cbn in *; lia].
    cbn. rewrite <- app_assoc. reflexivity.
Qed.

End ReaderEdges.
(** ** The harness stages *)

Section Harness.

Variable dateutil_parse : string -> option Z.

(** The harness setup skips the lines before the first client start
    marker and requeues the marker line. *)
Lemma steeplechase_setup_spec fuel : forall pre s p post,
  upcoming (st_reader s) = pre ++ p :: post ->
  Forall not_client_start pre ->
  REGEXPS.is_some (REGEXPS.client_start (snd p)) = true ->
  (length pre < fuel)%nat ->
  exists s' s'',
    process_steeplechase_setup fuel s = (Return tt, s')
    /\ only_read s s'
    /\ upcoming (st_reader s') = p :: post
    /\ reader_next s' = (Return p, s'')
    /\ upcoming (st_reader s'') = post
    /\ reads_on (st_reader s'').
Proof.
  induction fuel as [|fuel IH]; intros pre s p post Hup Hpre Hp Hfuel; [lia|].
  cbn [process_steeplechase_setup]. unfold bind at 1. rewrite for_next_eq.
  destruct pre as [|q pre]; cbn [app] in Hup;
    next_cases s; rewrite HU in Hup; try discriminate;
    injection Hup as Hq Hrest; cbn iota.
  - subst p. cbn [snd] in Hp. rewrite Hp. rewrite requeue_line_spec.
    eexists _, _. split; [reflexivity|].
    split; [eapply only_read_delivery; eauto|].
    split; [cbn; rewrite Hrest; reflexivity|].
    split; [erewrite reader_next_replay; reflexivity|].
    split; [cbn; exact Hrest|exact I].
  - inversion Hpre as [|? ? Hq1 Hpre']; subst.
    unfold not_client_start in Hq1. cbn [snd] in Hq1. rewrite Hq1. cbn [REGEXPS.is_some].
    match goal with
    | |- context [process_steeplechase_setup fuel ?s1] =>
        destruct (IH pre s1 p post) as (s' & s'' & E & Hro & Hrest' & En & HU' & Hr);
          [exact Hrest | exact Hpre' | exact Hp | cbn in Hfuel; lia | ]
    end.
    rewrite E. exists s', s''. split; [reflexivity|].
    split; [|auto].
    eapply only_read_trans; [|exact Hro]. eapply only_read_delivery; eauto.
Qed.

(** X7: the harness setup skips the lines before the first client start
    marker and requeues the marker line: it changes neither the results
    nor the time tracking, and the next [next()] delivers the marker
    line again, after which the reader goes on in the file. *)
Theorem steeplechase_setup_stops_at_first_client fuel pre s p post :
  upcoming (st_reader s) = pre ++ p :: post ->
  Forall not_client_start pre ->
  REGEXPS.is_some (REGEXPS.client_start (snd p)) = true ->
  (length pre < fuel)%nat ->
  exists s' s'',
    process_steeplechase_setup fuel s = (Return tt, s')
    /\ only_read s s'
    /\ reader_next s' = (Return p, s'')
    /\ upcoming (st_reader s'') = post
    /\ reads_on (st_reader s'').
Proof.
  intros Hup Hpre Hp Hfuel.
  destruct (steeplechase_setup_spec fuel pre s p post Hup Hpre Hp Hfuel)
    as (s' & s'' & E & Hro & _ & En & HU & Hr).
  exists s', s''. auto.
Qed.

(** Without a client start marker the harness setup reads the file to
    its end and returns: its [for] loop swallows the StopIteration. *)
Lemma steeplechase_setup_reads_to_end fuel : forall s,
  reads_on (st_reader s) ->
  Forall (fun l => REGEXPS.client_start (strip l) = None) (file (st_reader s)) ->
  (length (file (st_reader s)) < fuel)%nat ->
  process_steeplechase_setup fuel s
  = (Return tt,
     mk_state (mk_gen GenFinished [])
       (st_anomalies s
        ++ scan_lines (current_number (st_reader s)) (file (st_reader s)))
       (st_results s) (st_timing s)).
Proof.
  induction fuel as [|fuel IH]; intros s Hr Hall Hfuel; [lia|].
  cbn [process_steeplechase_setup]. unfold bind at 1. rewrite for_next_eq.
  destruct (file (st_reader s)) as [|line rest] eqn:Hf.
  - rewrite (reader_next_reads_on_eof s Hr Hf). cbn. rewrite app_nil_r.
    reflexivity.
  - rewrite (reader_next_reads_on s line rest Hr Hf). cbn iota.
    inversion Hall as [|? ? H1 Hall']; subst. rewrite H1. cbn [REGEXPS.is_some].
    rewrite IH; [|exact I|exact Hall'|cbn in *; lia].
    cbn. rewrite <- app_assoc. reflexivity.
Qed.

(** X8: a log in which no line holds a client start marker makes [parse]
    raise IndexError, whatever else it holds: the harness setup reads the
    file to its end, the first [process_client] runs into the exhausted
    reader, and the StopIteration it raises carries no line number for
    [parse] to record.  No document is returned; the harness error lines
    of the file are recorded as anomalies all the same. *)
Theorem log_without_client_raises_IndexError log module_list :
  Forall (fun l => REGEXPS.client_start (strip l) = None) log ->
  parse dateutil_parse log module_list
  = (Raise IndexError, module_list ++ scan_lines 0 log).
Proof.
  intros Hall. unfold parse, parse_fuel, parse_body, process_log.
  unfold bind at 1, try_except. unfold bind at 1.
  rewrite steeplechase_setup_reads_to_end; [|exact I|exact Hall|cbn; lia].
  reflexivity.
Qed.

(** X9: the harness cleanup on a file that goes on with a line to skip,
    the line of the passed total and the line of the failed total: it
    stores the two counts, changes nothing else of the results, and
    reads the rest of the file to its end, so that the reader scans every
    remaining line for harness errors. *)
Theorem steeplechase_cleanup_reads_totals
  fuel s skipped passed_line failed_line rest gp vp gf vf :
  reads_on (st_reader s) ->
  file (st_reader s) = skipped :: passed_line :: failed_line :: rest ->
  REGEXPS.total_passed (strip passed_line) = Some gp ->
  int_of_string gp = Some vp ->
  REGEXPS.total_failed (strip failed_line) = Some gf ->
  int_of_string gf = Some vf ->
  (length rest < fuel)%nat ->
  process_steeplechase_cleanup fuel s
  = (Return tt,
     mk_state (mk_gen GenFinished [])
       (st_anomalies s
        ++ scan_lines (current_number (st_reader s)) (file (st_reader s)))
       (set_total_failed (Some vf) (set_total_passed (Some vp) (st_results s)))
       (st_timing s)).
Proof.
  intros Hr Hf Hgp Hvp Hgf Hvf Hfuel. unfold process_steeplechase_cleanup.
  unfold bind at 1. rewrite (reader_next_reads_on s _ _ Hr Hf). cbn iota.
  unfold bind at 1. erewrite reader_next_reads_on; [|exact I|reflexivity].
  cbn iota. rewrite Hgp. unfold bind at 1, int_group at 1. rewrite Hvp.
  cbn [ret]. cbn iota. unfold bind at 1. cbn [modify_results]. cbn iota.
  unfold bind at 1. erewrite reader_next_reads_on; [|exact I|reflexivity].
  cbn iota. rewrite Hgf. unfold bind at 1, int_group at 1. rewrite Hvf.
  cbn [ret]. cbn iota. unfold bind at 1. cbn [modify_results]. cbn iota.
  rewrite drain_reads_on; [|exact I|exact Hfuel].
  rewrite Hf. cbn. rewrite <- !app_assoc. reflexivity.
Qed.

(** X10: how the harness cleanup fails.  When fewer than two lines are
    left, or two of which the second holds a passed total, it raises the
    StopIteration of the reader, which carries the number of the last
    line of the file; the passed total it read before is stored.  On a
    second line without the marker of the passed total it raises
    AttributeError, and on one with the marker and no digit after it
    ValueError, in both cases with the results as they were. *)
Theorem steeplechase_cleanup_failures fuel s :
  reads_on (st_reader s) ->
  ((length (file (st_reader s)) < 2)%nat ->
   fst (process_steeplechase_cleanup fuel s)
   = Raise (StopIteration
              (Some (current_number (st_reader s)
                     + Z.of_nat (length (file (st_reader s))))))
   /\ st_results (snd (process_steeplechase_cleanup fuel s)) = st_results s)
  /\ (forall skipped passed_line gp vp,
        file (st_reader s) = [skipped; passed_line] ->
        REGEXPS.total_passed (strip passed_line) = Some gp ->
        int_of_string gp = Some vp ->
        fst (process_steeplechase_cleanup fuel s)
        = Raise (StopIteration (Some (current_number (st_reader s) + 2)))
        /\ st_results (snd (process_steeplechase_cleanup fuel s))
           = set_total_passed (Some vp) (st_results s))
  /\ (forall skipped passed_line rest,
        file (st_reader s) = skipped :: passed_line :: rest ->
        (REGEXPS.total_passed (strip passed_line) = None ->
         fst (process_steeplechase_cleanup fuel s) = Raise AttributeError
         /\ st_results (snd (process_steeplechase_cleanup fuel s)) = st_results s)
        /\ (REGEXPS.total_passed (strip passed_line) = Some EmptyString ->
            fst (process_steeplechase_cleanup fuel s) = Raise ValueError
            /\ st_results (snd (process_steeplechase_cleanup fuel s))
               = st_results s)).
Proof.
  intros Hr. split; [|split].
  - intros Hlen.
    destruct (file (st_reader s)) as [|l0 [|l1 rest]] eqn:Hf; [| |cbn in Hlen; lia].
    + assert (E : process_steeplechase_cleanup fuel s
                  = (Raise (StopIteration (Some (current_number (st_reader s)))),
                     mk_state (mk_gen GenFinished []) (st_anomalies s)
                       (st_results s) (st_timing s))).
      { unfold process_steeplechase_cleanup. unfold bind at 1.
        rewrite (reader_next_reads_on_eof s Hr Hf). reflexivity. }
      rewrite E. cbn. rewrite Z.add_0_r. auto.
    + assert (E : process_steeplechase_cleanup fuel s
                  = (Raise (StopIteration (Some (current_number (st_reader s) + 1))),
                     mk_state (mk_gen GenFinished [])
                       (st_anomalies s ++ scan (current_number (st_reader s) + 1) l0)
                       (st_results s) (st_timing s))).
      { unfold process_steeplechase_cleanup. unfold bind at 1.
        rewrite (reader_next_reads_on s _ _ Hr Hf). cbn iota. unfold bind at 1.
        erewrite reader_next_reads_on_eof; [|exact I|reflexivity]. reflexivity. }
      rewrite E. cbn. auto.
  - intros skipped passed_line gp vp Hf Hgp Hvp.
    assert (E : process_steeplechase_cleanup fuel s
                = (Raise (StopIteration (Some (current_number (st_reader s) + 1 + 1))),
                   mk_state (mk_gen GenFinished [])
                     ((st_anomalies s ++ scan (current_number (st_reader s) + 1) skipped)
                      ++ scan (current_number (st_reader s) + 1 + 1) passed_line)
                     (set_total_passed (Some vp) (st_results s)) (st_timing s))).
    { unfold process_steeplechase_cleanup. unfold bind at 1.
      rewrite (reader_next_reads_on s _ _ Hr Hf). cbn iota.
      unfold bind at 1. erewrite reader_next_reads_on; [|exact I|reflexivity].
      cbn iota. rewrite Hgp. unfold bind at 1, int_group. rewrite Hvp.
      cbn [ret]. cbn iota. unfold bind at 1. cbn [modify_results]. cbn iota.
      unfold bind at 1.
      erewrite reader_next_reads_on_eof; [|exact I|reflexivity]. reflexivity. }
    rewrite E. cbn. split; [do 3 f_equal; lia|reflexivity].
  - intros skipped passed_line rest Hf.
    assert (E : process_steeplechase_cleanup fuel s
                = bind (int_group (REGEXPS.total_passed (strip passed_line)))
                    (fun passed =>
                       bind (modify_results (set_total_passed (Some passed)))
                         (fun _ =>
                            bind reader_next
                              (fun x =>
                                 bind (int_group (REGEXPS.total_failed (snd x)))
                                   (fun failed =>
                                      bind (modify_results (set_total_failed (Some failed)))
                                        (fun _ => drain fuel)))))
                    (mk_state (mk_gen (GenYieldLine (current_number (st_reader s) + 1 + 1)
                                         passed_line) rest)
                       ((st_anomalies s ++ scan (current_number (st_reader s) + 1) skipped)
                        ++ scan (current_number (st_reader s) + 1 + 1) passed_line)
                       (st_results s) (st_timing s))).
    { unfold process_steeplechase_cleanup. unfold bind at 1.
      rewrite (reader_next_reads_on s _ _ Hr Hf). cbn iota.
      unfold bind at 1. erewrite reader_next_reads_on; [|exact I|reflexivity].
      cbn iota. unfold bind at 1 6.
      destruct (int_group _ _) as [[v|e|] s1]; [|reflexivity|reflexivity].
      unfold bind at 1 5. cbn [modify_results]. cbn iota.
      unfold bind at 1 4. destruct (reader_next _) as [[[n l]|e|] s2]; reflexivity. }
    rewrite E. split; intros ->; cbn; auto.
Qed.

End Harness.
(** ** A whole session *)

Section Session.

Variable dateutil_parse : string -> option Z.

Lemma alter_as_insert {A} (f : A -> A) i (l : list A) x :
  l !! i = Some x -> alter f i l = <[i := f x]> l.
Proof.
  intros H. apply list_eq. intros j. destruct (decide (i = j)) as [->|Hne].
  - rewrite list_lookup_alter_eq, H, list_lookup_insert_eq;
      [reflexivity|eapply lookup_lt_Some; eauto].
  - rewrite list_lookup_alter_ne, list_lookup_insert_ne by exact Hne.
    reflexivity.
Qed.

Lemma with_client_same i c r : clients r !! i = Some c -> with_client i c r = r.
Proof.
  intros H. unfold with_client. rewrite list_insert_id by exact H.
  destruct r; reflexivity.
Qed.

Lemma with_client_twice i c c' r :
  with_client i c' (with_client i c r) = with_client i c' r.
Proof.
  unfold with_client. cbn. rewrite list_insert_insert_eq. reflexivity.
Qed.

Lemma with_client_lookup i c c0 r :
  clients r !! i = Some c0 -> clients (with_client i c r) !! i = Some c.
Proof.
  intros H. cbn. apply list_lookup_insert_eq. eapply lookup_lt_Some; eauto.
Qed.

Lemma modify_client_with i f c s :
  clients (st_results s) !! i = Some c ->
  modify_client i f s
  = (Return tt,
     mk_state (st_reader s) (st_anomalies s) (with_client i (f c) (st_results s))
       (st_timing s)).
Proof.
  intros H. unfold modify_client, modify_results, with_client.
  rewrite (alter_as_insert f i _ c H). reflexivity.
Qed.

(** The line after the items of a session. *)
Lemma session_lines_next rest finish post :
  exists tl,
    session_lines rest ++ finish :: post = next_head rest finish :: tl.
Proof.
  destruct rest as [|[p|h ts dt st bl te] rest]; cbn; eauto.
Qed.

(** A stats block of the session, whose header the loop has just read,
    with all it changes. *)
Lemma session_stats_block_spec fuel i s n raw ts dt c b stats blanks tests stop post :
  st_reader s = mk_gen (GenYieldLine n raw) (file (st_reader s)) ->
  REGEXPS.stats_block (strip raw) = Some ts ->
  dateutil_parse ts = Some dt ->
  upcoming (st_reader s) = stats ++ blanks ++ tests ++ stop :: post ->
  clients (st_results s) !! i = Some c ->
  blocks c = Some b ->
  Forall not_blank stats -> blanks <> [] -> Forall is_blank blanks ->
  Forall is_test_result tests ->
  REGEXPS.test_result (snd stop) = None -> not_blank stop ->
  (length stats + length blanks + length tests < fuel)%nat ->
  exists s',
    session_stats_block dateutil_parse fuel i s = (Return tt, s')
    /\ st_timing s' = track dt (block_passed tests) (st_timing s)
    /\ st_results s'
       = with_client i
           (match List.filter failing tests with
            | [] => set_blocks (Some (b + 1)) c
            | x :: failed =>
                append_failed_block (mk_block ts (x :: failed))
                  (set_blocks (Some (b + 1)) c)
            end) (st_results s)
    /\ upcoming (st_reader s') = stop :: post
    /\ only_scans s s'.
Proof.
  intros Hr Hts Hdt Hup Hc Hb Hs Hne Hbl Ht Hstop Hnb Hfuel.
  unfold session_stats_block. unfold bind at 1.
  destruct s as [g an rs tm]. cbn [st_reader st_results st_timing] in *.
  rewrite Hr. rewrite requeue_line_spec. cbn iota.
  unfold bind at 1, get_client. cbn [st_results]. rewrite Hc. cbn iota.
  rewrite Hb. unfold bind at 1.
  rewrite (modify_client_with i _ c) by exact Hc. cbn iota.
  cbn [st_reader st_anomalies st_results st_timing].
  unfold bind at 1.
  match goal with
  | |- context [process_stats_block fuel i false ?s1] =>
      destruct (process_stats_block_spec fuel i false s1 (n, strip raw) ts
                  stats blanks tests stop post)
        as (s' & E & HU' & _ & Hsc & Htm & Hres); auto
  end.
  { cbn. rewrite Hr in Hup. cbn in Hup. rewrite Hup. reflexivity. }
  rewrite E. cbn iota. rewrite Hdt. cbn in Htm, Hres.
  unfold bind, get_timing, put_timing. rewrite Htm.
  eexists. split; [reflexivity|].
  cbn [st_timing st_results st_reader].
  split; [reflexivity|]. split; [|split; [exact HU'|]].
  - rewrite Hres. unfold block_passed.
    destruct (List.filter failing tests) as [|x failed]; [reflexivity|].
    cbn [clients with_client set_clients].
    rewrite (alter_as_insert _ i _ (set_blocks (Some (b + 1)) c)).
    + rewrite list_insert_insert_eq. reflexivity.
    + apply list_lookup_insert_eq. eapply lookup_lt_Some; eauto.
  - destruct Hsc as (added & Ha & Hf). exists added. cbn in *. auto.
Qed.

(** The summary of a session is built item by item. *)
Lemma session_summary_nil c : blocks c <> None -> session_summary [] c = c.
Proof.
  intros Hb. unfold session_summary. cbn. destruct c as [nm [b|] sr lp sf cf ssf fb];
    cbn in *; [|congruence].
  rewrite Z.add_0_r, !app_nil_r. reflexivity.
Qed.

Lemma session_summary_line p rest c :
  session_summary (Line p :: rest) c
  = session_summary rest
      (if is_test_failure p then append_session_failure p c else c).
Proof.
  unfold session_summary. cbn [map item_head item_outcomes concat app List.filter
                                item_failed_blocks].
  destruct (is_test_failure p); cbn; [|reflexivity].
  rewrite <- app_assoc. reflexivity.
Qed.

Lemma session_summary_block h ts dt st bl te rest c b :
  blocks c = Some b ->
  session_summary (Block h ts dt st bl te :: rest) c
  = session_summary rest
      (let c1 := match List.filter failing te with
                 | [] => set_blocks (Some (b + 1)) c
                 | x :: failed =>
                     append_failed_block (mk_block ts (x :: failed))
                       (set_blocks (Some (b + 1)) c)
                 end in
       if is_test_failure h then append_session_failure h c1 else c1).
Proof.
  intros Hb. unfold session_summary.
  cbn [map item_head concat List.filter].
  unfold item_outcomes, item_failed_blocks. cbn [map concat]. rewrite Hb.
  cbn [app length].
  assert (Hz : b + Z.of_nat (S (length (item_outcomes rest)))
               = b + 1 + Z.of_nat (length (item_outcomes rest))) by lia.
  unfold item_outcomes in Hz. rewrite Hz.
  destruct (List.filter failing te) as [|x failed], (is_test_failure h); cbn;
    rewrite <- ?app_assoc; reflexivity.
Qed.

Lemma only_scans_results s r :
  only_scans s (mk_state (st_reader s) (st_anomalies s) r (st_timing s)).
Proof. exists []. cbn. rewrite app_nil_r. auto. Qed.

(** The session loop on a session of [items] that the line [finish]
    ends, as the end of the test or as the end of the client. *)
Lemma session_loop_spec finish post : forall items fuel i s c,
  upcoming (st_reader s) = session_lines items ++ finish :: post ->
  session_ok dateutil_parse items finish ->
  ends_loop finish ->
  clients (st_results s) !! i = Some c ->
  blocks c <> None ->
  (length (session_lines items) < fuel)%nat ->
  exists s',
    session_loop dateutil_parse fuel i s = (loop_outcome finish, s')
    /\ upcoming (st_reader s') = post
    /\ reads_on (st_reader s')
    /\ st_timing s' = track_all (item_outcomes items) (st_timing s)
    /\ st_results s' = with_client i (session_summary items c) (st_results s)
    /\ only_scans s s'.
Proof.
  induction items as [|it items IH]; intros fuel i s c Hup Hok Hfin Hc Hb Hfuel;
    (destruct fuel as [|fuel]; [cbn in Hfuel; lia|]);
    cbn [session_loop]; unfold bind at 1.
  - cbn in Hup. next_cases s; rewrite HU in Hup; try discriminate.
    injection Hup as Hp Hrest. cbn iota.
    unfold ends_loop in Hfin. unfold loop_outcome.
    rewrite <- Hp in Hfin |- *. cbn [fst snd] in Hfin |- *.
    assert (Hsum : st_results s = with_client i (session_summary [] c) (st_results s)).
    { rewrite session_summary_nil by exact Hb.
      symmetry. apply with_client_same, Hc. }
    destruct (REGEXPS.client_end (strip line)) eqn:Hce.
    + eexists. split; [reflexivity|]. cbn.
      split; [exact Hrest|]. split; [exact I|]. split; [reflexivity|].
      split; [exact Hsum|]. eapply only_read_delivery; eauto.
    + destruct Hfin as [Hf|Hf]; [discriminate|]. rewrite Hf.
      eexists. split; [reflexivity|]. cbn.
      split; [exact Hrest|]. split; [exact I|]. split; [reflexivity|].
      split; [exact Hsum|]. eapply only_read_delivery; eauto.
  - destruct Hok as [Hit Hok].
    destruct it as [p|h ts dt st bl te].
    + destruct Hit as [[Hce Htf] Hsb].
      cbn [session_lines map item_lines concat app] in Hup.
      next_cases s; rewrite HU in Hup; try discriminate.
      injection Hup as Hp Hrest. cbn iota.
      rewrite <- Hp in Hce, Htf, Hsb. cbn [snd] in Hce, Htf, Hsb.
      rewrite Hce, Htf, Hsb. cbn [REGEXPS.is_some].
      unfold bind at 1. cbn [ret]. cbn iota. unfold bind at 1.
      rewrite session_summary_line. unfold is_test_failure at 1.
      rewrite <- Hp. cbn [snd].
      destruct (REGEXPS.test_failure (strip line)).
      * rewrite (modify_client_with i _ c) by exact Hc. cbn iota.
        match goal with
        | |- context [session_loop dateutil_parse fuel i ?s1] =>
            destruct (IH fuel i s1 (append_session_failure (n, strip line) c))
              as (s' & E & HU' & Hro & Htm & Hres & Hsc);
              [exact Hrest | exact Hok | exact Hfin
              | cbn; eapply with_client_lookup; eauto
              | exact Hb
              | cbn in Hfuel |- *; unfold session_lines in *; cbn in Hfuel; lia | ]
        end.
        rewrite E. eexists. split; [reflexivity|].
        split; [exact HU'|]. split; [exact Hro|]. split; [exact Htm|].
        split; [rewrite Hres; cbn [st_results]; apply with_client_twice|].
        eapply only_scans_trans; [|exact Hsc].
        eapply only_scans_trans; [eapply only_read_delivery; eauto|].
        apply only_scans_results.
      * cbn [ret]. cbn iota.
        match goal with
        | |- context [session_loop dateutil_parse fuel i ?s1] =>
            destruct (IH fuel i s1 c)
              as (s' & E & HU' & Hro & Htm & Hres & Hsc);
              [exact Hrest | exact Hok | exact Hfin | exact Hc | exact Hb
              | cbn in Hfuel |- *; unfold session_lines in *; cbn in Hfuel; lia | ]
        end.
        rewrite E. eexists. split; [reflexivity|].
        split; [exact HU'|]. split; [exact Hro|]. split; [exact Htm|].
        split; [exact Hres|].
        eapply only_scans_trans; [|exact Hsc].
        eapply only_read_delivery; eauto.
    + destruct Hit as ([Hce Htf] & Hsb & Hdt & Hst & Hne & Hbl & Hte & Hstop & Hnb).
      destruct (blocks c) as [b|] eqn:Hbc; [|congruence].
      cbn [session_lines map item_lines concat app] in Hup.
      next_cases s; rewrite HU in Hup; try discriminate.
      injection Hup as Hp Hrest. cbn iota.
      rewrite <- Hp in Hce, Htf, Hsb. cbn [snd] in Hce, Htf, Hsb.
      rewrite Hce, Htf, Hsb. cbn [REGEXPS.is_some].
      destruct (session_lines_next items finish post) as (tl & Htl).
      unfold bind at 1.
      match goal with
      | |- context [session_stats_block dateutil_parse fuel i ?s1] =>
          destruct (session_stats_block_spec fuel i s1 n line ts dt c b st bl te
                      (next_head items finish) tl)
            as (s2 & E2 & Htm2 & Hres2 & HU2 & Hsc2);
            [reflexivity | exact Hsb | exact Hdt
            | cbn; rewrite Hrest; rewrite <- !app_assoc;
              fold (session_lines items); rewrite Htl; reflexivity
            | exact Hc | exact Hbc | exact Hst | exact Hne | exact Hbl | exact Hte
            | exact Hstop | exact Hnb
            | cbn in Hfuel; unfold session_lines in Hfuel; cbn in Hfuel;
              rewrite !length_app in Hfuel; lia | ]
      end.
      rewrite E2. cbn iota. unfold bind at 1.
      rewrite (session_summary_block _ _ _ _ _ _ _ _ b Hbc).
      cbn zeta. unfold is_test_failure at 1. rewrite <- Hp. cbn [snd].
      set (c1 := match List.filter failing te with
                 | [] => set_blocks (Some (b + 1)) c
                 | x :: failed =>
                     append_failed_block (mk_block ts (x :: failed))
                       (set_blocks (Some (b + 1)) c)
                 end) in *.
      assert (Hc1 : clients (st_results s2) !! i = Some c1).
      { rewrite Hres2. eapply with_client_lookup. exact Hc. }
      assert (Hb1 : blocks c1 <> None).
      { subst c1. destruct (List.filter failing te); cbn; congruence. }
      assert (Hlen : (length (session_lines items) < fuel)%nat).
      { cbn in Hfuel; unfold session_lines in *; cbn in Hfuel;
          rewrite !length_app in Hfuel; lia. }
      destruct (REGEXPS.test_failure (strip line)).
      * rewrite (modify_client_with i _ c1) by exact Hc1. cbn iota.
        match goal with
        | |- context [session_loop dateutil_parse fuel i ?s3] =>
            destruct (IH fuel i s3 (append_session_failure (n, strip line) c1))
              as (s' & E & HU' & Hro & Htm & Hres & Hsc);
              [cbn; rewrite HU2, <- Htl; reflexivity | exact Hok | exact Hfin
              | cbn; eapply with_client_lookup; eauto
              | exact Hb1 | exact Hlen | ]
        end.
        rewrite E. eexists. split; [reflexivity|].
        split; [exact HU'|]. split; [exact Hro|].
        split; [rewrite Htm; cbn [st_timing]; rewrite Htm2; reflexivity|].
        split.
        { rewrite Hres. cbn [st_results]. rewrite Hres2.
          rewrite !with_client_twice. reflexivity. }
        eapply only_scans_trans; [|exact Hsc].
        eapply only_scans_trans; [eapply only_read_delivery; eauto|].
        eapply only_scans_trans; [exact Hsc2|]. apply only_scans_results.
      * cbn [ret]. cbn iota.
        destruct (IH fuel i s2 c1)
          as (s' & E & HU' & Hro & Htm & Hres & Hsc);
          [rewrite HU2, <- Htl; reflexivity | exact Hok | exact Hfin
          | exact Hc1 | exact Hb1 | exact Hlen | ].
        rewrite E. eexists. split; [reflexivity|].
        split; [exact HU'|]. split; [exact Hro|].
        split; [rewrite Htm, Htm2; reflexivity|].
        split.
        { rewrite Hres, Hres2. rewrite !with_client_twice. reflexivity. }
        eapply only_scans_trans; [|exact Hsc].
        eapply only_scans_trans; [eapply only_read_delivery; eauto|].
        exact Hsc2.
Qed.

Lemma track_all_first bs : forall t,
  first_dt (track_all bs t)
  = match first_dt t with
    | Some f => Some f
    | None => head (map fst bs)
    end.
Proof.
  induction bs as [|[dt passed] bs IH]; intros t.
  - cbn. destruct (first_dt t); reflexivity.
  - change (track_all ((dt, passed) :: bs) t)
      with (track_all bs (track dt passed t)).
    rewrite IH. unfold track.
    destruct passed, (pass_start_dt t), (first_dt t); reflexivity.
Qed.

Lemma track_all_last bs : forall t,
  last_dt (track_all bs t)
  = match last (map fst bs) with
    | Some l => Some l
    | None => last_dt t
    end.
Proof.
  induction bs as [|[dt passed] bs IH]; intros t.
  - reflexivity.
  - change (track_all ((dt, passed) :: bs) t)
      with (track_all bs (track dt passed t)).
    rewrite IH. cbn [map fst].
    destruct bs as [|b bs].
    + unfold track. cbn.
      destruct passed, (pass_start_dt t); reflexivity.
    + cbn [map]. change (last (dt :: fst b :: map fst bs))
        with (last (fst b :: map fst bs)).
      destruct (last (fst b :: map fst bs)) eqn:El; [reflexivity|].
      apply last_None in El. discriminate.
Qed.

(** The [finally] clause as an update of the dict of the client. *)
Lemma session_finally_with i s c :
  clients (st_results s) !! i = Some c ->
  session_finally i s
  = (Return tt,
     mk_state (st_reader s) (st_anomalies s)
       (with_client i (finally_stores (st_timing s) c) (st_results s))
       (st_timing s)).
Proof.
  intros Hc. unfold session_finally, finally_stores.
  unfold bind at 1, get_timing. cbn iota.
  assert (Hsame : forall s0 : state,
             s0 = mk_state (st_reader s0) (st_anomalies s0) (st_results s0)
                    (st_timing s0)) by (intros []; reflexivity).
  assert (Hid : with_client i c (st_results s) = st_results s)
    by (apply with_client_same, Hc).
  destruct (longest_pass_delta (st_timing s)) as [delta|];
    [destruct (delta =? 0)|]; unfold bind at 1.
  - cbn [ret]. cbn iota.
    destruct (last_dt (st_timing s)), (first_dt (st_timing s)); cbn iota;
      [exact (modify_client_with i _ c s Hc) | | | ];
      cbn [ret]; rewrite Hid; apply f_equal, Hsame.
  - rewrite (modify_client_with i _ c s Hc). cbn iota.
    destruct (last_dt (st_timing s)), (first_dt (st_timing s));
      cbn iota; cbn [ret]; try reflexivity.
    erewrite modify_client_with
      by (cbn [st_results]; eapply with_client_lookup; exact Hc).
    cbn [st_reader st_anomalies st_results st_timing].
    rewrite with_client_twice. reflexivity.
  - cbn [ret]. cbn iota.
    destruct (last_dt (st_timing s)), (first_dt (st_timing s)); cbn iota;
      [exact (modify_client_with i _ c s Hc) | | | ];
      cbn [ret]; rewrite Hid; apply f_equal, Hsame.
Qed.

(** What the [finally] clause makes of the summary of the loop. *)
Lemma finally_stores_summary items c :
  finally_stores (track_all (item_outcomes items) timing_unset)
    (session_summary items (set_blocks (Some 0) c))
  = session_report items c.
Proof.
  unfold finally_stores, session_report.
  rewrite (track_all_longest (item_outcomes items) timing_unset).
  rewrite (track_all_first (item_outcomes items) timing_unset).
  rewrite (track_all_last (item_outcomes items) timing_unset).
  cbn [longest_pass_delta first_dt last_dt timing_unset open_run pass_start_dt].
  fold (max_run_delta (item_outcomes items)).
  assert (Hhl : head (map fst (item_outcomes items)) = None
                -> last (map fst (item_outcomes items)) = None).
  { destruct (item_outcomes items); [reflexivity|discriminate]. }
  destruct (max_run_delta (item_outcomes items)) as [delta|];
    [destruct (delta =? 0)|];
    destruct (head (map fst (item_outcomes items))) as [first|];
    try rewrite (Hhl eq_refl);
    try destruct (last (map fst (item_outcomes items))) as [final|];
    destruct c; reflexivity.
Qed.

(** [process_client_session] on a session of [items] that the line
    [finish] ends: the [finally] clause stores the runtime and the longest
    pass however the loop ends. *)
Lemma process_client_session_ends fuel i s c items finish post :
  upcoming (st_reader s) = session_lines items ++ finish :: post ->
  session_ok dateutil_parse items finish ->
  ends_loop finish ->
  clients (st_results s) !! i = Some c ->
  (length (session_lines items) < fuel)%nat ->
  exists s',
    process_client_session dateutil_parse fuel i s = (loop_outcome finish, s')
    /\ upcoming (st_reader s') = post
    /\ reads_on (st_reader s')
    /\ st_results s' = with_client i (session_report items c) (st_results s)
    /\ only_scans s s'.
Proof.
  intros Hup Hok Hfin Hc Hfuel.
  change (process_client_session dateutil_parse fuel i s)
    with (try_finally (session_loop dateutil_parse fuel i) (session_finally i)
            (session_entry i s)).
  assert (Hentry : st_results (session_entry i s)
                   = with_client i (set_blocks (Some 0) c) (st_results s)).
  { cbn. unfold with_client. rewrite (alter_as_insert _ i _ c Hc). reflexivity. }
  destruct (session_loop_spec finish post items fuel i (session_entry i s)
              (set_blocks (Some 0) c))
    as (s1 & E & HU & Hro & Htm & Hres & Hsc);
    [exact Hup | exact Hok | exact Hfin
    | rewrite Hentry; eapply with_client_lookup; exact Hc
    | discriminate | exact Hfuel | ].
  unfold try_finally. rewrite E.
  rewrite Hentry, with_client_twice in Hres.
  assert (Hc1 : clients (st_results s1) !! i
                = Some (session_summary items (set_blocks (Some 0) c))).
  { rewrite Hres. eapply with_client_lookup. exact Hc. }
  cbn [st_timing session_entry] in Htm.
  rewrite (session_finally_with i s1 _ Hc1).
  rewrite Htm, finally_stores_summary.
  eexists. split; [unfold loop_outcome; destruct (REGEXPS.client_end (snd finish)); reflexivity|]. cbn.
  split; [exact HU|]. split; [exact Hro|].
  split; [rewrite Hres, with_client_twice; reflexivity|].
  destruct Hsc as (added & Ha & Hf). exists added. auto.
Qed.

(** [process_client_session] on a session that the end of the test
    ends. *)
Lemma process_client_session_spec fuel i s c items finish post :
  upcoming (st_reader s) = session_lines items ++ finish :: post ->
  session_ok dateutil_parse items finish ->
  ends_session finish ->
  clients (st_results s) !! i = Some c ->
  (length (session_lines items) < fuel)%nat ->
  exists s',
    process_client_session dateutil_parse fuel i s = (Return tt, s')
    /\ upcoming (st_reader s') = post
    /\ reads_on (st_reader s')
    /\ st_results s' = with_client i (session_report items c) (st_results s)
    /\ only_scans s s'.
Proof.
  intros Hup Hok [Hce Htf] Hc Hfuel.
  destruct (process_client_session_ends fuel i s c items finish post Hup Hok
              (or_intror Htf) Hc Hfuel) as (s' & E & H).
  unfold loop_outcome in E. rewrite Hce in E. eauto.
Qed.



End Session.
(** ** A stats block without a blank line *)

Section StatsBlockEdge.

Lemma stats_list_loop_no_blank fuel : forall s,
  Forall not_blank (upcoming (st_reader s)) ->
  (length (upcoming (st_reader s)) < fuel)%nat ->
  exists args s',
    stats_list_loop fuel false s = (Raise (StopIteration args), s')
    /\ upcoming (st_reader s') = []
    /\ only_read s s'.
Proof.
  induction fuel as [|fuel IH]; intros s Hall Hfuel; [lia|].
  cbn [stats_list_loop]. unfold bind at 1. next_cases s; cbn iota.
  - rewrite HU in Hall, Hfuel. inversion Hall as [|? ? Hnb Hall']; subst.
    unfold not_blank in Hnb. cbn [snd] in Hnb. rewrite Hnb.
    match goal with
    | |- context [stats_list_loop fuel false ?s1] =>
        destruct (IH s1) as (args & s' & E & HU' & Hro);
          [exact Hall' | cbn in Hfuel |- *; lia | ]
    end.
    rewrite E. exists args, s'. split; [reflexivity|]. split; [exact HU'|].
    eapply only_read_trans; [|exact Hro]. eapply only_read_delivery; eauto.
  - eexists _, _. split; [reflexivity|]. cbn.
    split; [unfold upcoming; rewrite Hg; reflexivity|].
    split; [reflexivity|]. split; [reflexivity|].
    exists []. cbn. rewrite app_nil_r. auto.
Qed.

(** X19: a stats block needs a blank line.  When no line after the
    header of a stats block is blank, [process_stats_block] reads the
    whole rest of the file in search of one, client end markers and all,
    and ends with the StopIteration of the reader; it files no block and
    changes nothing of the results. *)
Theorem stats_block_without_blank_reads_to_end fuel i just_scan s header ts rest :
  upcoming (st_reader s) = header :: rest ->
  REGEXPS.stats_block (snd header) = Some ts ->
  Forall not_blank rest ->
  (length rest < fuel)%nat ->
  exists args s',
    process_stats_block fuel i just_scan s = (Raise (StopIteration args), s')
    /\ upcoming (st_reader s') = []
    /\ st_results s' = st_results s.
Proof.
  intros Hup Hts Hall Hfuel. unfold process_stats_block. unfold bind at 1.
  next_cases s; rewrite HU in Hup; try discriminate.
  injection Hup as Hp Hrest. cbn iota.
  rewrite <- Hp in Hts. cbn [snd] in Hts. rewrite Hts. unfold bind at 1.
  match goal with
  | |- context [stats_list_loop fuel false ?s1] =>
      destruct (stats_list_loop_no_blank fuel s1)
        as (args & s' & E & HU' & Hr & _);
        [cbn; rewrite Hrest; exact Hall | cbn; rewrite Hrest; exact Hfuel | ]
  end.
  rewrite E. exists args, s'. auto.
Qed.

End StatsBlockEdge.
(** ** A whole client section and a whole log *)

Section ClientSection.

Variable dateutil_parse : string -> option Z.

Lemma delivery_added (s : state) n line (rest : list string) added :
  (added = [] /\ st_reader s = mk_gen (GenYieldNone n line) rest)
  \/ (added = scan n line /\ n = current_number (st_reader s) + 1
      /\ file (st_reader s) = line :: rest) ->
  Forall is_scan_anomaly added.
Proof.
  intros [[-> _]|(-> & _ & _)]; [constructor|].
  unfold scan. destruct (REGEXPS.sc_error line) eqn:E; repeat constructor.
  exact E.
Qed.

(** The setup of a client on the lines [pre] and the session start
    marker [start]: it records the lines that match the test failure
    pattern, the marker line included, and requeues the marker line. *)
Lemma process_client_setup_spec start post : forall pre fuel i s c,
  upcoming (st_reader s) = pre ++ start :: post ->
  Forall setup_passes pre ->
  starts_session start ->
  clients (st_results s) !! i = Some c ->
  (length pre < fuel)%nat ->
  exists s',
    process_client_setup fuel i s = (Return tt, s')
    /\ upcoming (st_reader s') = start :: post
    /\ st_timing s' = st_timing s
    /\ st_results s'
       = with_client i
           (List.fold_left (fun c p => append_setup_failure p c)
              (List.filter is_test_failure (pre ++ [start])) c)
           (st_results s)
    /\ only_scans s s'.
Proof.
  induction pre as [|q pre IH]; intros fuel i s c Hup Hpre Hst Hc Hfuel;
    (destruct fuel as [|fuel]; [cbn in Hfuel; lia|]);
    cbn [process_client_setup]; unfold bind at 1;
    cbn [app] in Hup; next_cases s; rewrite HU in Hup; try discriminate;
    injection Hup as Hp Hrest; cbn iota.
  - destruct Hst as [Hce Hss]. rewrite <- Hp in Hce, Hss. cbn [snd] in Hce, Hss.
    rewrite Hce, Hss. unfold bind at 1.
    cbn [app List.filter]. unfold is_test_failure at 1. rewrite <- Hp. cbn [snd].
    destruct (REGEXPS.test_failure (strip line)).
    + rewrite (modify_client_with i _ c) by exact Hc. cbn iota.
      cbn [st_reader st_anomalies st_results st_timing].
      rewrite requeue_line_spec.
      eexists. split; [reflexivity|]. cbn.
      split; [rewrite Hrest; reflexivity|]. split; [reflexivity|].
      split; [reflexivity|].
      exists added. split; [reflexivity|]. eapply delivery_added; eauto.
    + cbn [ret]. cbn iota. rewrite requeue_line_spec.
      eexists. split; [reflexivity|]. cbn.
      split; [rewrite Hrest; reflexivity|]. split; [reflexivity|].
      split; [symmetry; apply with_client_same, Hc|].
      eapply only_read_delivery; eauto.
  - inversion Hpre as [|? ? [Hce Hss] Hpre']; subst.
    cbn [snd] in Hce, Hss. rewrite Hce, Hss. unfold bind at 1.
    cbn [app List.filter]. unfold is_test_failure at 1. cbn [snd].
    destruct (REGEXPS.test_failure (strip line)).
    + rewrite (modify_client_with i _ c) by exact Hc. cbn iota.
      match goal with
      | |- context [process_client_setup fuel i ?s1] =>
          destruct (IH fuel i s1 (append_setup_failure (n, strip line) c))
            as (s' & E & HU' & Htm & Hres & Hsc);
            [exact Hrest | exact Hpre' | exact Hst
            | cbn; eapply with_client_lookup; eauto
            | cbn in Hfuel; lia | ]
      end.
      rewrite E. eexists. split; [reflexivity|].
      split; [exact HU'|]. split; [exact Htm|].
      split; [rewrite Hres; cbn [st_results fold_left]; apply with_client_twice|].
      eapply only_scans_trans; [|exact Hsc].
      exists added. split; [reflexivity|]. eapply delivery_added; eauto.
    + cbn [ret]. cbn iota.
      match goal with
      | |- context [process_client_setup fuel i ?s1] =>
          destruct (IH fuel i s1 c)
            as (s' & E & HU' & Htm & Hres & Hsc);
            [exact Hrest | exact Hpre' | exact Hst | exact Hc
            | cbn in Hfuel; lia | ]
      end.
      rewrite E. eexists. split; [reflexivity|].
      split; [exact HU'|]. split; [exact Htm|]. split; [exact Hres|].
      eapply only_scans_trans; [|exact Hsc].
      eapply only_read_delivery; eauto.
Qed.

(** The cleanup of a client on the lines [lines] and the client end
    marker: it records the lines that match the test failure pattern and
    returns past the marker. *)
Lemma process_client_cleanup_spec endmark post : forall lines fuel i s c,
  upcoming (st_reader s) = lines ++ endmark :: post ->
  Forall cleanup_passes lines ->
  REGEXPS.client_end (snd endmark) = true ->
  clients (st_results s) !! i = Some c ->
  (length lines < fuel)%nat ->
  exists s',
    process_client_cleanup fuel i s = (Return tt, s')
    /\ upcoming (st_reader s') = post
    /\ reads_on (st_reader s')
    /\ st_timing s' = st_timing s
    /\ st_results s'
       = with_client i
           (List.fold_left (fun c p => append_cleanup_failure p c)
              (List.filter is_test_failure lines) c)
           (st_results s)
    /\ only_scans s s'.
Proof.
  induction lines as [|q lines IH]; intros fuel i s c Hup Hl Hend Hc Hfuel;
    (destruct fuel as [|fuel]; [cbn in Hfuel; lia|]);
    cbn [process_client_cleanup]; unfold bind at 1;
    cbn [app] in Hup; next_cases s; rewrite HU in Hup; try discriminate;
    injection Hup as Hp Hrest; cbn iota.
  - rewrite <- Hp in Hend. cbn [snd] in Hend. rewrite Hend.
    eexists. split; [reflexivity|]. cbn.
    split; [exact Hrest|]. split; [exact I|]. split; [reflexivity|].
    split; [symmetry; apply with_client_same, Hc|].
    eapply only_read_delivery; eauto.
  - inversion Hl as [|? ? [Hce Hsb] Hl']; subst.
    cbn [snd] in Hce, Hsb. rewrite Hce, Hsb. cbn [REGEXPS.is_some].
    unfold bind at 1. cbn [ret]. cbn iota. unfold bind at 1.
    cbn [List.filter]. unfold is_test_failure at 1. cbn [snd].
    destruct (REGEXPS.test_failure (strip line)).
    + rewrite (modify_client_with i _ c) by exact Hc. cbn iota.
      match goal with
      | |- context [process_client_cleanup fuel i ?s1] =>
          destruct (IH fuel i s1 (append_cleanup_failure (n, strip line) c))
            as (s' & E & HU' & Hro & Htm & Hres & Hsc);
            [exact Hrest | exact Hl' | exact Hend
            | cbn; eapply with_client_lookup; eauto
            | cbn in Hfuel; lia | ]
      end.
      rewrite E. eexists. split; [reflexivity|].
      split; [exact HU'|]. split; [exact Hro|]. split; [exact Htm|].
      split; [rewrite Hres; cbn [st_results fold_left]; apply with_client_twice|].
      eapply only_scans_trans; [|exact Hsc].
      exists added. split; [reflexivity|]. eapply delivery_added; eauto.
    + cbn [ret]. cbn iota.
      match goal with
      | |- context [process_client_cleanup fuel i ?s1] =>
          destruct (IH fuel i s1 c)
            as (s' & E & HU' & Hro & Htm & Hres & Hsc);
            [exact Hrest | exact Hl' | exact Hend | exact Hc
            | cbn in Hfuel; lia | ]
      end.
      rewrite E. eexists. split; [reflexivity|].
      split; [exact HU'|]. split; [exact Hro|]. split; [exact Htm|].
      split; [exact Hres|].
      eapply only_scans_trans; [|exact Hsc].
      eapply only_read_delivery; eauto.
Qed.

Lemma fold_setup_failures l : forall c,
  List.fold_left (fun c p => append_setup_failure p c) l c
  = mk_client (name c) (blocks c) (session_runtime c) (longest_pass c)
      (setup_failures c ++ l) (cleanup_failures c) (session_failures c)
      (failed_blocks c).
Proof.
  induction l as [|x l IH]; intros c; cbn [fold_left].
  - rewrite app_nil_r. destruct c; reflexivity.
  - rewrite IH. cbn. rewrite <- app_assoc. reflexivity.
Qed.

Lemma fold_cleanup_failures l : forall c,
  List.fold_left (fun c p => append_cleanup_failure p c) l c
  = mk_client (name c) (blocks c) (session_runtime c) (longest_pass c)
      (setup_failures c) (cleanup_failures c ++ l) (session_failures c)
      (failed_blocks c).
Proof.
  induction l as [|x l IH]; intros c; cbn [fold_left].
  - rewrite app_nil_r. destruct c; reflexivity.
  - rewrite IH. cbn. rewrite <- app_assoc. reflexivity.
Qed.

Lemma with_client_last (l : list client_results) c c0 r :
  with_client (length l) c (set_clients (l ++ [c0]) r) = set_clients (l ++ [c]) r.
Proof.
  unfold with_client. cbn [clients set_clients].
  rewrite insert_app_r_alt by lia. rewrite Nat.sub_diag. reflexivity.
Qed.

(** [process_client] on a whole client section. *)
Lemma process_client_spec fuel s sec post :
  upcoming (st_reader s) = section_lines sec ++ post ->
  section_ok dateutil_parse sec ->
  (length (section_lines sec) <= fuel)%nat ->
  exists s',
    process_client dateutil_parse fuel s = (Return tt, s')
    /\ upcoming (st_reader s') = post
    /\ reads_on (st_reader s')
    /\ st_results s'
       = set_clients (clients (st_results s) ++ [client_report sec]) (st_results s)
    /\ only_scans s s'.
Proof.
  intros Hup (Hname & Hsetup & Hstart & Hsess & Hfin & Hclean & Hend) Hfuel.
  assert (Hlines : section_lines sec ++ post
                   = sec_header sec :: sec_setup sec
                     ++ sec_start sec :: session_lines (sec_items sec)
                     ++ sec_finish sec :: sec_cleanup sec ++ sec_end sec :: post).
  { unfold section_lines. cbn [app].
    repeat (rewrite <- app_assoc; cbn [app]). reflexivity. }
  rewrite Hlines in Hup. clear Hlines.
  unfold section_lines in Hfuel. cbn [app length] in Hfuel.
  repeat (rewrite length_app in Hfuel; cbn [length] in Hfuel).
  unfold process_client. unfold bind at 1. cbn [append_client]. cbn iota.
  set (i := length (clients (st_results s))).
  unfold bind at 1.
  match goal with |- context [reader_next ?s0] => set (sa := s0) end.
  assert (HUa : upcoming (st_reader sa) = upcoming (st_reader s)) by reflexivity.
  next_cases sa; rewrite HUa, Hup in HU; try discriminate.
  injection HU as Hp Hrest. cbn iota.
  rewrite Hp in Hname. cbn [snd] in Hname. rewrite Hname.
  unfold bind at 1.
  rewrite (modify_client_with i _ create_client_results)
    by (subst sa i; cbn; apply list_lookup_middle; reflexivity).
  cbn iota. cbn [st_reader st_anomalies st_results st_timing].
  subst sa. cbn [st_reader st_anomalies st_results st_timing].
  subst i. rewrite with_client_last.
  set (i := length (clients (st_results s))).
  set (c1 := set_name (Some (sec_name sec)) create_client_results).
  set (r1 := set_clients (clients (st_results s) ++ [c1]) (st_results s)).
  assert (Hl : forall c, with_client i c r1
                         = set_clients (clients (st_results s) ++ [c]) (st_results s)).
  { intros c. subst r1 i. apply with_client_last. }
  assert (Hlk : forall c, clients (set_clients (clients (st_results s) ++ [c])
                                     (st_results s)) !! i = Some c).
  { intros c. cbn. apply list_lookup_middle. reflexivity. }
  unfold try_except, client_phases. unfold bind at 1.
  match goal with
  | |- context [process_client_setup fuel i ?s1] =>
      destruct (process_client_setup_spec (sec_start sec)
                  (session_lines (sec_items sec)
                   ++ sec_finish sec :: sec_cleanup sec ++ sec_end sec :: post)
                  (sec_setup sec) fuel i s1 c1)
        as (s2 & E2 & HU2 & _ & Hres2 & Hsc2);
        [cbn; rewrite <- Hrest; reflexivity
        | exact Hsetup | exact Hstart | apply Hlk | lia | ]
  end.
  rewrite E2. cbn iota. cbn [st_results] in Hres2. fold r1 in Hres2.
  rewrite Hl in Hres2. unfold bind at 1.
  set (c2 := fold_left (fun c p => append_setup_failure p c)
               (List.filter is_test_failure (sec_setup sec ++ [sec_start sec]))
               c1) in *.
  destruct (process_client_session_spec dateutil_parse fuel i s2 c2
              (section_session sec) (sec_finish sec)
              (sec_cleanup sec ++ sec_end sec :: post))
    as (s3 & E3 & HU3 & _ & Hres3 & Hsc3);
    [rewrite HU2; unfold section_session, session_lines; cbn;
     reflexivity
    | exact Hsess | exact Hfin | rewrite Hres2; apply Hlk
    | unfold section_session, session_lines in *; cbn; lia | ].
  rewrite E3. cbn iota.
  rewrite Hres2, <- (Hl c2), with_client_twice, Hl in Hres3.
  set (c3 := session_report (section_session sec) c2) in *.
  destruct (process_client_cleanup_spec (sec_end sec) post (sec_cleanup sec)
              fuel i s3 c3)
    as (s4 & E4 & HU4 & Hro4 & _ & Hres4 & Hsc4);
    [rewrite HU3; reflexivity | exact Hclean | exact Hend
    | rewrite Hres3; apply Hlk | lia | ].
  rewrite E4.
  rewrite Hres3, <- (Hl c3), with_client_twice, Hl in Hres4.
  eexists. split; [reflexivity|].
  split; [exact HU4|]. split; [exact Hro4|].
  split.
  - rewrite Hres4. f_equal. f_equal. f_equal.
    subst c3 c2 c1.
    rewrite fold_cleanup_failures, fold_setup_failures.
    unfold client_report, session_report. cbn. reflexivity.
  - eapply only_scans_trans; [|exact Hsc4].
    eapply only_scans_trans; [|exact Hsc3].
    eapply only_scans_trans; [|exact Hsc2].
    exists added. split; [reflexivity|].
    eapply (delivery_added (mk_state (st_reader s) (st_anomalies s)
                              (set_clients (clients (st_results s)
                                            ++ [create_client_results]) (st_results s))
                              (st_timing s))); eauto.
Qed.


End ClientSection.
(** ** A whole log *)

Section WholeLog.

Variable dateutil_parse : string -> option Z.

(** Reading whatever is left. *)
Lemma drain_spec fuel : forall s,
  (length (upcoming (st_reader s)) < fuel)%nat ->
  exists s',
    drain fuel s = (Return tt, s')
    /\ upcoming (st_reader s') = []
    /\ only_read s s'.
Proof.
  induction fuel as [|fuel IH]; intros s Hfuel; [lia|].
  cbn [drain]. unfold bind at 1. rewrite for_next_eq.
  next_cases s; cbn iota.
  - match goal with
    | |- context [drain fuel ?s1] =>
        destruct (IH s1) as (s' & E & HU' & Hro);
          [rewrite HU in Hfuel; cbn in Hfuel |- *; lia|]
    end.
    rewrite E. eexists. split; [reflexivity|]. split; [exact HU'|].
    eapply only_read_trans; [|exact Hro]. eapply only_read_delivery; eauto.
  - eexists. split; [reflexivity|]. cbn.
    split; [unfold upcoming; rewrite Hg; reflexivity|].
    split; [reflexivity|]. split; [reflexivity|].
    exists []. cbn. rewrite app_nil_r. auto.
Qed.

(** The harness cleanup on the lines to come. *)
Lemma steeplechase_cleanup_spec fuel s skipped passed_line failed_line rest gp vp gf vf :
  upcoming (st_reader s) = skipped :: passed_line :: failed_line :: rest ->
  REGEXPS.total_passed (snd passed_line) = Some gp ->
  int_of_string gp = Some vp ->
  REGEXPS.total_failed (snd failed_line) = Some gf ->
  int_of_string gf = Some vf ->
  (length rest < fuel)%nat ->
  exists s',
    process_steeplechase_cleanup fuel s = (Return tt, s')
    /\ upcoming (st_reader s') = []
    /\ st_results s'
       = set_total_failed (Some vf) (set_total_passed (Some vp) (st_results s))
    /\ st_timing s' = st_timing s
    /\ only_scans s s'.
Proof.
  intros Hup Hgp Hvp Hgf Hvf Hfuel. unfold process_steeplechase_cleanup.
  unfold bind at 1. next_cases s; rewrite HU in Hup; try discriminate.
  injection Hup as Hp0 Hrest0. cbn iota. unfold bind at 1.
  match goal with |- context [reader_next ?s0] => set (s1 := s0) end.
  assert (HU1 : upcoming (st_reader s1) = passed_line :: failed_line :: rest)
    by exact Hrest0.
  assert (Hs1 : only_read s s1) by (eapply only_read_delivery; eauto).
  clearbody s1. clear Hadd HU Hrest0.
  next_cases s1; rewrite HU in HU1; try discriminate.
  injection HU1 as Hp1 Hrest1. cbn iota.
  rewrite <- Hp1 in Hgp. cbn [snd] in Hgp. rewrite Hgp.
  unfold bind at 1, int_group at 1. rewrite Hvp. cbn [ret]. cbn iota.
  unfold bind at 1. cbn [modify_results]. cbn iota. unfold bind at 1.
  match goal with |- context [reader_next ?s0] => set (s2 := s0) end.
  assert (HU2 : upcoming (st_reader s2) = failed_line :: rest) by exact Hrest1.
  assert (Hs2 : only_scans s1 s2).
  { exists added0. split; [reflexivity|]. eapply delivery_added; eauto. }
  assert (Hr2 : st_results s2 = set_total_passed (Some vp) (st_results s1))
    by reflexivity.
  assert (Ht2 : st_timing s2 = st_timing s1) by reflexivity.
  clearbody s2. clear Hadd HU Hrest1.
  next_cases s2; rewrite HU in HU2; try discriminate.
  injection HU2 as Hp2 Hrest2. cbn iota.
  rewrite <- Hp2 in Hgf. cbn [snd] in Hgf. rewrite Hgf.
  unfold bind at 1, int_group at 1. rewrite Hvf. cbn [ret]. cbn iota.
  unfold bind at 1. cbn [modify_results]. cbn iota.
  match goal with |- context [drain fuel ?s0] => set (s3 := s0) end.
  assert (Hs3 : only_scans s2 s3).
  { exists added1. split; [reflexivity|]. eapply delivery_added; eauto. }
  assert (Hr3 : st_results s3 = set_total_failed (Some vf) (st_results s2))
    by reflexivity.
  assert (Ht3 : st_timing s3 = st_timing s2) by reflexivity.
  destruct (drain_spec fuel s3) as (s4 & E & HU4 & R4 & T4 & S4).
  { subst s3. cbn. rewrite Hrest2. exact Hfuel. }
  rewrite E. exists s4. split; [reflexivity|]. split; [exact HU4|].
  destruct Hs1 as (R1 & T1 & S1).
  split; [rewrite R4, Hr3, Hr2, R1; reflexivity|].
  split; [rewrite T4, Ht3, Ht2, T1; reflexivity|].
  eauto using only_scans_trans.
Qed.

(** [process_log] on a log of two client sections and the totals. *)
Lemma process_log_spec fuel s pre first second skipped passed_line failed_line rest
  gp vp gf vf :
  upcoming (st_reader s)
  = pre ++ section_lines first ++ section_lines second
        ++ skipped :: passed_line :: failed_line :: rest ->
  Forall not_client_start pre ->
  section_ok dateutil_parse first ->
  section_ok dateutil_parse second ->
  REGEXPS.total_passed (snd passed_line) = Some gp ->
  int_of_string gp = Some vp ->
  REGEXPS.total_failed (snd failed_line) = Some gf ->
  int_of_string gf = Some vf ->
  (length (upcoming (st_reader s)) < fuel)%nat ->
  exists s',
    process_log dateutil_parse fuel s = (Return tt, s')
    /\ upcoming (st_reader s') = []
    /\ st_results s'
       = set_total_failed (Some vf)
           (set_total_passed (Some vp)
              (set_clients
                 ((clients (st_results s) ++ [client_report first])
                  ++ [client_report second]) (st_results s)))
    /\ only_scans s s'.
Proof.
  intros Hup Hpre Hfirst Hsecond Hgp Hvp Hgf Hvf Hfuel.
  rewrite Hup in Hfuel. rewrite !length_app in Hfuel. cbn [length] in Hfuel.
  unfold process_log. unfold bind at 1.
  assert (Hhead : exists tl,
             section_lines first ++ section_lines second
             ++ skipped :: passed_line :: failed_line :: rest
             = sec_header first :: tl).
  { unfold section_lines at 1. cbn. eauto. }
  destruct Hhead as (tl & Htl).
  destruct (steeplechase_setup_spec fuel pre s (sec_header first) tl)
    as (s1 & _ & E1 & (R1 & T1 & S1) & HU1 & _);
    [rewrite Hup, Htl; reflexivity | exact Hpre
    | destruct Hfirst as (Hn & _); rewrite Hn; reflexivity | lia | ].
  rewrite E1. cbn iota. unfold bind at 1.
  destruct (process_client_spec dateutil_parse fuel s1 first
              (section_lines second
               ++ skipped :: passed_line :: failed_line :: rest))
    as (s2 & E2 & HU2 & _ & R2 & S2);
    [rewrite HU1, <- Htl; reflexivity | exact Hfirst | lia | ].
  rewrite E2. cbn iota. unfold bind at 1.
  destruct (process_client_spec dateutil_parse fuel s2 second
              (skipped :: passed_line :: failed_line :: rest))
    as (s3 & E3 & HU3 & _ & R3 & S3);
    [exact HU2 | exact Hsecond | lia | ].
  rewrite E3. cbn iota.
  destruct (steeplechase_cleanup_spec fuel s3 skipped passed_line failed_line rest
              gp vp gf vf)
    as (s4 & E4 & HU4 & R4 & _ & S4);
    [exact HU3 | exact Hgp | exact Hvp | exact Hgf | exact Hvf | lia | ].
  rewrite E4. exists s4. split; [reflexivity|]. split; [exact HU4|].
  split; [rewrite R4, R3, R2, R1; reflexivity|].
  eauto using only_scans_trans.
Qed.


End WholeLog.
(** ** Invariants, stage by stage

    Each stage keeps an invariant [Inv] of the state, and raises only in
    states that satisfy [Q], as soon as the elementary steps it makes do.
    As in the preservation lemmas, the hypotheses name those steps one by
    one; [cur] is the position of the client being parsed. *)

Section Guarded.

Variable Inv : state -> Prop.
Variable Q : exn -> state -> Prop.
Variable cur : nat.

Lemma guarded_ret {A} (a : A) : guarded Inv Q (ret a).
Proof. intros s Hs. split; [exact Hs|discriminate]. Qed.

Lemma guarded_out_of_fuel {A} : guarded Inv Q (@out_of_fuel A).
Proof. intros s Hs. split; [exact Hs|discriminate]. Qed.

Lemma guarded_raise {A} e : (forall s, Inv s -> Q e s) -> guarded Inv Q (@raise A e).
Proof. intros He s Hs. split; [exact Hs|]. intros e' [= <-]. apply He, Hs. Qed.

Lemma guarded_bind {A B} (m : M A) (f : A -> M B) :
  guarded Inv Q m -> (forall a, guarded Inv Q (f a)) -> guarded Inv Q (bind m f).
Proof.
  intros Hm Hf s Hs. unfold bind. destruct (Hm s Hs) as [Hi Hq].
  destruct (m s) as [[a|e|] s1]; cbn in *.
  - apply Hf, Hi.
  - split; [exact Hi|]. intros e' [= <-]. apply Hq. reflexivity.
  - split; [exact Hi|discriminate].
Qed.

Lemma guarded_try_except {A} (m : M A) h :
  guarded Inv Q m -> (forall e k, h e = Some k -> guarded Inv Q k) ->
  guarded Inv Q (try_except m h).
Proof.
  intros Hm Hh s Hs. unfold try_except. destruct (Hm s Hs) as [Hi Hq].
  destruct (m s) as [[a|e|] s1]; cbn in *.
  - split; [exact Hi|discriminate].
  - destruct (h e) as [k|] eqn:E.
    + eapply Hh; eauto.
    + cbn. split; [exact Hi|]. intros e' [= <-]. apply Hq. reflexivity.
  - split; [exact Hi|discriminate].
Qed.

(** A [try] block whose body may raise more than what escapes it. *)
Lemma guarded_try_except_with {A} (Qb : exn -> state -> Prop) (m : M A) h :
  guarded Inv Qb m -> (forall e k, h e = Some k -> guarded Inv Q k) ->
  (forall e s, h e = None -> Qb e s -> Q e s) ->
  guarded Inv Q (try_except m h).
Proof.
  intros Hm Hh Hesc s Hs. unfold try_except. destruct (Hm s Hs) as [Hi Hq].
  destruct (m s) as [[a|e|] s1]; cbn in *.
  - split; [exact Hi|discriminate].
  - destruct (h e) as [k|] eqn:E.
    + eapply Hh; eauto.
    + cbn. split; [exact Hi|]. intros e' [= <-]. apply Hesc; auto.
  - split; [exact Hi|discriminate].
Qed.

Lemma guarded_try_finally {A} (m : M A) fin :
  guarded Inv Q m -> guarded Inv Q fin ->
  (forall e s, Inv s -> Q e s -> Q e (snd (fin s))) ->
  guarded Inv Q (try_finally m fin).
Proof.
  intros Hm Hf Hst s Hs. unfold try_finally. destruct (Hm s Hs) as [Hi Hq].
  destruct (m s) as [[a|e|] s1]; cbn in *.
  - destruct (Hf s1 Hi) as [Hi2 Hq2].
    destruct (fin s1) as [[[]|e'|] s2]; cbn in *;
      (split; [exact Hi2|]); try discriminate.
    intros e0 [= <-]. apply Hq2. reflexivity.
  - destruct (Hf s1 Hi) as [Hi2 Hq2]. specialize (Hst e s1 Hi (Hq e eq_refl)).
    destruct (fin s1) as [[[]|e'|] s2]; cbn in *;
      (split; [exact Hi2|]); try discriminate.
    + intros e0 [= <-]. exact Hst.
    + intros e0 [= <-]. apply Hq2. reflexivity.
  - split; [exact Hi|discriminate].
Qed.

Lemma guarded_get_results : guarded Inv Q get_results.
Proof. intros s Hs. split; [exact Hs|discriminate]. Qed.

Lemma guarded_get_timing : guarded Inv Q get_timing.
Proof. intros s Hs. split; [exact Hs|discriminate]. Qed.

Hypothesis Q_index : forall s, Inv s -> Q IndexError s.

Lemma guarded_get_client i : guarded Inv Q (get_client i).
Proof.
  intros s Hs. unfold get_client.
  destruct (clients (st_results s) !! i); cbn; (split; [exact Hs|]);
    [discriminate|].
  intros e [= <-]. apply Q_index, Hs.
Qed.

Ltac guarded_auto :=
  repeat first
    [ apply guarded_ret | apply guarded_out_of_fuel
    | apply guarded_get_results | apply guarded_get_timing
    | apply guarded_get_client
    | assumption
    | apply guarded_raise; assumption
    | match goal with
      | H : forall _, guarded Inv Q _ |- _ => apply H
      | H : forall _ _, guarded Inv Q _ |- _ => apply H
      | H : forall _ _ _, guarded Inv Q _ |- _ => apply H
      end
    | match goal with
      | |- guarded _ _ (bind _ _) => apply guarded_bind; [|intros]
      | |- guarded _ _ (match ?x with _ => _ end) => destruct x
      | |- guarded _ _ (if ?x then _ else _) => destruct x
      end ].

(** The reader. *)
Hypothesis G_next : guarded Inv Q reader_next.
Hypothesis G_requeue : guarded Inv Q requeue_line.

Lemma guarded_stats_list_loop fuel in_blank :
  guarded Inv Q (stats_list_loop fuel in_blank).
Proof.
  revert in_blank.
  induction fuel as [|fuel IH]; intros in_blank; cbn [stats_list_loop];
    guarded_auto.
Qed.

Lemma guarded_test_results_loop fuel failed :
  guarded Inv Q (test_results_loop fuel failed).
Proof.
  revert failed.
  induction fuel as [|fuel IH]; intros failed; cbn [test_results_loop];
    guarded_auto.
Qed.

Hypothesis Q_attribute : forall s, Inv s -> Q AttributeError s.
Hypothesis G_failed_block :
  forall ts x failed,
    guarded Inv Q
      (modify_client cur (append_failed_block (mk_block ts (x :: failed)))).

Lemma guarded_process_stats_block fuel just_scan :
  guarded Inv Q (process_stats_block fuel cur just_scan).
Proof.
  unfold process_stats_block.
  pose proof guarded_stats_list_loop. pose proof guarded_test_results_loop.
  guarded_auto.
Qed.

(** The setup of a client. *)
Hypothesis Q_early : forall n s, Inv s -> Q (Client_Early_Exit_Error n) s.
Hypothesis G_setup_failure :
  forall x, guarded Inv Q (modify_client cur (append_setup_failure x)).

Lemma guarded_process_client_setup fuel :
  guarded Inv Q (process_client_setup fuel cur).
Proof.
  induction fuel as [|fuel IH]; cbn [process_client_setup]; guarded_auto.
  apply guarded_raise. apply Q_early.
Qed.

(** The session of a client. *)
Hypothesis G_blocks :
  forall b, guarded Inv Q (modify_client cur (set_blocks (Some b))).
Hypothesis G_timing : forall t, guarded Inv Q (put_timing t).
Hypothesis Q_value : forall s, Inv s -> Q ValueError s.
Hypothesis Q_no_blocks :
  forall s c, Inv s -> clients (st_results s) !! cur = Some c ->
              blocks c = None -> Q TypeError s.

Variable dateutil_parse : string -> option Z.

Lemma guarded_session_stats_block fuel :
  guarded Inv Q (session_stats_block dateutil_parse fuel cur).
Proof.
  unfold session_stats_block. apply guarded_bind; [exact G_requeue|].
  intros _ s Hs.
  match goal with
  | |- Inv (snd (?m s)) /\ _ => destruct (m s) as [o s'] eqn:E
  end.
  unfold bind at 1, get_client in E. cbn [fst snd].
  destruct (clients (st_results s) !! cur) as [c|] eqn:Hc.
  2: { injection E as <- <-. split; [exact Hs|].
       intros e [= <-]. apply Q_index, Hs. }
  cbn iota in E. destruct (blocks c) as [b|] eqn:Hb.
  - match type of E with
    | ?K s = _ => assert (G : guarded Inv Q K)
    end.
    { pose proof guarded_process_stats_block. guarded_auto. }
    specialize (G s Hs). rewrite E in G. exact G.
  - injection E as <- <-. split; [exact Hs|].
    intros e [= <-]. eapply Q_no_blocks; eauto.
Qed.

Hypothesis G_session_failure :
  forall x, guarded Inv Q (modify_client cur (append_session_failure x)).

Lemma guarded_session_loop fuel :
  guarded Inv Q (session_loop dateutil_parse fuel cur).
Proof.
  induction fuel as [|fuel IH]; cbn [session_loop];
    pose proof guarded_session_stats_block; guarded_auto.
  apply guarded_raise. apply Q_early.
Qed.

Hypothesis G_longest_pass :
  forall v, guarded Inv Q (modify_client cur (set_longest_pass v)).
Hypothesis G_session_runtime :
  forall v, guarded Inv Q (modify_client cur (set_session_runtime v)).

Lemma guarded_session_finally : guarded Inv Q (session_finally cur).
Proof. unfold session_finally. guarded_auto. Qed.

(** What an exception was raised in stays true while the [finally]
    clause stores its values. *)
Hypothesis Q_results :
  forall e s r, Q e s ->
                Q e (mk_state (st_reader s) (st_anomalies s) r (st_timing s)).

Lemma session_finally_state s :
  exists r,
    snd (session_finally cur s)
    = mk_state (st_reader s) (st_anomalies s) r (st_timing s).
Proof.
  destruct s as [g an rs tm].
  unfold session_finally, bind, get_timing. cbn [st_timing].
  destruct (longest_pass_delta tm) as [delta|];
    [destruct (delta =? 0)|];
    destruct (last_dt tm), (first_dt tm);
    cbn; eauto.
Qed.

Lemma guarded_process_client_session fuel :
  guarded Inv Q (process_client_session dateutil_parse fuel cur).
Proof.
  unfold process_client_session.
  apply guarded_bind; [apply G_blocks|intros _].
  apply guarded_bind; [apply G_timing|intros _].
  apply guarded_try_finally;
    [apply guarded_session_loop|apply guarded_session_finally|].
  intros e s _ Hq. destruct (session_finally_state s) as (r & ->).
  apply Q_results, Hq.
Qed.

(** The cleanup of a client. *)
Hypothesis G_log : forall number line, guarded Inv Q (log_anomaly number line).
Hypothesis G_cleanup_failure :
  forall x, guarded Inv Q (modify_client cur (append_cleanup_failure x)).

Lemma guarded_cleanup_stats_block fuel number :
  guarded Inv Q (cleanup_stats_block fuel cur number).
Proof.
  unfold cleanup_stats_block. pose proof guarded_process_stats_block.
  guarded_auto.
Qed.

Lemma guarded_process_client_cleanup fuel :
  guarded Inv Q (process_client_cleanup fuel cur).
Proof.
  induction fuel as [|fuel IH]; cbn [process_client_cleanup];
    pose proof guarded_cleanup_stats_block; guarded_auto.
Qed.

(** The three phases, given the session. *)
Lemma guarded_client_phases fuel :
  guarded Inv Q (process_client_session dateutil_parse fuel cur) ->
  guarded Inv Q (client_phases dateutil_parse fuel cur).
Proof.
  intros Hsession. unfold client_phases.
  pose proof guarded_process_client_setup.
  pose proof guarded_process_client_cleanup. guarded_auto.
Qed.

End Guarded.

Section GuardedLog.

Variable Inv : state -> Prop.
Variable Q : exn -> state -> Prop.
Variable dateutil_parse : string -> option Z.

Hypothesis G_next : guarded Inv Q reader_next.
Hypothesis G_requeue : guarded Inv Q requeue_line.

Lemma guarded_for_next : guarded Inv Q for_next.
Proof.
  unfold for_next. apply guarded_try_except.
  - apply guarded_bind; [exact G_next|intros p; apply guarded_ret].
  - intros e k. destruct e; intros [= <-]. apply guarded_ret.
Qed.

Lemma guarded_process_steeplechase_setup fuel :
  guarded Inv Q (process_steeplechase_setup fuel).
Proof.
  induction fuel as [|fuel IH]; cbn [process_steeplechase_setup];
    [apply guarded_out_of_fuel|].
  apply guarded_bind; [apply guarded_for_next|].
  intros [[number line]|]; [|apply guarded_ret].
  destruct (REGEXPS.is_some (REGEXPS.client_start line)); assumption.
Qed.

Lemma guarded_drain fuel : guarded Inv Q (drain fuel).
Proof.
  induction fuel as [|fuel IH]; cbn [drain]; [apply guarded_out_of_fuel|].
  apply guarded_bind; [apply guarded_for_next|].
  intros [p|]; [assumption|apply guarded_ret].
Qed.

Hypothesis Q_attribute : forall s, Inv s -> Q AttributeError s.
Hypothesis Q_value : forall s, Inv s -> Q ValueError s.

Lemma guarded_int_group m : guarded Inv Q (int_group m).
Proof.
  unfold int_group. destruct m as [g|]; [|apply guarded_raise, Q_attribute].
  destruct (int_of_string g); [apply guarded_ret|apply guarded_raise, Q_value].
Qed.

Hypothesis G_total_passed :
  forall v, guarded Inv Q (modify_results (set_total_passed v)).
Hypothesis G_total_failed :
  forall v, guarded Inv Q (modify_results (set_total_failed v)).

Lemma guarded_process_steeplechase_cleanup fuel :
  guarded Inv Q (process_steeplechase_cleanup fuel).
Proof.
  unfold process_steeplechase_cleanup.
  apply guarded_bind; [exact G_next|intros [n0 l0]].
  apply guarded_bind; [exact G_next|intros [n1 l1]].
  apply guarded_bind; [apply guarded_int_group|intros passed].
  apply guarded_bind; [apply G_total_passed|intros _].
  apply guarded_bind; [exact G_next|intros [n2 l2]].
  apply guarded_bind; [apply guarded_int_group|intros failed].
  apply guarded_bind; [apply G_total_failed|intros _].
  apply guarded_drain.
Qed.

(** A whole client section and the log, given the phases, which may
    raise the premature exit that [process_client] catches. *)
Variable Qc : exn -> state -> Prop.
Hypothesis Q_escape : forall e s, not_early_exit e -> Qc e s -> Q e s.
Hypothesis G_phases :
  forall fuel i, guarded Inv Qc (client_phases dateutil_parse fuel i).
Hypothesis G_append : guarded Inv Q (append_client create_client_results).
Hypothesis G_name : forall i v, guarded Inv Q (modify_client i (set_name v)).
Hypothesis G_log : forall number line, guarded Inv Q (log_anomaly number line).

Lemma guarded_process_client fuel :
  guarded Inv Q (process_client dateutil_parse fuel).
Proof.
  unfold process_client.
  apply guarded_bind; [exact G_append|intros i].
  apply guarded_bind; [exact G_next|intros [number line]].
  destruct (REGEXPS.client_start line) as [client_name|];
    [|apply guarded_raise, Q_attribute].
  apply guarded_bind; [apply G_name|intros _].
  apply (guarded_try_except_with Inv Q Qc); [apply G_phases| |].
  - intros e k. destruct e; intros [= <-]. apply G_log.
  - intros e s. destruct e; try discriminate; intros _; apply Q_escape; exact I.
Qed.

Lemma guarded_process_log fuel :
  guarded Inv Q (process_log dateutil_parse fuel).
Proof.
  unfold process_log.
  apply guarded_bind; [apply guarded_process_steeplechase_setup|intros _].
  apply guarded_bind; [apply guarded_process_client|intros _].
  apply guarded_bind; [apply guarded_process_client|intros _].
  apply guarded_process_steeplechase_cleanup.
Qed.

End GuardedLog.
(** ** What [parse] records of the file *)

Section LogInvariant.

Variable dateutil_parse : string -> option Z.
Variable log : list string.
Variable module_list : list anomaly.

Lemma scan_lines_app a : forall n b,
  scan_lines n (a ++ b)
  = scan_lines n a ++ scan_lines (n + Z.of_nat (length a)) b.
Proof.
  induction a as [|x a IH]; intros n b; cbn [scan_lines app length].
  - rewrite Z.add_0_r. reflexivity.
  - rewrite IH, <- app_assoc. do 3 f_equal. lia.
Qed.

(** Whatever leaves the reader and the anomaly log alone. *)
Lemma log_inv_same s s' :
  st_reader s' = st_reader s -> st_anomalies s' = st_anomalies s ->
  log_inv log module_list s -> log_inv log module_list s'.
Proof.
  intros Hr Ha (pre & added & H1 & H2 & H3). exists pre, added.
  rewrite Hr, Ha. auto.
Qed.

Lemma guarded_same {A} (m : M A) :
  (forall s, fst (m s) <> OutOfFuel
             /\ (forall e, fst (m s) <> Raise e)
             /\ st_reader (snd (m s)) = st_reader s
             /\ st_anomalies (snd (m s)) = st_anomalies s) ->
  guarded (log_inv log module_list) (stops_at_end log) m.
Proof.
  intros H s Hs. destruct (H s) as (_ & Hne & Hr & Ha).
  split; [eapply log_inv_same; eauto|].
  intros e He. destruct (Hne e He).
Qed.

Lemma log_inv_modify_results f :
  guarded (log_inv log module_list) (stops_at_end log) (modify_results f).
Proof. apply guarded_same. intros s. cbn. repeat split; discriminate. Qed.

Lemma log_inv_modify_client i f :
  guarded (log_inv log module_list) (stops_at_end log) (modify_client i f).
Proof. apply log_inv_modify_results. Qed.

Lemma log_inv_put_timing t :
  guarded (log_inv log module_list) (stops_at_end log) (put_timing t).
Proof. apply guarded_same. intros s. cbn. repeat split; discriminate. Qed.

Lemma log_inv_append_client c :
  guarded (log_inv log module_list) (stops_at_end log) (append_client c).
Proof. apply guarded_same. intros s. cbn. repeat split; discriminate. Qed.

Lemma log_inv_log_anomaly number line :
  guarded (log_inv log module_list) (stops_at_end log) (log_anomaly number line).
Proof.
  intros s (pre & added & H1 & H2 & H3). split; [|discriminate].
  exists pre, (added ++ [(number, line)]). cbn.
  split; [exact H1|]. split; [rewrite H2, app_assoc; reflexivity|].
  apply sublist_inserts_r, H3.
Qed.

Lemma log_inv_next :
  guarded (log_inv log module_list) (stops_at_end log) reader_next.
Proof.
  intros [[fr fl] an rs tm] (pre & added & [Hlog Hfr] & Han & Hsub).
  cbn in Hlog, Hfr, Han.
  assert (Hnew : forall n line rest,
             fl = line :: rest -> n = Z.of_nat (length pre) ->
             log_inv log module_list
               (mk_state (mk_gen (GenYieldLine (n + 1) line) rest)
                  (an ++ scan (n + 1) line) rs tm)).
  { intros n line rest -> ->. exists (pre ++ [line]), (added ++ scan (Z.of_nat (length pre) + 1) line).
    cbn. split; [split|split].
    - rewrite Hlog, <- app_assoc. reflexivity.
    - rewrite length_app. cbn. lia.
    - rewrite Han, app_assoc. reflexivity.
    - rewrite scan_lines_app. cbn [scan_lines]. rewrite app_nil_r, Z.add_0_l.
      apply sublist_app; [exact Hsub|reflexivity]. }
  assert (Heof : fl = [] ->
             log_inv log module_list
               (mk_state (mk_gen GenFinished []) an rs tm)
             /\ length log = length pre).
  { intros ->. split.
    - exists pre, added. cbn. repeat split; auto.
    - rewrite Hlog, app_nil_r. reflexivity. }
  destruct fr as [|n l|n l|].
  - destruct fl as [|line rest].
    + erewrite reader_next_eof; [|reflexivity|congruence|congruence].
      destruct (Heof eq_refl) as [Hi Hl]. cbn. split; [exact Hi|].
      intros e [= <-]. cbn. split; [reflexivity|].
      intros k [= <-]. rewrite Hl. subst pre. reflexivity.
    + erewrite reader_next_new; [|reflexivity|congruence|congruence].
      cbn. split; [|discriminate].
      apply (Hnew 0 line rest eq_refl). subst pre. reflexivity.
  - destruct fl as [|line rest].
    + erewrite reader_next_eof; [|reflexivity|congruence|congruence].
      destruct (Heof eq_refl) as [Hi Hl]. cbn. split; [exact Hi|].
      intros e [= <-]. cbn. split; [reflexivity|].
      intros k [= <-]. rewrite Hl. exact Hfr.
    + erewrite reader_next_new; [|reflexivity|congruence|congruence].
      cbn. split; [|discriminate].
      apply (Hnew n line rest eq_refl Hfr).
  - erewrite reader_next_replay; [|reflexivity]. cbn. split; [|discriminate].
    exists pre, added. cbn. repeat split; auto.
  - erewrite reader_next_finished; [|reflexivity]. cbn. split.
    + exists pre, added. cbn. repeat split; auto.
    + intros e [= <-]. cbn. split; [reflexivity|discriminate].
Qed.

Lemma log_inv_requeue :
  guarded (log_inv log module_list) (stops_at_end log) requeue_line.
Proof.
  intros [[fr fl] an rs tm] (pre & added & [Hlog Hfr] & Han & Hsub).
  cbn in Hlog, Hfr, Han.
  unfold requeue_line, resume, bind, get_reader, put_reader, ret, raise.
  destruct fr as [|n l|n l|]; cbn.
  - split; [exists pre, added; cbn; repeat split; auto|].
    intros e [= <-]. exact I.
  - split; [exists pre, added; cbn; repeat split; auto|discriminate].
  - split; [exists pre, added; cbn; repeat split; auto|discriminate].
  - split; [exists pre, added; cbn; repeat split; auto|].
    intros e [= <-]. cbn. split; [reflexivity|discriminate].
Qed.

Lemma stops_at_end_results e s r :
  stops_at_end log e s ->
  stops_at_end log e (mk_state (st_reader s) (st_anomalies s) r (st_timing s)).
Proof. destruct e; auto. Qed.

Lemma log_inv_client_phases fuel i :
  guarded (log_inv log module_list) (stops_at_end log)
    (client_phases dateutil_parse fuel i).
Proof.
  apply guarded_client_phases;
    try (intros; apply log_inv_modify_client);
    try (intros; exact I);
    auto using log_inv_next, log_inv_requeue, log_inv_log_anomaly.
  apply guarded_process_client_session;
    try (intros; apply log_inv_modify_client);
    try (intros; exact I);
    auto using log_inv_next, log_inv_requeue, log_inv_put_timing,
      stops_at_end_results.
Qed.

Lemma log_inv_process_log fuel :
  guarded (log_inv log module_list) (stops_at_end log)
    (process_log dateutil_parse fuel).
Proof.
  apply (guarded_process_log (log_inv log module_list) (stops_at_end log)
           dateutil_parse) with (Qc := stops_at_end log);
    try (intros; apply log_inv_modify_client);
    try (intros; apply log_inv_modify_results);
    try (intros; exact I);
    auto using log_inv_next, log_inv_requeue, log_inv_client_phases,
      log_inv_append_client, log_inv_log_anomaly.
Qed.

Lemma log_inv_initial :
  log_inv log module_list (initial_state log module_list).
Proof.
  exists [], []. cbn. rewrite app_nil_r. repeat split; auto.
Qed.

End LogInvariant.
(** ** What [parse] returns, whatever the log *)

Section ParseAlways.

Variable dateutil_parse : string -> option Z.

(** How [parse] comes to return: the stages returned, or they ran into
    the end of the input, which was recorded. *)
Lemma parse_body_Return_cases fuel s r s' :
  parse_body dateutil_parse fuel s = (Return r, s') ->
  exists s2,
    st_anomalies s' = st_anomalies s2
    /\ st_reader s' = st_reader s2
    /\ clients r = clients (st_results s2)
    /\ (process_log dateutil_parse fuel s = (Return tt, s2)
        \/ exists n s1,
             process_log dateutil_parse fuel s
             = (Raise (StopIteration (Some n)), s1)
             /\ s2 = mk_state (st_reader s1)
                       (st_anomalies s1 ++ [(n, "Reached unexpected EOF"%string)])
                       (st_results s1) (st_timing s1)).
Proof.
  unfold parse_body. intros H.
  apply bind_Return_inv in H as ([] & s2 & H1 & H).
  apply bind_Return_inv in H as (v0 & sa & H0 & H).
  apply client_session_runtime_Return in H0 as (-> & _).
  apply bind_Return_inv in H as (v1 & sb & H0 & H).
  apply client_session_runtime_Return in H0 as (-> & _).
  cbn in H. injection H as <- <-. cbn.
  exists s2. split; [reflexivity|]. split; [reflexivity|]. split; [reflexivity|].
  unfold try_except in H1.
  destruct (process_log dateutil_parse fuel s) as [[[]|e|] s1].
  - left. exact H1.
  - destruct e as [[n|]| | | | |]; try discriminate.
    right. exists n, s1. cbn in H1. injection H1 as <-. auto.
  - discriminate.
Qed.

Lemma drain_Return fuel : forall s s',
  drain fuel s = (Return tt, s') -> frame (st_reader s') = GenFinished.
Proof.
  induction fuel as [|fuel IH]; intros s s'; cbn [drain]; [discriminate|].
  unfold bind at 1. rewrite for_next_eq. next_cases s; cbn iota.
  - apply IH.
  - intros [= <-]. exact Hg.
Qed.

(** When the stages return the reader has read the whole file. *)
Lemma process_log_Return_finished fuel s s' :
  process_log dateutil_parse fuel s = (Return tt, s') ->
  frame (st_reader s') = GenFinished.
Proof.
  unfold process_log. intros H.
  apply bind_Return_inv in H as ([] & s1 & _ & H).
  apply bind_Return_inv in H as ([] & s2 & _ & H).
  apply bind_Return_inv in H as ([] & s3 & _ & H).
  unfold process_steeplechase_cleanup in H.
  apply bind_Return_inv in H as ([n0 l0] & s4 & _ & H).
  apply bind_Return_inv in H as ([n1 l1] & s5 & _ & H).
  apply bind_Return_inv in H as (passed & s6 & _ & H).
  apply bind_Return_inv in H as ([] & s7 & _ & H).
  apply bind_Return_inv in H as ([n2 l2] & s8 & _ & H).
  apply bind_Return_inv in H as (failed & s9 & _ & H).
  apply bind_Return_inv in H as ([] & s10 & _ & H).
  eapply drain_Return; eauto.
Qed.

(** X14: a document is returned only once every harness error line of
    the file is recorded.  When [parse] returns, the module-level list is
    the list it found with anomalies appended, and among those are, in the
    order of the file, all the lines of the file that match the harness
    error pattern, each with its line number and its raw text. *)
Theorem harness_errors_are_recorded log module_list r after :
  parse dateutil_parse log module_list = (Return r, after) ->
  exists added,
    after = module_list ++ added
    /\ scan_lines 0 log `sublist_of` added.
Proof.
  unfold parse, parse_fuel. intros H.
  destruct (parse_body dateutil_parse (S (length log))
              (initial_state log module_list)) as [o s'] eqn:E.
  injection H as -> <-.
  apply parse_body_Return_cases in E
    as (s2 & Ha & Hr & _ & [E|(n & s1 & E & ->)]).
  - destruct (log_inv_process_log dateutil_parse log module_list (S (length log))
                (initial_state log module_list)
                (log_inv_initial log module_list)) as [Hi _].
    rewrite E in Hi. cbn in Hi.
    destruct Hi as (pre & added & [Hlog Hfr] & Han & Hsub).
    apply process_log_Return_finished in E. rewrite E in Hfr.
    rewrite Hfr, app_nil_r in Hlog. subst pre.
    exists added. rewrite Ha. auto.
  - destruct (log_inv_process_log dateutil_parse log module_list (S (length log))
                (initial_state log module_list)
                (log_inv_initial log module_list)) as [Hi Hq].
    rewrite E in Hi, Hq. cbn in Hi, Hq.
    destruct (Hq _ eq_refl) as [Hfin _].
    destruct Hi as (pre & added & [Hlog Hfr] & Han & Hsub).
    rewrite Hfin in Hfr. rewrite Hfr, app_nil_r in Hlog. subst pre.
    exists (added ++ [(n, "Reached unexpected EOF"%string)]).
    rewrite Ha. cbn. rewrite Han, app_assoc. split; [reflexivity|].
    apply sublist_inserts_r, Hsub.
Qed.

(** X15: the end of the input is recorded at the last line of the file.
    When [parse] returns although its stages did not, they ran into the
    end of the input, and the last anomaly of the module-level list is
    the unexpected end of the file, numbered with the number of lines of
    the file. *)
Theorem unexpected_eof_is_numbered_by_file_length log module_list r after :
  parse dateutil_parse log module_list = (Return r, after) ->
  fst (process_log dateutil_parse (S (length log)) (initial_state log module_list))
  <> Return tt ->
  last after = Some (Z.of_nat (length log), "Reached unexpected EOF"%string).
Proof.
  unfold parse, parse_fuel. intros H Hne.
  destruct (parse_body dateutil_parse (S (length log))
              (initial_state log module_list)) as [o s'] eqn:E.
  injection H as -> <-.
  apply parse_body_Return_cases in E
    as (s2 & Ha & Hr & _ & [E|(n & s1 & E & ->)]).
  - rewrite E in Hne. cbn in Hne. congruence.
  - destruct (log_inv_process_log dateutil_parse log module_list (S (length log))
                (initial_state log module_list)
                (log_inv_initial log module_list)) as [_ Hq].
    rewrite E in Hq. cbn in Hq.
    destruct (Hq _ eq_refl) as [_ Hn]. rewrite (Hn n eq_refl) in Ha.
    rewrite Ha. cbn. apply last_snoc.
Qed.

(** [process_client] appends one dict to the clients, however it ends. *)
Lemma process_client_appends fuel s :
  length (clients (st_results (snd (process_client dateutil_parse fuel s))))
  = S (length (clients (st_results s))).
Proof.
  unfold process_client. unfold bind at 1. cbn [append_client]. cbn iota.
  match goal with |- context [bind reader_next ?k ?s0] => set (sa := s0) end.
  assert (Hsa : length (clients (st_results sa)) = S (length (clients (st_results s)))).
  { subst sa. cbn. rewrite length_app. cbn. lia. }
  rewrite <- Hsa. clearbody sa. clear Hsa.
  unfold bind at 1.
  pose proof (keeps_clients_next sa) as [Hn _].
  destruct (reader_next sa) as [[[number line]|e|] s1]; cbn in Hn;
    try (cbn; exact Hn).
  destruct (REGEXPS.client_start line) as [client_name|]; [|cbn; exact Hn].
  rewrite <- Hn. clear Hn. unfold bind at 1. cbn [modify_client modify_results].
  cbn iota.
  match goal with |- context [try_except ?b ?h ?s0] => set (sb := s0) end.
  assert (Hsb : length (clients (st_results sb)) = length (clients (st_results s1))).
  { subst sb. cbn. apply length_alter. }
  rewrite <- Hsb. clearbody sb. clear Hsb.
  unfold try_except.
  pose proof (keeps_clients_phases dateutil_parse fuel
                (length (clients (st_results s))) sb) as [Hp _].
  destruct (client_phases dateutil_parse fuel _ sb) as [[[]|e|] s2]; cbn in Hp;
    try (cbn; exact Hp).
  destruct e; cbn; exact Hp.
Qed.

Lemma process_log_clients fuel s :
  (length (clients (st_results (snd (process_log dateutil_parse fuel s))))
   <= length (clients (st_results s)) + 2)%nat.
Proof.
  unfold process_log. unfold bind at 1.
  pose proof (pres_process_steeplechase_setup keeps_clients keeps_clients_refl
                keeps_clients_trans keeps_clients_next keeps_clients_requeue
                fuel s) as [H1 _].
  destruct (process_steeplechase_setup fuel s) as [[[]|e|] s1]; cbn in H1;
    try (cbn; lia).
  unfold bind at 1. pose proof (process_client_appends fuel s1) as H2.
  destruct (process_client dateutil_parse fuel s1) as [[[]|e|] s2]; cbn in H2;
    try (cbn; lia).
  unfold bind at 1. pose proof (process_client_appends fuel s2) as H3.
  destruct (process_client dateutil_parse fuel s2) as [[[]|e|] s3]; cbn in H3;
    try (cbn; lia).
  pose proof (keeps_clients_steeplechase_cleanup fuel s3) as [H4 _]. lia.
Qed.

(** X16: a returned document has exactly two clients.  Whenever [parse]
    returns, also after an unexpected end of the input, the clients of
    the document are two: [process_client] appends one dict per call,
    however it ends, nothing else adds or removes one, and [parse] needs
    both to compute the session runtime. *)
Theorem returned_document_has_two_clients log module_list r after :
  parse dateutil_parse log module_list = (Return r, after) ->
  length (clients r) = 2%nat.
Proof.
  unfold parse, parse_fuel. intros H.
  destruct (parse_body dateutil_parse (S (length log))
              (initial_state log module_list)) as [o s'] eqn:E.
  injection H as -> <-.
  pose proof (parse_body_Return _ _ _ _ _ E) as (_ & _ & c0 & c1 & _ & Hc1 & _).
  apply lookup_lt_Some in Hc1.
  apply parse_body_Return_cases in E as (s2 & _ & _ & Hc & Hcase).
  pose proof (process_log_clients (S (length log)) (initial_state log module_list))
    as Hle.
  destruct Hcase as [E|(n & s1 & E & ->)]; rewrite E in Hle; cbn in Hle;
    rewrite Hc; cbn; rewrite Hc in Hc1; cbn in Hc1; lia.
Qed.

(** X20: [parse] ends on every file.  Whatever the lines of the file,
    the call returns a document or raises an exception: each loop of the
    stages reads a line in every iteration, a stage requeues only a line
    it has read itself, and the file is finite. *)
Theorem parse_returns_or_raises log module_list :
  (exists r, fst (parse dateutil_parse log module_list) = Return r)
  \/ (exists e, fst (parse dateutil_parse log module_list) = Raise e).
Proof.
  pose proof (parse_ends dateutil_parse log module_list) as H.
  destruct (fst (parse dateutil_parse log module_list)) as [r|e|]; eauto.
  congruence.
Qed.

End ParseAlways.
(** ** The exceptions of [parse] *)

Section Exceptions.

Variable dateutil_parse : string -> option Z.

Lemma started_same s s' : st_reader s' = st_reader s -> started s -> started s'.
Proof. unfold started. intros ->. auto. Qed.

Lemma next_started s : started (snd (reader_next s)).
Proof.
  unfold started. next_cases s; cbn; [discriminate|].
  rewrite Hg. discriminate.
Qed.

Lemma next_raises_stop s e s' :
  reader_next s = (Raise e, s') -> exists args, e = StopIteration args.
Proof. next_cases s; intros [= <- <-]. eauto. Qed.

Lemma requeue_started s :
  started s ->
  started (snd (requeue_line s))
  /\ st_results (snd (requeue_line s)) = st_results s
  /\ forall e, fst (requeue_line s) = Raise e -> e = StopIteration None.
Proof.
  unfold started, requeue_line, resume, bind, get_reader, put_reader, ret, raise.
  destruct s as [[fr fl] an rs tm]. cbn.
  destruct fr; cbn; intros H; try congruence;
    (split; [discriminate|split; [reflexivity|]]); try discriminate.
  intros e [= <-]. reflexivity.
Qed.

(** The elementary steps under the two invariants. *)
Lemma started_next (Q : exn -> state -> Prop) :
  (forall args s, Q (StopIteration args) s) -> guarded started Q reader_next.
Proof.
  intros HQ s _. split; [apply next_started|].
  intros e He. destruct (reader_next s) as [o s'] eqn:E. cbn in He. subst o.
  apply next_raises_stop in E as (args & ->). apply HQ.
Qed.

Lemma started_requeue (Q : exn -> state -> Prop) :
  (forall args s, Q (StopIteration args) s) -> guarded started Q requeue_line.
Proof.
  intros HQ s Hs. destruct (requeue_started s Hs) as (H1 & _ & H3).
  split; [exact H1|]. intros e He. rewrite (H3 e He). apply HQ.
Qed.

Lemma started_results (Q : exn -> state -> Prop) f :
  guarded started Q (modify_results f).
Proof. intros s Hs. split; [exact Hs|discriminate]. Qed.

Lemma started_timing (Q : exn -> state -> Prop) t : guarded started Q (put_timing t).
Proof. intros s Hs. split; [exact Hs|discriminate]. Qed.

Lemma started_log (Q : exn -> state -> Prop) number line :
  guarded started Q (log_anomaly number line).
Proof. intros s Hs. split; [exact Hs|discriminate]. Qed.

Lemma started_append (Q : exn -> state -> Prop) c :
  guarded started Q (append_client c).
Proof. intros s Hs. split; [exact Hs|discriminate]. Qed.

Lemma counts_next i (Q : exn -> state -> Prop) :
  (forall args s, Q (StopIteration args) s) ->
  guarded (counts_blocks i) Q reader_next.
Proof.
  intros HQ s [Hs Hb]. destruct (started_next Q HQ s Hs) as [H1 H2].
  split; [|exact H2]. split; [exact H1|].
  destruct (reader_next_changes s) as (g & added & -> & _). exact Hb.
Qed.

Lemma counts_requeue i (Q : exn -> state -> Prop) :
  (forall args s, Q (StopIteration args) s) ->
  guarded (counts_blocks i) Q requeue_line.
Proof.
  intros HQ s [Hs Hb]. destruct (requeue_started s Hs) as (H1 & H2 & H3).
  split; [|intros e He; rewrite (H3 e He); apply HQ].
  split; [exact H1|]. rewrite H2. exact Hb.
Qed.

(** An update of the dict of the client that leaves a block count a
    number. *)
Lemma counts_client i (Q : exn -> state -> Prop) f :
  (forall c, blocks c <> None -> blocks (f c) <> None) ->
  guarded (counts_blocks i) Q (modify_client i f).
Proof.
  intros Hf s [Hs Hb]. split; [|discriminate]. split; [exact Hs|].
  cbn. intros c. rewrite list_lookup_alter_eq.
  destruct (clients (st_results s) !! i) as [c0|] eqn:Hc; [|discriminate].
  intros [= <-]. apply Hf, (Hb c0 eq_refl).
Qed.

Lemma counts_timing i (Q : exn -> state -> Prop) t :
  guarded (counts_blocks i) Q (put_timing t).
Proof. intros s Hs. split; [exact Hs|discriminate]. Qed.

(** The session of a client raises no TypeError: it sets the block
    count to a number before its loop adds to it. *)
Lemma session_no_type_error fuel i :
  guarded started no_type_error (process_client_session dateutil_parse fuel i).
Proof.
  intros s Hs.
  change (process_client_session dateutil_parse fuel i s)
    with (try_finally (session_loop dateutil_parse fuel i) (session_finally i)
            (session_entry i s)).
  assert (Hentry : counts_blocks i (session_entry i s)).
  { split; [exact Hs|]. cbn. intros c. rewrite list_lookup_alter_eq.
    destruct (clients (st_results s) !! i); intros [= <-]. discriminate. }
  assert (G' : guarded (counts_blocks i) no_type_error
                 (try_finally (session_loop dateutil_parse fuel i)
                    (session_finally i))).
  { apply guarded_try_finally.
    - apply guarded_session_loop;
        try (intros; apply counts_client; intros c Hc; cbn; congruence);
        try (intros; apply counts_timing);
        try (apply counts_next; discriminate);
        try (apply counts_requeue; discriminate);
        try (intros; discriminate).
      intros s0 c [_ Hb] Hc Hnone. destruct (Hb c Hc Hnone).
    - apply guarded_session_finally;
        intros; apply counts_client; intros c Hc; cbn; congruence.
    - intros e s0 _ H. exact H. }
  destruct (G' _ Hentry) as [[Hi _] Hq]. split; [exact Hi|exact Hq].
Qed.

Lemma phases_no_type_error fuel i :
  guarded started no_type_error (client_phases dateutil_parse fuel i).
Proof.
  apply guarded_client_phases;
    try (intros; apply started_results);
    try (intros; apply started_log);
    try (apply started_next; discriminate);
    try (apply started_requeue; discriminate);
    try (intros; discriminate).
  apply session_no_type_error.
Qed.

Lemma stop_escapes args s : escapes_stage (StopIteration args) s.
Proof. split; [discriminate|exact I]. Qed.

Lemma client_escapes fuel :
  guarded started escapes_stage (process_client dateutil_parse fuel).
Proof.
  apply (guarded_process_client started escapes_stage dateutil_parse)
    with (Qc := no_type_error);
    try (intros; apply started_results);
    try (intros; apply started_log);
    try (intros; apply started_append);
    try (apply started_next; apply stop_escapes);
    try (intros; split; [discriminate|exact I]).
  - intros e s Hne Hc. split; assumption.
  - intros f i. apply phases_no_type_error.
Qed.

Lemma steeplechase_setup_escapes fuel :
  guarded started escapes_stage (process_steeplechase_setup fuel).
Proof.
  apply guarded_process_steeplechase_setup;
    try (apply started_next; apply stop_escapes);
    try (apply started_requeue; apply stop_escapes).
Qed.

Lemma steeplechase_cleanup_escapes fuel :
  guarded started escapes_stage (process_steeplechase_cleanup fuel).
Proof.
  apply guarded_process_steeplechase_cleanup;
    try (intros; apply started_results);
    try (apply started_next; apply stop_escapes);
    (intros; split; [discriminate|exact I]).
Qed.

Lemma bind_assoc {A B C} (m : M A) (f : A -> M B) (g : B -> M C) s :
  bind (bind m f) g s = bind m (fun a => bind (f a) g) s.
Proof. unfold bind. destruct (m s) as [[a|e|] s1]; reflexivity. Qed.

(** The stages of the log, from the state [parse] starts them in: the
    first thing they do is to read a line. *)
Lemma process_log_escapes fuel s e s' :
  process_log dateutil_parse fuel s = (Raise e, s') -> escapes_stage e s'.
Proof.
  destruct fuel as [|fuel]; [discriminate|].
  unfold process_log. cbn [process_steeplechase_setup].
  rewrite bind_assoc. unfold bind at 1.
  pose proof (next_started s) as Hst. rewrite for_next_eq.
  destruct (reader_next s) as [[p|e0|] s1] eqn:En; cbn in Hst.
  - match goal with
    | |- ?K s1 = _ -> _ => assert (G : guarded started escapes_stage K)
    end.
    { apply guarded_bind.
      - destruct p as [number line].
        destruct (REGEXPS.is_some (REGEXPS.client_start line));
          [apply started_requeue; apply stop_escapes
          |apply steeplechase_setup_escapes].
      - intros _. apply guarded_bind; [apply client_escapes|intros _].
        apply guarded_bind; [apply client_escapes|intros _].
        apply steeplechase_cleanup_escapes. }
    intros E. destruct (G s1 Hst) as [_ Hq]. rewrite E in Hq.
    apply Hq. reflexivity.
  - apply next_raises_stop in En as (args & ->). cbn iota.
    match goal with
    | |- ?K s1 = _ -> _ => assert (G : guarded started escapes_stage K)
    end.
    { apply guarded_bind; [apply guarded_ret|intros _].
      apply guarded_bind; [apply client_escapes|intros _].
      apply guarded_bind; [apply client_escapes|intros _].
      apply steeplechase_cleanup_escapes. }
    intros E. destruct (G s1 Hst) as [_ Hq]. rewrite E in Hq.
    apply Hq. reflexivity.
  - discriminate.
Qed.

Lemma client_session_runtime_Raise k s e s' :
  client_session_runtime k s = (Raise e, s') -> e = IndexError.
Proof.
  unfold client_session_runtime, bind, get_results, ret, raise.
  destruct (clients (st_results s) !! k); intros [= <- _]. reflexivity.
Qed.


End Exceptions.
(** ** The anomaly list is only written *)

Section Frame.

Variable dateutil_parse : string -> option Z.

Lemma framed_ret {A} (a : A) : framed (ret a).
Proof. intros m s1 s2 H. split; [reflexivity|exact H]. Qed.

Lemma framed_raise {A} e : framed (@raise A e).
Proof. intros m s1 s2 H. split; [reflexivity|exact H]. Qed.

Lemma framed_out_of_fuel {A} : framed (@out_of_fuel A).
Proof. intros m s1 s2 H. split; [reflexivity|exact H]. Qed.

Lemma framed_bind {A B} (x : M A) (f : A -> M B) :
  framed x -> (forall a, framed (f a)) -> framed (bind x f).
Proof.
  intros Hx Hf m s1 s2 H. unfold bind. destruct (Hx m s1 s2 H) as [Ho Hs].
  destruct (x s1) as [o1 t1], (x s2) as [o2 t2]. cbn in Ho, Hs. subst o2.
  destruct o1 as [a|e|]; [apply Hf, Hs| |]; (split; [reflexivity|exact Hs]).
Qed.

Lemma framed_try_except {A} (x : M A) h :
  framed x -> (forall e k, h e = Some k -> framed k) -> framed (try_except x h).
Proof.
  intros Hx Hh m s1 s2 H. unfold try_except. destruct (Hx m s1 s2 H) as [Ho Hs].
  destruct (x s1) as [o1 t1], (x s2) as [o2 t2]. cbn in Ho, Hs. subst o2.
  destruct o1 as [a|e|]; try (split; [reflexivity|exact Hs]).
  destruct (h e) as [k|] eqn:E; [eapply Hh; eauto|].
  split; [reflexivity|exact Hs].
Qed.

Lemma framed_try_finally {A} (x : M A) fin :
  framed x -> framed fin -> framed (try_finally x fin).
Proof.
  intros Hx Hf m s1 s2 H. unfold try_finally. destruct (Hx m s1 s2 H) as [Ho Hs].
  destruct (x s1) as [o1 t1], (x s2) as [o2 t2]. cbn in Ho, Hs. subst o2.
  destruct o1 as [a|e|]; try (split; [reflexivity|exact Hs]);
    destruct (Hf m t1 t2 Hs) as [Ho' Hs'];
    destruct (fin t1) as [p1 u1], (fin t2) as [p2 u2]; cbn in Ho', Hs'; subst p2;
    destruct p1 as [[]|e'|]; (split; [reflexivity|exact Hs']).
Qed.

(** The elementary steps. *)
Lemma framed_get_results : framed get_results.
Proof.
  intros m s1 s2 H. split; [|exact H]. cbn. f_equal. apply H.
Qed.

Lemma framed_get_timing : framed get_timing.
Proof.
  intros m s1 s2 H. split; [|exact H]. cbn. f_equal. apply H.
Qed.

Lemma framed_get_client i : framed (get_client i).
Proof.
  intros m s1 s2 H. unfold get_client.
  destruct H as (Hr & Hres & Ht & Ha). rewrite Hres.
  destruct (clients (st_results s2) !! i); cbn;
    (split; [reflexivity|repeat split; assumption]).
Qed.

Lemma framed_modify_results f : framed (modify_results f).
Proof.
  intros m s1 s2 (Hr & Hres & Ht & Ha). split; [reflexivity|].
  repeat split; cbn; congruence.
Qed.

Lemma framed_modify_client i f : framed (modify_client i f).
Proof. apply framed_modify_results. Qed.

Lemma framed_put_timing t : framed (put_timing t).
Proof.
  intros m s1 s2 (Hr & Hres & Ht & Ha). split; [reflexivity|].
  repeat split; cbn; congruence.
Qed.

Lemma framed_append_client c : framed (append_client c).
Proof.
  intros m s1 s2 (Hr & Hres & Ht & Ha). split; [cbn; congruence|].
  repeat split; cbn; congruence.
Qed.

Lemma framed_log_anomaly number line : framed (log_anomaly number line).
Proof.
  intros m s1 s2 (Hr & Hres & Ht & Ha). split; [reflexivity|].
  repeat split; cbn; try congruence. rewrite Ha, app_assoc. reflexivity.
Qed.

Lemma framed_int_group g : framed (int_group g).
Proof.
  unfold int_group. destruct g as [g|]; [|apply framed_raise].
  destruct (int_of_string g); [apply framed_ret|apply framed_raise].
Qed.

Lemma framed_next : framed reader_next.
Proof.
  intros m [g1 an1 rs1 tm1] [g2 an2 rs2 tm2] (Hr & Hres & Ht & Ha).
  cbn in Hr, Hres, Ht, Ha. subst g1 rs1 tm1 an1.
  destruct g2 as [fr fl]. destruct fr as [|n l|n l|].
  - destruct fl as [|line rest].
    + erewrite !reader_next_eof; try reflexivity; try congruence.
      split; [reflexivity|repeat split; reflexivity].
    + erewrite !reader_next_new; try reflexivity; try congruence.
      split; [reflexivity|]. repeat split; cbn; try reflexivity.
      rewrite app_assoc. reflexivity.
  - destruct fl as [|line rest].
    + erewrite !reader_next_eof; try reflexivity; try congruence.
      split; [reflexivity|repeat split; reflexivity].
    + erewrite !reader_next_new; try reflexivity; try congruence.
      split; [reflexivity|]. repeat split; cbn; try reflexivity.
      rewrite app_assoc. reflexivity.
  - erewrite !reader_next_replay; try reflexivity.
    split; [reflexivity|repeat split; reflexivity].
  - erewrite !reader_next_finished; try reflexivity.
    split; [reflexivity|repeat split; reflexivity].
Qed.

Lemma framed_requeue : framed requeue_line.
Proof.
  intros m [g1 an1 rs1 tm1] [g2 an2 rs2 tm2] (Hr & Hres & Ht & Ha).
  cbn in Hr, Hres, Ht, Ha. subst g1 rs1 tm1 an1.
  unfold requeue_line, resume, bind, get_reader, put_reader, ret, raise.
  destruct g2 as [fr fl]. cbn.
  destruct fr; cbn; (split; [reflexivity|repeat split; reflexivity]).
Qed.

Ltac framed_auto :=
  repeat first
    [ apply framed_ret | apply framed_raise | apply framed_out_of_fuel
    | apply framed_get_results | apply framed_get_timing
    | apply framed_get_client | apply framed_modify_results
    | apply framed_modify_client | apply framed_put_timing
    | apply framed_append_client | apply framed_log_anomaly
    | apply framed_int_group | apply framed_next | apply framed_requeue
    | assumption
    | match goal with
      | H : forall _, framed _ |- _ => apply H
      | H : forall _ _, framed _ |- _ => apply H
      | H : forall _ _ _, framed _ |- _ => apply H
      end
    | match goal with
      | |- framed (bind _ _) => apply framed_bind; [|intros]
      | |- framed (try_finally _ _) => apply framed_try_finally
      | |- framed (match ?x with _ => _ end) => destruct x
      | |- framed (if ?x then _ else _) => destruct x
      end ].

(** The stages. *)
Lemma framed_for_next : framed for_next.
Proof.
  unfold for_next. apply framed_try_except; [framed_auto|].
  intros e k. destruct e; intros [= <-]. apply framed_ret.
Qed.

Lemma framed_process_steeplechase_setup fuel :
  framed (process_steeplechase_setup fuel).
Proof.
  induction fuel as [|fuel IH]; cbn [process_steeplechase_setup];
    pose proof framed_for_next; framed_auto.
Qed.

Lemma framed_drain fuel : framed (drain fuel).
Proof.
  induction fuel as [|fuel IH]; cbn [drain];
    pose proof framed_for_next; framed_auto.
Qed.

Lemma framed_stats_list_loop fuel in_blank : framed (stats_list_loop fuel in_blank).
Proof.
  revert in_blank.
  induction fuel as [|fuel IH]; intros in_blank; cbn [stats_list_loop];
    framed_auto.
Qed.

Lemma framed_test_results_loop fuel failed :
  framed (test_results_loop fuel failed).
Proof.
  revert failed.
  induction fuel as [|fuel IH]; intros failed; cbn [test_results_loop];
    framed_auto.
Qed.

Lemma framed_process_stats_block fuel i just_scan :
  framed (process_stats_block fuel i just_scan).
Proof.
  unfold process_stats_block.
  pose proof framed_stats_list_loop. pose proof framed_test_results_loop.
  framed_auto.
Qed.

Lemma framed_process_client_setup fuel i : framed (process_client_setup fuel i).
Proof.
  induction fuel as [|fuel IH]; cbn [process_client_setup]; framed_auto.
Qed.

Lemma framed_session_stats_block fuel i :
  framed (session_stats_block dateutil_parse fuel i).
Proof.
  unfold session_stats_block. pose proof framed_process_stats_block.
  framed_auto.
Qed.

Lemma framed_session_loop fuel i : framed (session_loop dateutil_parse fuel i).
Proof.
  induction fuel as [|fuel IH]; cbn [session_loop];
    pose proof framed_session_stats_block; framed_auto.
Qed.

Lemma framed_session_finally i : framed (session_finally i).
Proof. unfold session_finally. framed_auto. Qed.

Lemma framed_process_client_session fuel i :
  framed (process_client_session dateutil_parse fuel i).
Proof.
  unfold process_client_session.
  pose proof framed_session_loop. pose proof framed_session_finally.
  framed_auto.
Qed.

Lemma framed_cleanup_stats_block fuel i number :
  framed (cleanup_stats_block fuel i number).
Proof.
  unfold cleanup_stats_block. pose proof framed_process_stats_block.
  framed_auto.
Qed.

Lemma framed_process_client_cleanup fuel i :
  framed (process_client_cleanup fuel i).
Proof.
  induction fuel as [|fuel IH]; cbn [process_client_cleanup];
    pose proof framed_cleanup_stats_block; framed_auto.
Qed.

Lemma framed_client_phases fuel i : framed (client_phases dateutil_parse fuel i).
Proof.
  unfold client_phases.
  pose proof framed_process_client_setup.
  pose proof framed_process_client_session.
  pose proof framed_process_client_cleanup. framed_auto.
Qed.

Lemma framed_process_client fuel : framed (process_client dateutil_parse fuel).
Proof.
  unfold process_client. pose proof framed_client_phases. framed_auto.
  apply framed_try_except; [framed_auto|].
  intros e k. destruct e; intros [= <-]. apply framed_log_anomaly.
Qed.

Lemma framed_process_steeplechase_cleanup fuel :
  framed (process_steeplechase_cleanup fuel).
Proof.
  unfold process_steeplechase_cleanup. pose proof framed_drain. framed_auto.
Qed.

Lemma framed_process_log fuel : framed (process_log dateutil_parse fuel).
Proof.
  unfold process_log.
  pose proof framed_process_steeplechase_setup. pose proof framed_process_client.
  pose proof framed_process_steeplechase_cleanup. framed_auto.
Qed.

Lemma framed_client_session_runtime k : framed (client_session_runtime k).
Proof. unfold client_session_runtime. framed_auto. Qed.

Lemma framed_parse_body fuel : framed (parse_body dateutil_parse fuel).
Proof.
  unfold parse_body. pose proof framed_client_session_runtime.
  apply framed_bind; [|intros; framed_auto].
  apply framed_try_except; [apply framed_process_log|].
  intros e k. destruct e; intros [= <-]. destruct args; framed_auto.
Qed.

(** X22: what [parse] does depends on the file only.  The module-level
    anomaly list is written and never read: called with any list, [parse]
    ends as it does when the list is empty, with the same document or
    the same exception, and leaves the list it found followed by exactly
    the anomalies it records when the list is empty. *)
Theorem parse_never_reads_the_anomaly_list log module_list :
  parse dateutil_parse log module_list
  = (fst (parse dateutil_parse log []),
     module_list ++ snd (parse dateutil_parse log [])).
Proof.
  unfold parse, parse_fuel.
  destruct (framed_parse_body (S (length log)) module_list
              (initial_state log module_list) (initial_state log []))
    as [Ho (_ & _ & _ & Ha)].
  { repeat split; cbn. rewrite app_nil_r. reflexivity. }
  destruct (parse_body dateutil_parse (S (length log))
              (initial_state log module_list)) as [o1 s1].
  destruct (parse_body dateutil_parse (S (length log))
              (initial_state log [])) as [o2 s2].
  cbn in *. rewrite Ho, Ha. reflexivity.
Qed.

End Frame.

(** * The theorems at concrete inputs *)

Section Witnesses.

Import Sample Examples.

Lemma requeue_replays_same_line_witness :
  reader_next fresh = (Return (1, "first"%string), first_read)
  /\ (exists s2, requeue_line first_read = (Return tt, s2)
                 /\ reader_next s2 = (Return (1, "first"%string), first_read))
  /\ current_number (st_reader first_read) = 1.
Proof.
  split; [reflexivity|].
  destruct (requeue_replays_same_line fresh 1 "first" first_read eq_refl)
    as (H1 & H2 & _).
  split; [exact H1|exact H2].
Defined.

Lemma anomalies_accumulate_across_calls_witness :
  parse seconds_parse full_log [] = (Return full_log_document, oops)
  /\ parse seconds_parse full_log oops = (Return full_log_document, oops ++ oops)
  /\ anomalies full_log_document = ModuleAnomalies
  /\ exists recorded1 recorded2,
       oops = [] ++ recorded1
       /\ oops ++ oops = [] ++ recorded1 ++ recorded2
       /\ deref (oops ++ oops) (anomalies full_log_document)
          = [] ++ recorded1 ++ recorded2
       /\ deref (oops ++ oops) (anomalies full_log_document)
          = deref (oops ++ oops) (anomalies full_log_document).
Proof.
  assert (H1 : parse seconds_parse full_log [] = (Return full_log_document, oops))
    by (vm_compute; reflexivity).
  assert (H2 : parse seconds_parse full_log oops
               = (Return full_log_document, oops ++ oops))
    by (vm_compute; reflexivity).
  split; [exact H1|]. split; [exact H2|].
  destruct (anomalies_accumulate_across_calls seconds_parse full_log full_log []
              full_log_document oops full_log_document (oops ++ oops) H1 H2)
    as (A1 & _ & A3).
  split; [exact A1|exact A3].
Defined.


Lemma block_lines_classified :
  upcoming (st_reader block_start)
  = block_header :: block_stats ++ block_blanks ++ block_tests ++ block_stop :: []
  /\ REGEXPS.stats_block (snd block_header) = Some "100"%string
  /\ Forall not_blank block_stats
  /\ block_blanks <> []
  /\ Forall is_blank block_blanks
  /\ Forall is_test_result block_tests
  /\ REGEXPS.test_result (snd block_stop) = None
  /\ not_blank block_stop.
Proof.
  split; [vm_compute; reflexivity|]. split; [vm_compute; reflexivity|].
  split; [repeat constructor|]. split; [discriminate|].
  split; [repeat constructor|]. split; [repeat constructor|].
  split; vm_compute; reflexivity.
Defined.




Lemma test_failure_lines_are_recorded_witness :
  clients (st_results setup_start) !! 0%nat
  = Some (set_blocks (Some 0) create_client_results)
  /\ fst (process_client_setup 10 0 setup_start) <> OutOfFuel
  /\ exists c',
       clients (st_results (snd (process_client_setup 10 0 setup_start))) !! 0%nat
       = Some c'
       /\ setup_failures c'
          = [] ++ List.filter is_test_failure
                    (setup_lines (upcoming (st_reader setup_start))).
Proof.
  assert (H1 : clients (st_results setup_start) !! 0%nat
               = Some (set_blocks (Some 0) create_client_results))
    by reflexivity.
  assert (H2 : fst (process_client_setup 10 0 setup_start) <> OutOfFuel)
    by (vm_compute; discriminate).
  split; [exact H1|]. split; [exact H2|].
  exact (proj1 (test_failure_lines_are_recorded seconds_parse) 10%nat 0%nat
           setup_start _ H1 H2).
Defined.

End Witnesses.

(** * More theorems at concrete inputs *)

(** Settle a conjunction of facts about concrete lines. *)
Ltac settle := repeat first [reflexivity | discriminate | split | constructor].

Section MoreWitnesses.

Import Sample Examples Cases.

Lemma client_start_finds_name_witness :
  REGEXPS.client_start marker_line = Some "Client A (10.0.0.1:5555)"%string.
Proof.
  apply (client_start_finds_name "steeplechase INFO | "
           "Client A (10.0.0.1:5555)" EmptyString); reflexivity.
Defined.

Lemma stats_block_finds_timestamp_witness :
  REGEXPS.stats_block header_line = Some "2014-05-01 12:00:00"%string.
Proof.
  apply (stats_block_finds_timestamp "steeplechase INFO | "
           "2014-05-01 12:00:00" EmptyString); reflexivity.
Defined.

Lemma totals_find_count_witness :
  REGEXPS.total_passed "steeplechase INFO | Passed: 42" = Some "42"%string
  /\ (int_of_string "42" = None <-> "42"%string = EmptyString).
Proof.
  apply (totals_find_count true "steeplechase INFO | " "42" EmptyString);
    reflexivity.
Defined.

Lemma failure_lines_are_result_lines_witness :
  REGEXPS.test_failure (strip (result_line "test_unexpected_fail")) = true
  /\ REGEXPS.is_some
       (REGEXPS.test_result (strip (result_line "test_unexpected_fail"))) = true
  /\ REGEXPS.blank (strip (result_line "test_unexpected_fail")) = false.
Proof.
  split; [reflexivity|].
  apply (failure_lines_are_result_lines
           (strip (result_line "test_unexpected_fail"))).
  reflexivity.
Defined.

Lemma exhausted_reader_stays_exhausted_witness :
  exists s',
    reader_next at_end = (Raise (StopIteration (Some 2)), s')
    /\ reader_next s' = (Raise (StopIteration None), s')
    /\ requeue_line s' = (Raise (StopIteration None), s').
Proof.
  eexists. split; [reflexivity|].
  destruct (exhausted_reader_stays_exhausted at_end _ _ eq_refl)
    as (_ & _ & H1 & H2).
  split; [exact H1|exact H2].
Defined.

Lemma requeue_twice_replays_once_witness :
  reader_next fresh = (Return (1, "first"%string), first_read)
  /\ exists s2,
       requeue_line first_read = (Return tt, s2)
       /\ requeue_line s2 = (Return tt, s2)
       /\ reader_next s2 = (Return (1, "first"%string), first_read).
Proof.
  split; [reflexivity|].
  destruct (requeue_twice_replays_once fresh (1, "first"%string) first_read eq_refl)
    as ((s2 & H1 & H2 & H3 & _) & _).
  exists s2. auto.
Defined.

Lemma steeplechase_setup_stops_at_first_client_witness :
  exists s' s'',
    process_steeplechase_setup 5 (initial_state full_log []) = (Return tt, s')
    /\ only_read (initial_state full_log []) s'
    /\ reader_next s' = (Return (line_at full_log 2), s'')
    /\ upcoming (st_reader s'') = skipn 2 (number_lines 0 full_log)
    /\ reads_on (st_reader s'').
Proof.
  apply (steeplechase_setup_stops_at_first_client 5 [line_at full_log 1]
           (initial_state full_log []) (line_at full_log 2)
           (skipn 2 (number_lines 0 full_log))).
  - vm_compute. reflexivity.
  - repeat constructor.
  - vm_compute. reflexivity.
  - cbn. lia.
Defined.

Lemma log_without_client_raises_IndexError_witness :
  Forall (fun l => REGEXPS.client_start (strip l) = None) headless_log
  /\ parse seconds_parse headless_log oops
     = (Raise IndexError, oops ++ scan_lines 0 headless_log).
Proof.
  assert (H : Forall (fun l => REGEXPS.client_start (strip l) = None) headless_log)
    by (repeat constructor).
  split; [exact H|].
  exact (log_without_client_raises_IndexError seconds_parse headless_log oops H).
Defined.

Lemma steeplechase_cleanup_reads_totals_witness :
  process_steeplechase_cleanup 2 (initial_state totals_file [])
  = (Return tt,
     mk_state (mk_gen GenFinished [])
       ([] ++ scan_lines 0 totals_file)
       (set_total_failed (Some 3) (set_total_passed (Some 42) create_results))
       timing_unset).
Proof.
  apply (steeplechase_cleanup_reads_totals 2 (initial_state totals_file [])
           ("steeplechase INFO | Result summary:" ++ nl)%string
           ("steeplechase INFO | Passed: 42" ++ nl)%string
           ("steeplechase INFO | Failed: 3" ++ nl)%string
           [("steeplechase ERROR | late" ++ nl)%string] "42" 42 "3" 3);
    try reflexivity; try exact I.
  cbn. lia.
Defined.

Lemma steeplechase_cleanup_failures_witness :
  fst (process_steeplechase_cleanup 2 (initial_state [blank_line] []))
  = Raise (StopIteration (Some (0 + Z.of_nat 1)))
  /\ st_results (snd (process_steeplechase_cleanup 2 (initial_state [blank_line] [])))
     = create_results.
Proof.
  destruct (steeplechase_cleanup_failures 2 (initial_state [blank_line] []) I)
    as (H & _).
  apply H. cbn. lia.
Defined.

Lemma session_items_ok :
  upcoming (st_reader session_state) = session_lines session_items ++ [session_finish]
  /\ session_ok seconds_parse session_items session_finish
  /\ ends_session session_finish.
Proof.
  split; [vm_compute; reflexivity|]. split.
  - settle.
  - split; reflexivity.
Defined.


Lemma short_items_ok :
  upcoming (st_reader short_state) = session_lines short_items ++ [short_end]
  /\ session_ok seconds_parse short_items short_end
  /\ REGEXPS.client_end (snd short_end) = true.
Proof.
  split; [vm_compute; reflexivity|]. split.
  - settle.
  - reflexivity.
Defined.


Lemma section_ok_A : section_ok seconds_parse section_A.
Proof.
  settle.
Defined.

Lemma section_ok_B : section_ok seconds_parse section_B.
Proof.
  settle.
Defined.

Lemma section_ok_alone : section_ok seconds_parse section_alone.
Proof.
  settle.
Defined.



Lemma harness_errors_are_recorded_witness :
  parse seconds_parse full_log [] = (Return full_log_document, oops)
  /\ exists added,
       oops = [] ++ added /\ scan_lines 0 full_log `sublist_of` added.
Proof.
  assert (H : parse seconds_parse full_log [] = (Return full_log_document, oops))
    by (vm_compute; reflexivity).
  split; [exact H|].
  exact (harness_errors_are_recorded seconds_parse full_log [] _ _ H).
Defined.

Lemma unexpected_eof_is_numbered_by_file_length_witness :
  (exists r after,
     parse seconds_parse no_totals_log [] = (Return r, after)
     /\ last after = Some (Z.of_nat (length no_totals_log),
                           "Reached unexpected EOF"%string))
  /\ length no_totals_log = 10%nat.
Proof.
  split; [|reflexivity].
  destruct (parse seconds_parse no_totals_log []) as [o after] eqn:E.
  assert (Ho : exists r, o = Return r).
  { vm_compute in E. injection E as <- _. eauto. }
  destruct Ho as (r & ->). exists r, after. split; [reflexivity|].
  apply (unexpected_eof_is_numbered_by_file_length seconds_parse no_totals_log []
           r after E).
  vm_compute. discriminate.
Defined.

Lemma returned_document_has_two_clients_witness :
  parse seconds_parse full_log [] = (Return full_log_document, oops)
  /\ length (clients full_log_document) = 2%nat.
Proof.
  assert (H : parse seconds_parse full_log [] = (Return full_log_document, oops))
    by (vm_compute; reflexivity).
  split; [exact H|].
  exact (returned_document_has_two_clients seconds_parse full_log [] _ _ H).
Defined.


Lemma stats_block_without_blank_reads_to_end_witness :
  exists args s',
    process_stats_block 4 0 false
      (mk_state (line_reader no_blank_file) [] one_client timing_unset)
    = (Raise (StopIteration args), s')
    /\ upcoming (st_reader s') = []
    /\ st_results s' = one_client.
Proof.
  apply (stats_block_without_blank_reads_to_end 4 0 false
           (mk_state (line_reader no_blank_file) [] one_client timing_unset)
           (line_at no_blank_file 1) "100" (lines_at no_blank_file 2 3)).
  - vm_compute. reflexivity.
  - reflexivity.
  - repeat constructor.
  - cbn. lia.
Defined.

End MoreWitnesses.
